(** * A deterministic skip list: shallow embedding of [SkipList.hpp]

    The container [SkipList<unsigned, unsigned>] of the repository is embedded
    as explicit state passing over an arena of nodes.

    - A [Node*] is an [option addr]: [None] is [nullptr], [Some a] points at
      cell [a] of the arena [heap].  [new] appends a cell; nothing is freed
      before the destructor runs, so an address stays valid for the lifetime
      of the container.
    - Members the constructors of [Node] leave uninitialised ([key], [val]
      and [height] of a sentinel) are [None]; reading one is undefined
      behaviour, as is dereferencing [nullptr] and leaving a value-returning
      function without a [return].
    - [unsigned] and [size_t] values are integers of [Z] with the wrap-around
      of their width written at every increment.
    - A [while] loop is a [Fixpoint] on a fuel argument; the public
      operations run their loops with a fuel read off the arena, and the
      theorems show that this fuel is never exhausted in a state the
      operations can produce.  The loop of [flipCoin] over a string key
      takes its fuel as an argument: it ends for the keys below [2 ^ 32]
      characters and for no other.
    - [std::ceil(std::log2(x))] is taken as the exact integer [Z.log2_up x]
      (the keys being 32-bit, [x] never exceeds [2^32 + 1], far below the
      range where rounding of the floating-point logarithm could matter). *)

From Stdlib Require Import ZArith Lia Ascii String Sorted Permutation.
From stdpp Require Import base tactics option list numbers strings sorting sets.

Local Open Scope Z_scope.

(** ** Outcomes of an operation *)

(** Modelled from the spec: [runtimeexcept.hpp] (the class
    [RuntimeException]) is not among the sources; the only use the container
    makes of it is [throw RuntimeException(message)], so an exception is its
    message. *)
Inductive RuntimeException : Type :=
| mkRuntimeException (reason : string).

(** The ways an execution can leave the defined behaviour of C++. *)
Inductive undefined_behaviour : Type :=
| NullDereference      (* [p->f] with [p == nullptr] *)
| DanglingPointer      (* [p->f] with [p] outside the arena *)
| UninitialisedRead    (* a member no constructor has set *)
| MissingReturn.       (* end of a non-void function reached *)

Inductive outcome (A : Type) : Type :=
| Ok (a : A)
| Throw (e : RuntimeException)
| Undefined (u : undefined_behaviour)
| OutOfFuel.
Arguments Ok {A} a.
Arguments Throw {A} e.
Arguments Undefined {A} u.
Arguments OutOfFuel {A}.

#[global] Instance outcome_ret : MRet outcome := @Ok.
#[global] Instance outcome_bind : MBind outcome := λ A B f x,
  match x with
  | Ok a => f a
  | Throw e => Throw e
  | Undefined u => Undefined u
  | OutOfFuel => OutOfFuel
  end.

(** ** Machine integers *)

(** The wrap-around of [unsigned] and of [size_t]. *)
Definition wrap32 (x : Z) : Z := x mod 2 ^ 32.
Definition wrap64 (x : Z) : Z := x mod 2 ^ 64.

(** ** The promotion oracle *)

(** Conversion of an integer to [char] (eight bits, two's complement, signed
    as on the usual x86 and x86-64 ABIs). *)
Definition to_char (x : Z) : Z := (x + 128) mod 256 - 128.

(** The test [(c & (1 << previousFlips)) != 0] shared by both overloads,
    [previousFlips] already reduced modulo 8. *)
Definition bit_is_set (c previousFlips : Z) : bool :=
  negb (Z.land c (Z.shiftl 1 previousFlips) =? 0).

(** [flipCoin(unsigned key, unsigned previousFlips)] *)
Definition flipCoin (key previousFlips : Z) : bool :=
  let first8Bits := Z.land key 0xFF000000 / 0x01000000 in
  let next8Bits := Z.land key 0x00FF0000 / 0x00010000 in
  let andThen := Z.land key 0x0000FF00 / 0x00000100 in
  let lastBits := Z.land key 0x000000FF in
  let c := to_char (Z.lxor (Z.lxor (Z.lxor first8Bits next8Bits) andThen) lastBits) in
  let previousFlips := previousFlips mod 8 in
  bit_is_set c previousFlips.







(** *** The oracle in the words of the specification

    The specification reduces a key to one byte, the XOR of the four bytes
    of its 32-bit form or of all the bytes of a string, and tests a bit of
    that byte.  These are the definitions [flipCoin] is compared with. *)





(** ** Nodes and the arena *)

(** Addresses are indices into the arena, pointers are nullable addresses. *)
Abbreviation addr := nat (only parsing).
Abbreviation ptr := (option nat) (only parsing).

Record Node : Type := mkNode {
  sentinel : bool;
  height : option Z;
  key : option Z;
  val : option Z;
  next : ptr;
  prev : ptr;
  up : ptr;
  down : ptr;
  name : string;
}.

(** [Node()] *)
Definition Node_sentinel : Node :=
  {| sentinel := true; height := None; key := None; val := None;
     next := None; prev := None; up := None; down := None; name := EmptyString |}.

(** [Node(k, v)] *)
Definition Node_data (k v : Z) : Node :=
  {| sentinel := false; height := Some 0; key := Some k; val := Some v;
     next := None; prev := None; up := None; down := None; name := EmptyString |}.

Definition set_height (x : Z) (n : Node) : Node :=
  {| sentinel := sentinel n; height := Some x; key := key n; val := val n;
     next := next n; prev := prev n; up := up n; down := down n; name := name n |}.
Definition set_val (x : Z) (n : Node) : Node :=
  {| sentinel := sentinel n; height := height n; key := key n; val := Some x;
     next := next n; prev := prev n; up := up n; down := down n; name := name n |}.
Definition set_next (x : ptr) (n : Node) : Node :=
  {| sentinel := sentinel n; height := height n; key := key n; val := val n;
     next := x; prev := prev n; up := up n; down := down n; name := name n |}.
Definition set_prev (x : ptr) (n : Node) : Node :=
  {| sentinel := sentinel n; height := height n; key := key n; val := val n;
     next := next n; prev := x; up := up n; down := down n; name := name n |}.
Definition set_up (x : ptr) (n : Node) : Node :=
  {| sentinel := sentinel n; height := height n; key := key n; val := val n;
     next := next n; prev := prev n; up := x; down := down n; name := name n |}.
Definition set_down (x : ptr) (n : Node) : Node :=
  {| sentinel := sentinel n; height := height n; key := key n; val := val n;
     next := next n; prev := prev n; up := up n; down := x; name := name n |}.
Definition set_name (x : string) (n : Node) : Node :=
  {| sentinel := sentinel n; height := height n; key := key n; val := val n;
     next := next n; prev := prev n; up := up n; down := down n; name := x |}.

(** ** The container *)

Record SkipList : Type := mkSkipList {
  heap : list Node;
  top_l : addr;
  top_tail : addr;
  bottom_l : addr;
  bottom_tail : addr;
  sl_size : Z;
  sl_layers : Z;
}.

Definition set_heap (h : list Node) (s : SkipList) : SkipList :=
  {| heap := h; top_l := top_l s; top_tail := top_tail s;
     bottom_l := bottom_l s; bottom_tail := bottom_tail s;
     sl_size := sl_size s; sl_layers := sl_layers s |}.

(** [p->...]: the node a pointer designates. *)
Definition deref (s : SkipList) (p : ptr) : outcome Node :=
  match p with
  | None => Undefined NullDereference
  | Some a =>
      match heap s !! a with
      | Some n => Ok n
      | None => Undefined DanglingPointer
      end
  end.

(** Reading a member that may not have been initialised. *)
Definition initialised {A : Type} (x : option A) : outcome A :=
  match x with
  | Some a => Ok a
  | None => Undefined UninitialisedRead
  end.

(** [p->f], for a pointer member [f]. *)
Definition rd {A : Type} (s : SkipList) (p : ptr) (f : Node → A) : outcome A :=
  n ← deref s p; Ok (f n).

(** [p->f], for a member [f] a constructor may have left unset. *)
Definition rdi {A : Type} (s : SkipList) (p : ptr) (f : Node → option A) : outcome A :=
  n ← deref s p; initialised (f n).

(** [p->f = x], as the update [upd] of the designated node. *)
Definition store (s : SkipList) (p : ptr) (upd : Node → Node) : outcome SkipList :=
  match p with
  | None => Undefined NullDereference
  | Some a =>
      match heap s !! a with
      | Some n => Ok (set_heap (<[a := upd n]> (heap s)) s)
      | None => Undefined DanglingPointer
      end
  end.

(** [new Node(...)] *)
Definition new (s : SkipList) (n : Node) : addr * SkipList :=
  (length (heap s), set_heap (heap s ++ [n]) s).

(** The constructor: the four default member initialisers, in declaration
    order, then the body of [SkipList::SkipList]. *)
Definition SkipList_new : SkipList :=
  let top_l := 0%nat in
  let top_tail := 1%nat in
  let bottom_l := 2%nat in
  let bottom_tail := 3%nat in
  let h := [Node_sentinel; Node_sentinel; Node_sentinel; Node_sentinel] in
  let h := alter (set_down (Some bottom_l)) top_l h in
  let h := alter (set_next (Some top_tail)) top_l h in
  let h := alter (set_name "top_l") top_l h in
  let h := alter (set_prev (Some top_l)) top_tail h in
  let h := alter (set_down (Some bottom_tail)) top_tail h in
  let h := alter (set_next None) top_tail h in
  let h := alter (set_name "top_tail") top_tail h in
  let h := alter (set_prev (Some bottom_l)) bottom_tail h in
  let h := alter (set_up (Some top_tail)) bottom_tail h in
  let h := alter (set_next None) bottom_tail h in
  let h := alter (set_name "bottom_tail") bottom_tail h in
  let h := alter (set_next (Some bottom_tail)) bottom_l h in
  let h := alter (set_up (Some top_l)) bottom_l h in
  let h := alter (set_name "bottom_l") bottom_l h in
  {| heap := h; top_l := top_l; top_tail := top_tail;
     bottom_l := bottom_l; bottom_tail := bottom_tail;
     sl_size := 0; sl_layers := 2 |}.

Definition set_top (newTop newTail : addr) (s : SkipList) : SkipList :=
  {| heap := heap s; top_l := newTop; top_tail := newTail;
     bottom_l := bottom_l s; bottom_tail := bottom_tail s;
     sl_size := sl_size s; sl_layers := sl_layers s |}.
Definition set_sl_layers (x : Z) (s : SkipList) : SkipList :=
  {| heap := heap s; top_l := top_l s; top_tail := top_tail s;
     bottom_l := bottom_l s; bottom_tail := bottom_tail s;
     sl_size := sl_size s; sl_layers := x |}.
Definition set_sl_size (x : Z) (s : SkipList) : SkipList :=
  {| heap := heap s; top_l := top_l s; top_tail := top_tail s;
     bottom_l := bottom_l s; bottom_tail := bottom_tail s;
     sl_size := x; sl_layers := sl_layers s |}.

(** The fuel the public operations give to a walk over the nodes: no walk
    visits a node twice, so the number of allocated nodes bounds it. *)
Definition fuel (s : SkipList) : nat := length (heap s).

(** ** Search *)

(** [SkipList::bottomMost]: [while (temp->down != nullptr) temp = temp->down]. *)
Fixpoint bottomMost (gas : nat) (s : SkipList) (temp : ptr) : outcome ptr :=
  match gas with
  | O => OutOfFuel
  | S gas =>
      d ← rd s temp down;
      match d with
      | None => Ok temp
      | Some _ => bottomMost gas s d
      end
  end.

(** The statements of [SkipList::search] after its loop. *)
Definition search_exit (s : SkipList) (k : Z) (no_null : ptr) : outcome (bool * ptr) :=
  sen ← rd s no_null sentinel;
  if sen : bool then Ok (false, no_null)
  else
    nk ← rdi s no_null key;
    if nk <? k then Ok (false, no_null)
    else p ← rd s no_null prev; Ok (false, p).

(** The loop of [SkipList::search], from the values of [temp] and [no_null]
    at the head of an iteration. *)
Fixpoint search_loop (gas : nat) (s : SkipList) (k : Z) (temp no_null : ptr)
  : outcome (bool * ptr) :=
  match gas with
  | O => OutOfFuel
  | S gas =>
      if bool_decide (temp ≠ Some (bottom_tail s)) && bool_decide (temp ≠ None) then
        sen ← rd s temp sentinel;
        if sen : bool then
          tn ← rd s temp next;
          nsen ← rd s tn sentinel;
          if nsen : bool then
            d ← rd s temp down; search_loop gas s k d no_null
          else search_loop gas s k tn no_null
        else
          tk ← rdi s temp key;
          if tk =? k then
            n ← bottomMost (fuel s) s temp; Ok (true, n)
          else if tk >? k then
            p ← rd s temp prev;
            d ← rd s p down;
            search_loop gas s k d temp
          else
            tn ← rd s temp next;
            nsen ← rd s tn sentinel;
            if nsen : bool then
              if bool_decide (temp = Some (bottom_tail s)) then search_loop gas s k tn temp
              else d ← rd s temp down; search_loop gas s k d temp
            else search_loop gas s k tn temp
      else search_exit s k no_null
  end.

(** [SkipList::search]: the flag returned and the pointer left in [n]. *)
Definition search (k : Z) (s : SkipList) : outcome (bool * ptr) :=
  search_loop (fuel s) s k (Some (top_l s)) (Some (top_l s)).

(** ** Accessors and ordered queries *)

Definition size (s : SkipList) : Z := sl_size s.
Definition isEmpty (s : SkipList) : bool := sl_size s =? 0.
Definition numLayers (s : SkipList) : Z := sl_layers s.

(** [SkipList::height], under the name [heightOf] ([height] is the member of
    [Node]). *)
Definition heightOf (k : Z) (s : SkipList) : outcome Z :=
  '(found, n) ← search k s;
  if found : bool then rdi s n height
  else Throw (mkRuntimeException "No key.").

Definition nextKey (k : Z) (s : SkipList) : outcome Z :=
  '(found, n) ← search k s;
  if found : bool then
    nn ← rd s n next;
    nonnull ← (match nn with
               | None => Ok false
               | Some _ => sen ← rd s nn sentinel; Ok (negb sen)
               end);
    if nonnull : bool then rdi s nn key
    else Throw (mkRuntimeException "failed to get next key.")
  else Undefined MissingReturn.

Definition previousKey (k : Z) (s : SkipList) : outcome Z :=
  '(found, n) ← search k s;
  if found : bool then
    np ← rd s n prev;
    nonnull ← (match np with
               | None => Ok false
               | Some _ => sen ← rd s np sentinel; Ok (negb sen)
               end);
    if nonnull : bool then rdi s np key
    else Throw (mkRuntimeException "No previous key")
  else Throw (mkRuntimeException "No previous key").

(** Both overloads of [SkipList::find] run the same statements; the value
    the returned reference designates is what is modelled. *)
Definition find (k : Z) (s : SkipList) : outcome Z :=
  '(found, n) ← search k s;
  if found : bool then rdi s n val
  else Throw (mkRuntimeException "find failed.").

(** The loop of [SkipList::allKeysInOrder], [v] held in reverse. *)
Fixpoint allKeys_loop (gas : nat) (s : SkipList) (temp : ptr) (v : list Z)
  : outcome (list Z) :=
  match gas with
  | O => OutOfFuel
  | S gas =>
      if bool_decide (temp ≠ Some (bottom_tail s)) then
        tk ← rdi s temp key;
        tn ← rd s temp next;
        allKeys_loop gas s tn (tk :: v)
      else Ok (rev v)
  end.

Definition allKeysInOrder (s : SkipList) : outcome (list Z) :=
  temp ← rd s (Some (bottom_l s)) next;
  allKeys_loop (fuel s) s temp [].

(** The nodes [allKeysInOrder] reads the keys of, in the order of its walk:
    the bottom layer between its two sentinels. *)
Fixpoint bottomNodes_loop (gas : nat) (s : SkipList) (temp : ptr) (v : list addr)
  : outcome (list addr) :=
  match gas with
  | O => OutOfFuel
  | S gas =>
      if bool_decide (temp ≠ Some (bottom_tail s)) then
        match temp with
        | None => Undefined NullDereference
        | Some a =>
            tn ← rd s temp next;
            bottomNodes_loop gas s tn (a :: v)
        end
      else Ok (rev v)
  end.

Definition bottomNodes (s : SkipList) : outcome (list addr) :=
  temp ← rd s (Some (bottom_l s)) next;
  bottomNodes_loop (fuel s) s temp [].

(** The key a node holds, if it holds one. *)
Definition key_at (s : SkipList) (a : addr) : option Z :=
  n ← heap s !! a; key n.

Definition isSmallestKey (k : Z) (s : SkipList) : outcome bool :=
  f ← rd s (Some (bottom_l s)) next;
  fk ← rdi s f key;
  if k =? fk then Ok true else Ok false.

Definition isLargestKey (k : Z) (s : SkipList) : outcome bool :=
  l ← rd s (Some (bottom_tail s)) prev;
  lk ← rdi s l key;
  if k =? lk then Ok true else Ok false.

(** ** Insertion *)

(** The bound [max] of [SkipList::insert], from [sl_size] on entry. *)
Definition insert_max (sl_size : Z) : Z :=
  let max := 3 * Z.log2_up (wrap64 (sl_size + 1)) + 1 in
  if sl_size <? 16 then 13 else max.

(** The body of [if (currLayer + 1 >= sl_layers - 1)]: a new empty layer
    above the top one. *)
Definition grow (s : SkipList) : outcome SkipList :=
  let '(newTop, s) := new s Node_sentinel in
  let '(newTail, s) := new s Node_sentinel in
  s ← store s (Some newTop) (set_next (Some newTail));
  s ← store s (Some newTail) (set_prev (Some newTop));
  s ← store s (Some newTop) (set_down (Some (top_l s)));
  s ← store s (Some (top_l s)) (set_up (Some newTop));
  s ← store s (Some newTail) (set_down (Some (top_tail s)));
  s ← store s (Some (top_tail s)) (set_up (Some newTail));
  let s := set_top newTop newTail s in
  Ok (set_sl_layers (wrap32 (sl_layers s + 1)) s).

(** [while (position->up == nullptr) position = position->prev]. *)
Fixpoint walk_up (gas : nat) (s : SkipList) (position : ptr) : outcome ptr :=
  match gas with
  | O => OutOfFuel
  | S gas =>
      u ← rd s position up;
      match u with
      | None => p ← rd s position prev; walk_up gas s p
      | Some _ => Ok position
      end
  end.

(** The statements of a round that allocate [newUp] and link it after
    [position], above [temp]. *)
Definition link_above (s : SkipList) (k v : Z) (newNode : addr)
    (currLayer : Z) (position temp : ptr) : outcome (SkipList * Z * ptr) :=
  let '(newUp, s) := new s (Node_data k v) in
  let currLayer := wrap32 (currLayer + 1) in
  s ← store s (Some newUp) (set_height (wrap32 (currLayer + 1)));
  q ← rd s position next;
  s ← store s (Some newUp) (set_next q);
  q ← rd s position next;
  s ← store s q (set_prev (Some newUp));
  s ← store s (Some newUp) (set_prev position);
  s ← store s position (set_next (Some newUp));
  s ← store s (Some newUp) (set_down temp);
  s ← store s temp (set_up (Some newUp));
  let temp := Some newUp in
  h ← rdi s (Some newUp) height;
  s ← store s (Some newNode) (set_height h);
  Ok (s, currLayer, temp).

(** One round of the promotion loop, after its guard and the growth test. *)
Definition promote_once (s : SkipList) (k v : Z) (newNode : addr)
    (currLayer : Z) (position : ptr) : outcome (SkipList * Z * ptr * ptr) :=
  temp ← rd s position next;
  position ← walk_up (fuel s) s position;
  position ← rd s position up;
  '(s, currLayer, temp) ← link_above s k v newNode currLayer position temp;
  Ok (s, currLayer, position, temp).

(** The promotion loop of [SkipList::insert]. *)
Fixpoint promote (gas : nat) (s : SkipList) (k v max : Z) (newNode : addr)
    (currLayer : Z) (position temp : ptr) : outcome SkipList :=
  match gas with
  | O => OutOfFuel
  | S gas =>
      if flipCoin k currLayer && (sl_layers s <? max) then
        s ← (if wrap32 (currLayer + 1) >=? wrap32 (sl_layers s - 1) then grow s
             else Ok s);
        '(s, currLayer, position, temp) ← promote_once s k v newNode currLayer position;
        promote gas s k v max newNode currLayer position temp
      else Ok s
  end.

(** The statements of [SkipList::insert] that allocate [newNode] and link it
    after [position] in the bottom layer. *)
Definition link_bottom (s : SkipList) (k v : Z) (position : ptr)
  : outcome (addr * SkipList) :=
  let '(newNode, s) := new s (Node_data k v) in
  q ← rd s position next;
  s ← store s (Some newNode) (set_next q);
  s ← store s (Some newNode) (set_prev position);
  q ← rd s position next;
  s ← store s q (set_prev (Some newNode));
  s ← store s position (set_next (Some newNode));
  s ← store s (Some newNode) (set_height 1);
  Ok (newNode, s).

(** [SkipList::insert] from the allocation of [newNode] on, [position]
    being settled. *)
Definition insert_at (k v : Z) (position : ptr) (s : SkipList) : outcome (bool * SkipList) :=
  '(newNode, s) ← link_bottom s k v position;
  let currLayer := 0 in
  let temp := Some newNode in
  let max := insert_max (sl_size s) in
  s ← promote (Z.to_nat max) s k v max newNode currLayer position temp;
  Ok (true, set_sl_size (wrap64 (sl_size s + 1)) s).

(** [SkipList::insert]: the flag returned and the container afterwards. *)
Definition insert (k v : Z) (s : SkipList) : outcome (bool * SkipList) :=
  if sl_size s =? 0 then insert_at k v (Some (bottom_l s)) s
  else
    '(found, position) ← search k s;
    if found : bool then Ok (false, s)
    else insert_at k v position s.

(** A run of insertions [insert(k, k)], as the tests do. *)
Fixpoint insert_all (ks : list Z) (s : SkipList) : outcome SkipList :=
  match ks with
  | [] => Ok s
  | k :: ks => '(_, s) ← insert k k s; insert_all ks s
  end.

(** A run of insertions of keys with their values. *)
Fixpoint insert_list (kvs : list (Z * Z)) (s : SkipList) : outcome SkipList :=
  match kvs with
  | [] => Ok s
  | (k, v) :: kvs => '(_, s) ← insert k v s; insert_list kvs s
  end.

(** The heights the tests collect: [insert(i, i)] then [height(i)], key
    after key. *)
Fixpoint insert_heights (ks : list Z) (s : SkipList) : outcome (list Z * SkipList) :=
  match ks with
  | [] => Ok ([], s)
  | k :: ks =>
      '(_, s) ← insert k k s;
      h ← heightOf k s;
      '(hs, s) ← insert_heights ks s;
      Ok (h :: hs, s)
  end.

(** ** The destructor *)

(** [p->f] while the nodes [freed] are deleted: a deleted node is read
    through a dangling pointer. *)
Definition rd_live {A : Type} (s : SkipList) (freed : list addr) (p : ptr)
    (f : Node → A) : outcome A :=
  match p with
  | Some a => if bool_decide (a ∈ freed) then Undefined DanglingPointer else rd s p f
  | None => rd s p f
  end.

(** [delete p]: nothing for [nullptr]; a node is deleted once. *)
Definition delete (s : SkipList) (freed : list addr) (p : ptr) : outcome (list addr) :=
  match p with
  | None => Ok freed
  | Some a =>
      if bool_decide (a ∈ freed) then Undefined DanglingPointer
      else if bool_decide (a < length (heap s))%nat then Ok (a :: freed)
      else Undefined DanglingPointer
  end.

(** [while (!row->sentinel) { del = row; row = row->next; delete del; }] *)
Fixpoint delete_row (gas : nat) (s : SkipList) (freed : list addr) (row : ptr)
  : outcome (list addr) :=
  match gas with
  | O => OutOfFuel
  | S gas =>
      sen ← rd_live s freed row sentinel;
      if sen : bool then Ok freed
      else
        nx ← rd_live s freed row next;
        freed ← delete s freed row;
        delete_row gas s freed nx
  end.

(** The first loop of [SkipList::~SkipList], which deletes the nodes
    between the sentinels, layer after layer from the top. *)
Fixpoint delete_rows (gas : nat) (s : SkipList) (freed : list addr) (column : ptr)
  : outcome (list addr) :=
  match gas with
  | O => OutOfFuel
  | S gas =>
      match column with
      | None => Ok freed
      | Some _ =>
          cn ← rd_live s freed column next;
          sen ← rd_live s freed cn sentinel;
          if sen : bool then
            d ← rd_live s freed column down; delete_rows gas s freed d
          else
            row ← rd_live s freed column next;
            freed ← delete_row (fuel s) s freed row;
            d ← rd_live s freed column down;
            delete_rows gas s freed d
      end
  end.

(** The second loop, which deletes the two sentinels of each layer. *)
Fixpoint delete_sentinels (gas : nat) (s : SkipList) (freed : list addr)
    (col tail : ptr) : outcome (list addr) :=
  match gas with
  | O => OutOfFuel
  | S gas =>
      match col with
      | None => Ok freed
      | Some _ =>
          let del := col in
          let del2 := tail in
          col ← rd_live s freed col down;
          tail ← rd_live s freed tail down;
          freed ← delete s freed del;
          freed ← delete s freed del2;
          delete_sentinels gas s freed col tail
      end
  end.

(** [SkipList::~SkipList]: the addresses it deletes, the last one first. *)
Definition SkipList_destructor (s : SkipList) : outcome (list addr) :=
  freed ← delete_rows (fuel s) s [] (Some (top_l s));
  delete_sentinels (fuel s) s freed (Some (top_l s)) (Some (top_tail s)).

(** ** The states of a run *)

(** The values of the type [unsigned], of which the keys are. *)
Definition key_in_range (k : Z) : Prop := 0 ≤ k < 2 ^ 32.

(** The containers a client can obtain: the constructor's, and what [insert]
    makes of one for a key and a value of type [unsigned]. *)
Inductive reachable : SkipList → Prop :=
| reachable_new : reachable SkipList_new
| reachable_insert (s s' : SkipList) (k v : Z) (b : bool) :
    reachable s → key_in_range k → insert k v s = Ok (b, s') → reachable s'.

(** A container with the keys 1 and 3. *)
Definition sl_1_3 : SkipList :=
  Eval vm_compute in
    match insert_list [(1, 10); (3, 30)] SkipList_new with
    | Ok s => s
    | _ => SkipList_new
    end.

(** ** Observations the statements use *)

(** The value the first pair with the key [k] gives to [k]. *)
Fixpoint first_value (k : Z) (kvs : list (Z * Z)) : option Z :=
  match kvs with
  | [] => None
  | (k', v) :: kvs => if k' =? k then Some v else first_value k kvs
  end.

(** What [find] does with the value a key has, or with its absence. *)
Definition find_result (o : option Z) : outcome Z :=
  match o with
  | Some v => Ok v
  | None => Throw (mkRuntimeException "find failed.")
  end.

(** The number of nodes of a column from the node [p] upwards, by the [up]
    links. *)
Fixpoint column_height (gas : nat) (s : SkipList) (p : ptr) : outcome Z :=
  match gas with
  | O => OutOfFuel
  | S gas =>
      u ← rd s p up;
      match u with
      | None => Ok 1
      | Some _ => n ← column_height gas s u; Ok (n + 1)
      end
  end.

(** The container [insert(2, 20)] makes of the one with the keys 1 and 3. *)
Definition sl_1_2_3 : SkipList :=
  Eval vm_compute in
    match insert 2 20 sl_1_3 with
    | Ok (_, s) => s
    | _ => sl_1_3
    end.

(** * The invariant

    The layers of a container are described by a ghost grid: one [Row] for
    each layer, bottom first, listing the addresses of the layer from its
    head sentinel to its tail sentinel. *)

(** The node at an address (a sentinel outside the arena, where no
    statement below depends on it). *)
Definition node (h : list Node) (a : addr) : Node := default Node_sentinel (h !! a).

(** A layer, as the list of its addresses from the head sentinel to the tail
    sentinel. *)
Record Row : Type := mkRow {
  rhead : addr;
  rnodes : list addr;
  rtail : addr;
}.

(** All the addresses of a layer, sentinels included. *)
Definition rall (r : Row) : list addr := rhead r :: rnodes r ++ [rtail r].

(** [l] is linked after [a] by [next] and back by [prev]. *)
Fixpoint chain (h : list Node) (a : addr) (l : list addr) : Prop :=
  match l with
  | [] => True
  | b :: l => next (node h a) = Some b ∧ prev (node h b) = Some a ∧ chain h b l
  end.

(** The key of a node, where it has one. *)
Definition nkey (h : list Node) (a : addr) : Z := default 0 (key (node h a)).

(** A node made by [Node(k, v)]. *)
Definition is_data (h : list Node) (a : addr) : Prop :=
  sentinel (node h a) = false ∧ key (node h a) = Some (nkey h a).

(** A layer: doubly linked from sentinel to sentinel, the keys in between
    strictly increasing. *)
Record row_ok (h : list Node) (r : Row) : Prop := {
  row_chain : chain h (rhead r) (rnodes r ++ [rtail r]);
  row_head : sentinel (node h (rhead r)) = true;
  row_tail : sentinel (node h (rtail r)) = true;
  row_data : Forall (is_data h) (rnodes r);
  row_sorted : StronglySorted Z.lt (nkey h <$> rnodes r);
}.

(** Two adjacent layers, [lo] under [hi]. *)
Record vert_ok (h : list Node) (lo hi : Row) : Prop := {
  v_head_up : up (node h (rhead lo)) = Some (rhead hi);
  v_head_down : down (node h (rhead hi)) = Some (rhead lo);
  v_down : ∀ a, a ∈ rnodes hi →
      ∃ b, down (node h a) = Some b ∧ b ∈ rnodes lo ∧
           nkey h b = nkey h a ∧ up (node h b) = Some a;
  v_up : ∀ b a, b ∈ rnodes lo → up (node h b) = Some a →
      a ∈ rnodes hi ∧ nkey h a = nkey h b;
}.

(** The layers of a container, bottom first. *)
Record grid_ok (s : SkipList) (g : list Row) : Prop := {
  g_perm : concat (rall <$> g) ≡ₚ seq 0 (length (heap s));
  g_rows : Forall (row_ok (heap s)) g;
  g_vert : ∀ i lo hi, g !! i = Some lo → g !! S i = Some hi → vert_ok (heap s) lo hi;
  g_bottom : ∃ r0, g !! 0%nat = Some r0 ∧
      rhead r0 = bottom_l s ∧ rtail r0 = bottom_tail s ∧
      down (node (heap s) (rhead r0)) = None ∧
      Forall (λ a, down (node (heap s) a) = None) (rnodes r0);
  g_top : ∃ rt, last g = Some rt ∧
      rhead rt = top_l s ∧ rtail rt = top_tail s ∧ rnodes rt = [];
  g_layers : sl_layers s = Z.of_nat (length g);
  g_two : (2 ≤ length g)%nat;
}.

(** The number of positions a walk can take in a list of layers: the head
    and every data node of each. *)
Fixpoint rows_weight (rs : list Row) : nat :=
  match rs with
  | [] => 0
  | r :: rs => S (length (rnodes r)) + rows_weight rs
  end.

(** What [search k] returns in a container whose bottom layer is [r0]: the
    node with the key [k], or the last node with a key below [k] (the head
    of the bottom layer when there is none); the head of the top layer when
    the bottom layer has no key at all. *)
Definition search_post (s : SkipList) (k : Z) (r0 : Row) (res : bool * ptr) : Prop :=
  match res with
  | (true, n) => ∃ b, n = Some b ∧ b ∈ rnodes r0 ∧ nkey (heap s) b = k
  | (false, n) =>
      (rnodes r0 = [] ∧ n = Some (top_l s)) ∨
      (∃ l1 l2, rnodes r0 = l1 ++ l2 ∧ rnodes r0 ≠ [] ∧
                n = Some (List.last l1 (rhead r0)) ∧
                Forall (λ b, nkey (heap s) b < k) l1 ∧
                Forall (λ b, k < nkey (heap s) b) l2)
  end.

(** Where the loop of [search] stands: on the head of a layer, or on a data
    node all of whose predecessors in the layer have keys below [k]; [m]
    counts the nodes of the layer after it. *)
Inductive pos (s : SkipList) (k : Z) (r : Row) (a : addr) (m : nat) : Prop :=
| pos_head : a = rhead r → m = length (rnodes r) → pos s k r a m
| pos_data l1 l2 :
    rnodes r = l1 ++ a :: l2 → Forall (λ b, nkey (heap s) b < k) l1 →
    m = length l2 → pos s k r a m.

(** [x] returns normally, with a result that satisfies [P]. *)
Definition returns {A : Type} (x : outcome A) (P : A → Prop) : Prop :=
  ∃ r, x = Ok r ∧ P r.

(** The arena [h'] is [h] with a data node [x] allocated and linked between
    [p] and [q], above the node [c] if there is one. *)
Record spliced (h h' : list Node) (x p q : addr) (k v : Z) (c : ptr) : Prop := {
  sp_len : length h' = S (length h);
  sp_next : ∀ b, (b < length h)%nat →
      next (node h' b) = if decide (b = p) then Some x else next (node h b);
  sp_prev : ∀ b, (b < length h)%nat →
      prev (node h' b) = if decide (b = q) then Some x else prev (node h b);
  sp_up : ∀ b, (b < length h)%nat →
      up (node h' b) = if decide (c = Some b) then Some x else up (node h b);
  sp_down : ∀ b, (b < length h)%nat → down (node h' b) = down (node h b);
  sp_key : ∀ b, (b < length h)%nat → key (node h' b) = key (node h b);
  sp_val : ∀ b, (b < length h)%nat → val (node h' b) = val (node h b);
  sp_sentinel : ∀ b, (b < length h)%nat → sentinel (node h' b) = sentinel (node h b);
  sp_new_sentinel : sentinel (node h' x) = false;
  sp_new_key : key (node h' x) = Some k;
  sp_new_val : val (node h' x) = Some v;
  sp_new_next : next (node h' x) = Some q;
  sp_new_prev : prev (node h' x) = Some p;
  sp_new_up : up (node h' x) = None;
  sp_new_down : down (node h' x) = c;
}.

(** The layer [r] with the node allocated next in [s] between [l1] and
    [l2]. *)
Definition spliced_row (s : SkipList) (r : Row) (l1 l2 : list addr) : Row :=
  mkRow (rhead r) (l1 ++ length (heap s) :: l2) (rtail r).

(** The arena [h'] is [h] with a new pair of sentinels allocated above the
    sentinels [tl] and [tt]. *)
Record grown (h h' : list Node) (tl tt : addr) : Prop := {
  gr_len : length h' = S (S (length h));
  gr_next : ∀ b, (b < length h)%nat → next (node h' b) = next (node h b);
  gr_prev : ∀ b, (b < length h)%nat → prev (node h' b) = prev (node h b);
  gr_down : ∀ b, (b < length h)%nat → down (node h' b) = down (node h b);
  gr_key : ∀ b, (b < length h)%nat → key (node h' b) = key (node h b);
  gr_val : ∀ b, (b < length h)%nat → val (node h' b) = val (node h b);
  gr_height : ∀ b, (b < length h)%nat → height (node h' b) = height (node h b);
  gr_sentinel : ∀ b, (b < length h)%nat → sentinel (node h' b) = sentinel (node h b);
  gr_up : ∀ b, (b < length h)%nat →
      up (node h' b) = if decide (b = tl) then Some (length h)
                       else if decide (b = tt) then Some (S (length h))
                       else up (node h b);
  gr_head_sentinel : sentinel (node h' (length h)) = true;
  gr_head_next : next (node h' (length h)) = Some (S (length h));
  gr_head_down : down (node h' (length h)) = Some tl;
  gr_tail_sentinel : sentinel (node h' (S (length h))) = true;
  gr_tail_prev : prev (node h' (S (length h))) = Some (length h);
}.

(** The layer of the two sentinels allocated next in [s]. *)
Definition grown_row (s : SkipList) : Row :=
  mkRow (length (heap s)) [] (S (length (heap s))).

(** What every step of an insertion keeps of the nodes allocated before
    it. *)
Record preserved (s s' : SkipList) : Prop := {
  pr_len : (length (heap s) ≤ length (heap s'))%nat;
  pr_key : ∀ b, (b < length (heap s))%nat →
      key (node (heap s') b) = key (node (heap s) b);
  pr_val : ∀ b, (b < length (heap s))%nat →
      val (node (heap s') b) = val (node (heap s) b);
  pr_sentinel : ∀ b, (b < length (heap s))%nat →
      sentinel (node (heap s') b) = sentinel (node (heap s) b);
  pr_bottom_l : bottom_l s' = bottom_l s;
  pr_bottom_tail : bottom_tail s' = bottom_tail s;
  pr_size : sl_size s' = sl_size s;
}.

(** What the promotion loop for the key [k] in the node [newNode] of the
    bottom layer [r0] establishes, from the container [s] it starts from. *)
Definition promote_post (k max : Z) (newNode : addr) (r0 : Row)
    (s s' : SkipList) : Prop :=
  (∃ g', grid_ok s' g' ∧ g' !! 0%nat = Some r0) ∧
  preserved s s' ∧
  sl_layers s ≤ sl_layers s' ≤ Z.max (sl_layers s) max ∧
  (max ≤ sl_layers s → s' = s) ∧
  ((∀ j, 0 ≤ j → flipCoin k j = true) → sl_layers s < max →
     sl_layers s' = max ∧ height (node (heap s') newNode) = Some (max - 1)).

(** The grid of a container, with what [sl_size] and [sl_layers] hold. *)
Record wf (s : SkipList) (g : list Row) (r0 : Row) : Prop := {
  wf_grid : grid_ok s g;
  wf_bottom : g !! 0%nat = Some r0;
  wf_size : sl_size s = Z.of_nat (length (rnodes r0));
  wf_range : Forall (λ a, key_in_range (nkey (heap s) a)) (rnodes r0);
  wf_layers : sl_layers s ≤ insert_max (sl_size s);
}.

(** The grid of the container the constructor makes. *)
Definition new_grid : list Row := [mkRow 2 [] 3; mkRow 0 [] 1].

(** The containers the theorems are about: those with a well-formed grid. *)
Definition Inv (s : SkipList) : Prop := ∃ g r0, wf s g r0.

(** What a successful insertion of [k] between the nodes [l1] and [l2] of
    the bottom layer [r0] leaves. *)
Definition inserted (s : SkipList) (r0 : Row) (k v : Z) (l1 l2 : list addr)
    (res : bool * SkipList) : Prop :=
  let '(b, s') := res in
  b = true ∧
  ∃ g', wf s' g' (mkRow (rhead r0) (l1 ++ length (heap s) :: l2) (rtail r0)) ∧
    (∀ b, (b < length (heap s))%nat → nkey (heap s') b = nkey (heap s) b) ∧
    nkey (heap s') (length (heap s)) = k ∧
    val (node (heap s') (length (heap s))) = Some v ∧
    sl_size s' = sl_size s + 1 ∧
    sl_layers s ≤ sl_layers s' ≤ insert_max (sl_size s) ∧
    ((∀ j, 0 ≤ j → flipCoin k j = true) → sl_layers s < insert_max (sl_size s) →
       sl_layers s' = insert_max (sl_size s) ∧
       height (node (heap s') (length (heap s))) = Some (insert_max (sl_size s) - 1)).

(** ** The frame of an insertion, the tail sentinels and the heights *)

(** What [insert] leaves alone in every node it did not allocate: all but
    the three links [next], [prev] and [up], and the [height]. *)
Definition payload (n : Node) : bool * option Z * option Z * option nat * string :=
  (sentinel n, key n, val n, down n, name n).

(** From [s0] to [s] the nodes below address [n] have kept their payload,
    and their [height] too but for the node [x]; no node has gone. *)
Record keeps (n x : nat) (s0 s : SkipList) : Prop := {
  kp_bound : (n ≤ length (heap s0))%nat;
  kp_len : (length (heap s0) ≤ length (heap s))%nat;
  kp_old : ∀ b, (b < n)%nat → payload (node (heap s) b) = payload (node (heap s0) b);
  kp_height : ∀ b, (b < n)%nat → b ≠ x →
      height (node (heap s) b) = height (node (heap s0) b);
}.

(** [x], if it returns, returns a result that satisfies [P]. *)
Definition ensures {A : Type} (x : outcome A) (P : A → Prop) : Prop :=
  ∀ r, x = Ok r → P r.

(** The tail sentinels are linked downwards, layer by layer. *)
Record tails_ok (h : list Node) (g : list Row) : Prop := {
  t_bottom : ∀ r0, g !! 0%nat = Some r0 → down (node h (rtail r0)) = None;
  t_down : ∀ i lo hi, g !! i = Some lo → g !! S i = Some hi →
      down (node h (rtail hi)) = Some (rtail lo);
}.

(** The keys of a layer. *)
Definition row_keys (h : list Node) (r : Row) : list Z := nkey h <$> rnodes r.

(** The [height] of the node [b] counts the layers that hold its key, which
    are the lowest ones. *)
Definition column_ok (h : list Node) (g : list Row) (b : addr) : Prop :=
  ∃ n : nat, height (node h b) = Some (Z.of_nat n) ∧
    ∀ j r, g !! j = Some r → nkey h b ∈ row_keys h r ↔ (j < n)%nat.

(** Every node of the bottom layer has its column counted by its height. *)
Definition heights_ok (h : list Node) (g : list Row) : Prop :=
  ∀ r0 b, g !! 0%nat = Some r0 → b ∈ rnodes r0 → column_ok h g b.

(** What the promotion loop entered at layer [i] establishes beyond
    [promote_post]: [t] rounds, as many as the coin shows heads in a row
    from flip [i] on while the number of layers is below [max]. *)
Definition promote_full_post (k max : Z) (newNode : addr) (r0 : Row) (i : nat)
    (s s' : SkipList) : Prop :=
  ∃ (g' : list Row) (t : nat),
    grid_ok s' g' ∧ g' !! 0%nat = Some r0 ∧
    tails_ok (heap s') g' ∧ heights_ok (heap s') g' ∧
    sl_layers s' = Z.max (sl_layers s) (Z.of_nat (i + t) + 2) ∧
    height (node (heap s') newNode) = Some (Z.of_nat (i + t) + 1) ∧
    (∀ c, Z.of_nat i ≤ c < Z.of_nat (i + t) → flipCoin k c = true) ∧
    (flipCoin k (Z.of_nat (i + t)) = false ∨ max ≤ sl_layers s').

(** What a successful insertion of [k] leaves beyond [inserted]: the number
    [t] of promotions, which the coin and the bound on the layers decide. *)
Definition inserted_full (s : SkipList) (r0 : Row) (k : Z) (l1 l2 : list addr)
    (res : bool * SkipList) : Prop :=
  let '(_, s') := res in
  ∃ (g' : list Row) (t : nat),
    grid_ok s' g' ∧
    g' !! 0%nat = Some (mkRow (rhead r0) (l1 ++ length (heap s) :: l2) (rtail r0)) ∧
    tails_ok (heap s') g' ∧ heights_ok (heap s') g' ∧
    sl_layers s' = Z.max (sl_layers s) (Z.of_nat t + 2) ∧
    height (node (heap s') (length (heap s))) = Some (Z.of_nat t + 1) ∧
    (∀ c, 0 ≤ c < Z.of_nat t → flipCoin k c = true) ∧
    (flipCoin k (Z.of_nat t) = false ∨ insert_max (sl_size s) ≤ sl_layers s').

(** The containers with a well-formed grid whose tail sentinels and heights
    are in order too. *)
Definition Inv_full (s : SkipList) : Prop :=
  ∃ g r0, wf s g r0 ∧ tails_ok (heap s) g ∧ heights_ok (heap s) g.

(** The two sentinels of a layer. *)
Definition row_ends (r : Row) : list addr := [rhead r; rtail r].

(** * Verification *)

(** ** The arena *)

Lemma lookup_node (h : list Node) (a : addr) :
  (a < length h)%nat → h !! a = Some (node h a).
Proof.
  intros Ha. unfold node. destruct (lookup_lt_is_Some_2 h a Ha) as [n Hn]. by rewrite Hn.
Qed.

Lemma node_insert (h : list Node) (a b : addr) (n : Node) :
  (a < length h)%nat →
  node (<[a := n]> h) b = if decide (b = a) then n else node h b.
Proof.
  intros Ha. unfold node. case_decide as E.
  - subst. by rewrite list_lookup_insert_eq.
  - by rewrite list_lookup_insert_ne.
Qed.

Lemma node_app_old (h : list Node) (n : Node) (b : addr) :
  (b < length h)%nat → node (h ++ [n]) b = node h b.
Proof. intros Hb. unfold node. by rewrite lookup_app_l. Qed.

Lemma node_app_new (h : list Node) (n : Node) : node (h ++ [n]) (length h) = n.
Proof. unfold node. by rewrite list_lookup_middle. Qed.

Lemma rd_ok {A : Type} (s : SkipList) (a : addr) (f : Node → A) :
  (a < length (heap s))%nat → rd s (Some a) f = Ok (f (node (heap s) a)).
Proof. intros Ha. unfold rd, deref. by rewrite (lookup_node _ _ Ha). Qed.

Lemma rdi_ok {A : Type} (s : SkipList) (a : addr) (f : Node → option A) (x : A) :
  (a < length (heap s))%nat → f (node (heap s) a) = Some x →
  rdi s (Some a) f = Ok x.
Proof. intros Ha Hx. unfold rdi, deref. rewrite (lookup_node _ _ Ha). simpl. by rewrite Hx. Qed.

Lemma store_ok (s : SkipList) (a : addr) (u : Node → Node) :
  (a < length (heap s))%nat →
  store s (Some a) u = Ok (set_heap (<[a := u (node (heap s) a)]> (heap s)) s).
Proof. intros Ha. unfold store. by rewrite (lookup_node _ _ Ha). Qed.

(** ** Facts about chains *)

Lemma last_cons_default {A : Type} (b a : A) (l : list A) :
  List.last (b :: l) a = List.last l b.
Proof.
  revert a b. induction l as [|c l IH]; intros a b; [done|].
  change (List.last (b :: c :: l) a) with (List.last (c :: l) a).
  by rewrite (IH a c), (IH b c).
Qed.

Lemma last_snoc_default {A : Type} (a x : A) (l : list A) :
  List.last (l ++ [x]) a = x.
Proof. apply List.last_last. Qed.

Lemma chain_app (h : list Node) (a : addr) (l1 l2 : list addr) :
  chain h a (l1 ++ l2) ↔ chain h a l1 ∧ chain h (List.last l1 a) l2.
Proof.
  revert a. induction l1 as [|b l1 IH]; intros a.
  - simpl. tauto.
  - rewrite last_cons_default. simpl. rewrite IH. tauto.
Qed.

Lemma chain_frame (h h' : list Node) (a : addr) (l : list addr) :
  (∀ b, b ∈ a :: l → next (node h' b) = next (node h b) ∧
                      prev (node h' b) = prev (node h b)) →
  chain h a l → chain h' a l.
Proof.
  revert a. induction l as [|b l IH]; intros a Hf; simpl; [done|].
  intros (Hn & Hp & Hc). split_and!.
  - destruct (Hf a) as [-> _]; [by left|done].
  - destruct (Hf b) as [_ ->]; [by right; left|done].
  - apply IH; [|done]. intros c Hc'. apply Hf. by right.
Qed.

(** ** Distinctness and validity of the addresses of a grid *)

Lemma NoDup_concat_row {A : Type} (ls : list (list A)) (i : nat) (l : list A) :
  NoDup (concat ls) → ls !! i = Some l → NoDup l.
Proof.
  revert i. induction ls as [|l0 ls IH]; intros i Hnd Hi; [done|].
  simpl in Hnd. apply NoDup_app in Hnd as (H0 & _ & Hrest).
  destruct i as [|i]; simpl in Hi.
  - by simplify_eq.
  - by eapply IH.
Qed.

Lemma NoDup_concat_disjoint {A : Type} (ls : list (list A)) (i j : nat)
    (l l' : list A) (x : A) :
  NoDup (concat ls) → ls !! i = Some l → ls !! j = Some l' →
  x ∈ l → x ∈ l' → i = j.
Proof.
  revert i j. induction ls as [|l0 ls IH]; intros i j Hnd Hi Hj Hx Hx'; [done|].
  simpl in Hnd. apply NoDup_app in Hnd as (H0 & Hdis & Hrest).
  destruct i as [|i], j as [|j]; simpl in Hi, Hj; simplify_eq; try done.
  - exfalso. apply (Hdis x Hx). apply list_elem_of_In, in_concat.
    exists l'. split; apply list_elem_of_In; [by eapply list_elem_of_lookup_2|done].
  - exfalso. apply (Hdis x Hx'). apply list_elem_of_In, in_concat.
    exists l. split; apply list_elem_of_In; [by eapply list_elem_of_lookup_2|done].
  - f_equal. by eapply IH.
Qed.

Section grid_facts.
Context (s : SkipList) (g : list Row) (Hg : grid_ok s g).

Lemma grid_NoDup : NoDup (concat (rall <$> g)).
Proof. rewrite (g_perm _ _ Hg). apply NoDup_seq. Qed.

Lemma grid_valid (i : nat) (r : Row) (a : addr) :
  g !! i = Some r → a ∈ rall r → (a < length (heap s))%nat.
Proof.
  intros Hi Ha.
  assert (a ∈ concat (rall <$> g)) as Hin.
  { apply list_elem_of_In, in_concat. exists (rall r).
    split; apply list_elem_of_In; [|done].
    apply list_elem_of_lookup. exists i. by rewrite list_lookup_fmap, Hi. }
  rewrite (g_perm _ _ Hg) in Hin. apply elem_of_seq in Hin. lia.
Qed.

Lemma grid_row_NoDup (i : nat) (r : Row) : g !! i = Some r → NoDup (rall r).
Proof.
  intros Hi. eapply (NoDup_concat_row _ i); [apply grid_NoDup|].
  by rewrite list_lookup_fmap, Hi.
Qed.

Lemma grid_rows_disjoint (i j : nat) (r r' : Row) (a : addr) :
  g !! i = Some r → g !! j = Some r' → a ∈ rall r → a ∈ rall r' → i = j.
Proof.
  intros Hi Hj Ha Ha'.
  eapply (NoDup_concat_disjoint _ i j (rall r) (rall r')); eauto using grid_NoDup.
  - by rewrite list_lookup_fmap, Hi.
  - by rewrite list_lookup_fmap, Hj.
Qed.

Lemma grid_row_ok (i : nat) (r : Row) : g !! i = Some r → row_ok (heap s) r.
Proof.
  intros Hi. eapply Forall_lookup_1; [apply (g_rows _ _ Hg)|done].
Qed.
End grid_facts.

(** ** Positions in a layer *)

Lemma sorted_split (f : addr → Z) (l1 l2 : list addr) (b : addr) :
  StronglySorted Z.lt (f <$> (l1 ++ b :: l2)) →
  Forall (λ x, f x < f b) l1 ∧ Forall (λ x, f b < f x) l2.
Proof.
  induction l1 as [|c l1 IH]; intros Hs.
  - rewrite app_nil_l, fmap_cons in Hs.
    apply StronglySorted_inv in Hs as [_ Hall]. split; [constructor|].
    apply Forall_forall. intros x Hx. rewrite Forall_forall in Hall.
    apply Hall. by apply list_elem_of_fmap_2.
  - rewrite <- app_comm_cons, fmap_cons in Hs.
    apply StronglySorted_inv in Hs as [Hs Hall].
    destruct (IH Hs) as [H1 H2]. split; [|done]. constructor; [|done].
    rewrite Forall_forall in Hall. apply Hall.
    apply list_elem_of_fmap_2, elem_of_app. right. by left.
Qed.

Lemma sorted_key_inj (f : addr → Z) (l : list addr) (a b : addr) :
  StronglySorted Z.lt (f <$> l) → a ∈ l → b ∈ l → f a = f b → a = b.
Proof.
  induction l as [|c l IH]; intros Hs Ha Hb E; [by apply elem_of_nil in Ha|].
  rewrite fmap_cons in Hs. apply StronglySorted_inv in Hs as [Hs Hall].
  rewrite Forall_forall in Hall.
  apply elem_of_cons in Ha as [->|Ha], Hb as [->|Hb]; try done.
  - pose proof (Hall _ (list_elem_of_fmap_2 f _ _ Hb)). lia.
  - pose proof (Hall _ (list_elem_of_fmap_2 f _ _ Ha)). lia.
  - by apply IH.
Qed.

Section row_facts.
Context (h : list Node) (r : Row) (Hr : row_ok h r).

Lemma row_head_next : next (node h (rhead r)) = Some (List.hd (rtail r) (rnodes r)).
Proof.
  pose proof (row_chain _ _ Hr) as Hc.
  destruct (rnodes r); simpl in *; tauto.
Qed.

Lemma row_tail_prev : prev (node h (rtail r)) = Some (List.last (rnodes r) (rhead r)).
Proof.
  pose proof (row_chain _ _ Hr) as Hc.
  apply chain_app in Hc as [_ Hc]. simpl in Hc. tauto.
Qed.

Lemma row_at (l1 l2 : list addr) (a : addr) :
  rnodes r = l1 ++ a :: l2 →
  sentinel (node h a) = false ∧ key (node h a) = Some (nkey h a) ∧
  prev (node h a) = Some (List.last l1 (rhead r)) ∧
  next (node h a) = Some (List.hd (rtail r) l2) ∧
  next (node h (List.last l1 (rhead r))) = Some a.
Proof.
  intros E. pose proof (row_chain _ _ Hr) as Hc. pose proof (row_data _ _ Hr) as Hd.
  rewrite E in Hc, Hd. rewrite <- app_assoc in Hc. simpl in Hc.
  apply chain_app in Hc as [_ (Hn & Hp & Hc)].
  apply Forall_app in Hd as [_ Hd]. apply Forall_cons in Hd as [[Hs Hk] _].
  split_and!; try done. destruct l2; simpl in *; tauto.
Qed.

Lemma row_split_sorted (l1 l2 : list addr) (a : addr) :
  rnodes r = l1 ++ a :: l2 →
  Forall (λ x, nkey h x < nkey h a) l1 ∧ Forall (λ x, nkey h a < nkey h x) l2.
Proof.
  intros E. apply sorted_split. rewrite <- E. apply (row_sorted _ _ Hr).
Qed.
End row_facts.

Lemma rows_weight_app (rs1 rs2 : list Row) :
  rows_weight (rs1 ++ rs2) = (rows_weight rs1 + rows_weight rs2)%nat.
Proof. induction rs1; simpl; lia. Qed.

Lemma rows_weight_take_S (g : list Row) (i : nat) (r : Row) :
  g !! i = Some r →
  rows_weight (take (S i) g) = (rows_weight (take i g) + S (length (rnodes r)))%nat.
Proof.
  intros Hi. rewrite (take_S_r _ _ _ Hi), rows_weight_app. simpl. lia.
Qed.

Lemma rows_weight_take_le (g : list Row) (i : nat) :
  (rows_weight (take i g) ≤ rows_weight g)%nat.
Proof.
  rewrite <- (take_drop i g) at 2. rewrite rows_weight_app. lia.
Qed.

Lemma rows_weight_length (g : list Row) :
  length (concat (rall <$> g)) = (rows_weight g + length g)%nat.
Proof.
  induction g as [|r g IH]; [done|].
  rewrite fmap_cons. cbn [concat rows_weight length]. rewrite length_app, IH.
  unfold rall. cbn [length]. rewrite length_app. cbn [length]. lia.
Qed.

Lemma rnodes_rall (r : Row) (a : addr) : a ∈ rnodes r → a ∈ rall r.
Proof. intros Ha. unfold rall. right. apply elem_of_app. by left. Qed.

Lemma rhead_rall (r : Row) : rhead r ∈ rall r.
Proof. by left. Qed.

Lemma rtail_rall (r : Row) : rtail r ∈ rall r.
Proof. unfold rall. right. apply elem_of_app. right. by left. Qed.

Lemma bind_Ok {A B : Type} (x : A) (f : A → outcome B) : (Ok x ≫= f) = f x.
Proof. done. Qed.

(** ** Running the operations *)

Lemma returns_Ok {A : Type} (x : A) (P : A → Prop) : P x → returns (Ok x) P.
Proof. intros HP. by exists x. Qed.

Lemma returns_bind {A B : Type} (x : outcome A) (K : A → outcome B)
    (Q : A → Prop) (P : B → Prop) :
  returns x Q → (∀ r, Q r → returns (K r) P) → returns (x ≫= K) P.
Proof. intros (r & -> & HQ) HK. rewrite bind_Ok. by apply HK. Qed.

Lemma returns_rd {A B : Type} (s : SkipList) (a : addr) (f : Node → A)
    (K : A → outcome B) (P : B → Prop) :
  (a < length (heap s))%nat →
  returns (K (f (node (heap s) a))) P → returns (rd s (Some a) f ≫= K) P.
Proof. intros Ha HK. by rewrite rd_ok, bind_Ok. Qed.

Lemma returns_rdi {A B : Type} (s : SkipList) (a : addr) (f : Node → option A)
    (x : A) (K : A → outcome B) (P : B → Prop) :
  (a < length (heap s))%nat → f (node (heap s) a) = Some x →
  returns (K x) P → returns (rdi s (Some a) f ≫= K) P.
Proof. intros Ha Hx HK. by rewrite (rdi_ok _ _ _ x), bind_Ok. Qed.

Lemma returns_store {B : Type} (s : SkipList) (a : addr) (u : Node → Node)
    (K : SkipList → outcome B) (P : B → Prop) :
  (a < length (heap s))%nat →
  returns (K (set_heap (<[a := u (node (heap s) a)]> (heap s)) s)) P →
  returns (store s (Some a) u ≫= K) P.
Proof. intros Ha HK. by rewrite store_ok, bind_Ok. Qed.

Lemma returns_impl {A : Type} (x : outcome A) (P Q : A → Prop) :
  returns x P → (∀ r, P r → Q r) → returns x Q.
Proof. intros (r & -> & HP) HPQ. exists r. auto. Qed.

(** ** Search *)

Section search_proof.
Context (s : SkipList) (g : list Row) (Hg : grid_ok s g) (k : Z).
Context (r0 : Row) (H0 : g !! 0%nat = Some r0).

Local Abbreviation h := (heap s).

Local Ltac mem :=
  first [eassumption
        |match goal with E : rnodes ?r = _ |- _ ∈ rnodes ?r => rewrite E end;
         apply list_elem_of_In; rewrite ?in_app_iff; simpl; auto 6].

Local Ltac valid :=
  match goal with
  | H : g !! _ = Some ?r |- (?a < _)%nat =>
      apply (grid_valid _ _ Hg _ r a H);
      first [apply rhead_rall | apply rtail_rall | apply rnodes_rall; mem]
  end.

Local Ltac rd_step := rewrite rd_ok by valid; rewrite bind_Ok.

Lemma bottom_down_None (a : addr) : a ∈ rnodes r0 → down (node h a) = None.
Proof.
  intros Ha. destruct (g_bottom _ _ Hg) as (r0' & E & _ & _ & _ & Hall).
  rewrite H0 in E. injection E as <-. rewrite Forall_forall in Hall. by apply Hall.
Qed.

Lemma bottomMost_spec (gas i : nat) (r : Row) (a : addr) :
  g !! i = Some r → a ∈ rnodes r → (i < gas)%nat →
  ∃ b, b ∈ rnodes r0 ∧ nkey h b = nkey h a ∧
       bottomMost gas s (Some a) = Ok (Some b).
Proof.
  revert gas r a. induction i as [|i IH]; intros gas r a Hi Ha Hgas.
  - rewrite H0 in Hi. injection Hi as <-. exists a. split_and!; try done.
    destruct gas as [|gas]; [lia|]. simpl.
    rewrite rd_ok by valid.
    rewrite bind_Ok. by rewrite bottom_down_None.
  - destruct (lookup_lt_is_Some_2 g i) as [lo Hlo].
    { apply lookup_lt_Some in Hi. lia. }
    destruct (v_down _ _ _ (g_vert _ _ Hg _ _ _ Hlo Hi) a Ha) as (b & Hd & Hb & Hk & _).
    destruct gas as [|gas]; [lia|].
    destruct (IH gas lo b Hlo Hb) as (c & Hc & Hkc & Hrun); [lia|].
    exists c. split_and!; [done|congruence|].
    simpl. rewrite rd_ok by valid.
    rewrite bind_Ok, Hd. done.
Qed.

Lemma not_tail (i j : nat) (r r' : Row) (a : addr) :
  g !! i = Some r → g !! j = Some r' → a = rhead r ∨ a ∈ rnodes r → a ≠ rtail r'.
Proof.
  intros Hi Hj Ha ->.
  assert (rtail r' ∈ rall r) as Hin.
  { destruct Ha as [->|Ha]; [apply rhead_rall|by apply rnodes_rall]. }
  assert (i = j) as <- by (eapply (grid_rows_disjoint _ _ Hg); eauto using rtail_rall).
  rewrite Hi in Hj. injection Hj as <-.
  pose proof (grid_row_NoDup _ _ Hg _ _ Hi) as Hnd. unfold rall in Hnd.
  rewrite app_comm_cons in Hnd. apply NoDup_app in Hnd as (_ & Hdis & _).
  apply (Hdis (rtail r)); [|by left].
  destruct Ha as [->|Ha]; [by left|by right].
Qed.

Lemma bottom_tail_eq : bottom_tail s = rtail r0.
Proof.
  destruct (g_bottom _ _ Hg) as (r0' & E & _ & Ht & _). rewrite H0 in E.
  by injection E as <-.
Qed.

Lemma bottom_l_eq : bottom_l s = rhead r0.
Proof.
  destruct (g_bottom _ _ Hg) as (r0' & E & Hh & _). rewrite H0 in E.
  by injection E as <-.
Qed.

Lemma bottom_head_down : down (node h (rhead r0)) = None.
Proof.
  destruct (g_bottom _ _ Hg) as (r0' & E & _ & _ & Hd & _). rewrite H0 in E.
  by injection E as <-.
Qed.

Lemma fuel_eq : fuel s = (rows_weight g + length g)%nat.
Proof.
  unfold fuel. rewrite <- rows_weight_length, (g_perm _ _ Hg). by rewrite length_seq.
Qed.

(** Going down from a data node whose key is below [k]. *)
Lemma down_pos (i : nat) (lo hi : Row) (p : addr) :
  g !! i = Some lo → g !! S i = Some hi → p ∈ rnodes hi → nkey h p < k →
  ∃ b l1 l2, down (node h p) = Some b ∧ rnodes lo = l1 ++ b :: l2 ∧
             Forall (λ x, nkey h x < k) l1 ∧ nkey h b = nkey h p.
Proof.
  intros Hlo Hhi Hp Hk.
  destruct (v_down _ _ _ (g_vert _ _ Hg _ _ _ Hlo Hhi) p Hp) as (b & Hd & Hb & Hkb & _).
  destruct (list_elem_of_split _ _ Hb) as (l1 & l2 & E).
  exists b, l1, l2. split_and!; try done.
  destruct (row_split_sorted _ _ (grid_row_ok _ _ Hg _ _ Hlo) _ _ _ E) as [Hl _].
  eapply Forall_impl; [exact Hl|]. simpl. intros. lia.
Qed.

Lemma search_loop_None (gas : nat) (nn : ptr) :
  search_loop (S gas) s k None nn = search_exit s k nn.
Proof. done. Qed.

Lemma top_head_sentinel : sentinel (node h (top_l s)) = true.
Proof.
  destruct (g_top _ _ Hg) as (rt & Hl & <- & _).
  apply last_Some in Hl as [g' ->].
  eapply row_head, (Forall_lookup_1 _ _ (length g')); [apply (g_rows _ _ Hg)|].
  by rewrite list_lookup_middle.
Qed.

Lemma top_valid : (top_l s < length h)%nat.
Proof.
  destruct (g_top _ _ Hg) as (rt & Hl & <- & _).
  apply last_Some in Hl as [g' E].
  eapply (grid_valid _ _ Hg (length g')); [|apply rhead_rall].
  rewrite E. by rewrite list_lookup_middle.
Qed.

Local Ltac wp_rd := eapply returns_rd; [valid|cbv beta].

Lemma search_loop_spec (gas : nat) :
  ∀ (i : nat) (r : Row) (a : addr) (m : nat) (nn : ptr),
  g !! i = Some r → pos s k r a m →
  (rows_weight (take i g) + m + 2 ≤ gas)%nat →
  (rnodes r0 = [] → nn = Some (top_l s)) →
  returns (search_loop gas s k (Some a) nn) (search_post s k r0).
Proof.
  induction gas as [|gas IH]; intros i r a m nn Hi Hpos Hgas Hnn; [lia|].
  pose proof (grid_row_ok _ _ Hg _ _ Hi) as Hr.
  assert (a ≠ bottom_tail s) as Hnt.
  { rewrite bottom_tail_eq. eapply not_tail; [exact Hi|exact H0|].
    destruct Hpos as [-> _|l1 l2 E _ _]; [by left|right; mem]. }
  cbn [search_loop].
  rewrite bool_decide_true by congruence. rewrite bool_decide_true by done.
  cbn [andb].
  destruct Hpos as [-> ->|l1 l2 E Hl1 ->].
  - (* on the head of the layer *)
    wp_rd. rewrite (row_head _ _ Hr). wp_rd. rewrite (row_head_next _ _ Hr).
    destruct (rnodes r) as [|b l2] eqn:E; cbn [List.hd].
    + wp_rd. rewrite (row_tail _ _ Hr). wp_rd.
      destruct i as [|i].
      * rewrite H0 in Hi. injection Hi as <-. rewrite bottom_head_down.
        destruct gas as [|gas]; [simpl in Hgas; lia|].
        rewrite search_loop_None. rewrite (Hnn E). unfold search_exit.
        eapply returns_rd; [apply top_valid|cbv beta]. rewrite top_head_sentinel.
        apply returns_Ok. by left.
      * destruct (lookup_lt_is_Some_2 g i) as [lo Hlo].
        { apply lookup_lt_Some in Hi. lia. }
        rewrite (v_head_down _ _ _ (g_vert _ _ Hg _ _ _ Hlo Hi)).
        eapply (IH i lo _ (length (rnodes lo))); [done|by constructor| |done].
        rewrite (rows_weight_take_S _ _ _ Hlo) in Hgas. lia.
    + wp_rd. destruct (row_at _ _ Hr [] l2 b E) as (Hs & _). rewrite Hs.
      eapply (IH i r b (length l2)); [done| |simpl in Hgas; lia|done].
      by eapply (pos_data _ _ _ _ _ [] l2).
  - (* on a data node *)
    destruct (row_at _ _ Hr l1 l2 a E) as (Hs & Hk & Hp & Hn & _).
    destruct (row_split_sorted _ _ Hr _ _ _ E) as [Hlt Hgt].
    assert (rnodes r0 ≠ []) as Hne.
    { destruct (bottomMost_spec (S i) i r a Hi) as (b & Hb & _); [mem|lia|].
      intros E0. rewrite E0 in Hb. by apply elem_of_nil in Hb. }
    assert (Hdown_head : (i = 0%nat → returns (search_exit s k (Some a)) (search_post s k r0)) →
      returns (search_loop gas s k (down (node h (rhead r))) (Some a)) (search_post s k r0)).
    { intros Hexit. destruct i as [|i].
      - rewrite H0 in Hi. injection Hi as <-. rewrite bottom_head_down.
        destruct gas as [|gas]; [lia|]. rewrite search_loop_None. by apply Hexit.
      - destruct (lookup_lt_is_Some_2 g i) as [lo Hlo].
        { apply lookup_lt_Some in Hi. lia. }
        rewrite (v_head_down _ _ _ (g_vert _ _ Hg _ _ _ Hlo Hi)).
        eapply (IH i lo _ (length (rnodes lo))); [done|by constructor| |done].
        rewrite (rows_weight_take_S _ _ _ Hlo) in Hgas. lia. }
    assert (Hdown_data : ∀ p, p ∈ rnodes r → nkey h p < k →
      (i = 0%nat → returns (search_exit s k (Some a)) (search_post s k r0)) →
      returns (search_loop gas s k (down (node h p)) (Some a)) (search_post s k r0)).
    { intros p Hpin Hpk Hexit. destruct i as [|i].
      - rewrite H0 in Hi. injection Hi as <-. rewrite (bottom_down_None p Hpin).
        destruct gas as [|gas]; [lia|]. rewrite search_loop_None. by apply Hexit.
      - destruct (lookup_lt_is_Some_2 g i) as [lo Hlo].
        { apply lookup_lt_Some in Hi. lia. }
        destruct (down_pos i lo r p Hlo Hi Hpin Hpk) as (b & l1b & l2b & Hd & Elo & Hl1b & _).
        rewrite Hd. eapply (IH i lo b (length l2b)); [done| | |done].
        + by eapply (pos_data _ _ _ _ _ l1b l2b).
        + rewrite (rows_weight_take_S _ _ _ Hlo) in Hgas.
          apply (f_equal length) in Elo. rewrite length_app in Elo. simpl in Elo. lia. }
    wp_rd. rewrite Hs. eapply returns_rdi; [valid|exact Hk|cbv beta].
    destruct (Z.eqb_spec (nkey h a) k) as [Ek|Nk].
    + (* found *)
      destruct (bottomMost_spec (fuel s) i r a Hi) as (b & Hb & Hkb & Hrun); [mem| |].
      { rewrite fuel_eq. apply lookup_lt_Some in Hi. lia. }
      rewrite Hrun, bind_Ok. apply returns_Ok. exists b. split_and!; [done|done|congruence].
    + destruct (Z.gtb_spec (nkey h a) k) as [Gk|Lk].
      * (* past the key: back to the previous column, one layer down *)
        wp_rd. rewrite Hp.
        assert (Hexit : i = 0%nat → returns (search_exit s k (Some a)) (search_post s k r0)).
        { intros ->. rewrite H0 in Hi. injection Hi as <-. unfold search_exit.
          wp_rd. rewrite Hs. eapply returns_rdi; [valid|exact Hk|cbv beta].
          destruct (Z.ltb_spec (nkey h a) k) as [?|_]; [lia|].
          wp_rd. rewrite Hp. apply returns_Ok. right. exists l1, (a :: l2).
          split_and!; try done. constructor; [lia|].
          eapply Forall_impl; [exact Hgt|]. simpl. intros. lia. }
        destruct l1 as [|p l1' _] using rev_ind.
        -- cbn [List.last]. wp_rd. by apply Hdown_head.
        -- rewrite last_snoc_default. rewrite last_snoc_default in Hp.
           assert (p ∈ rnodes r) as Hpin by mem.
           eapply returns_rd; [valid|cbv beta]. apply Hdown_data; [done| |done].
           apply Forall_app in Hl1 as [_ Hl1]. by apply Forall_cons in Hl1 as [? _].
      * (* before the key *)
        assert (nkey h a < k) as Hak by lia.
        wp_rd. rewrite Hn. destruct l2 as [|c l2']; cbn [List.hd].
        -- wp_rd. rewrite (row_tail _ _ Hr). rewrite bool_decide_false by congruence.
           wp_rd. apply Hdown_data; [mem|done|].
           intros ->. rewrite H0 in Hi. injection Hi as <-. unfold search_exit.
           wp_rd. rewrite Hs. eapply returns_rdi; [valid|exact Hk|cbv beta].
           destruct (Z.ltb_spec (nkey h a) k) as [_|?]; [|lia].
           apply returns_Ok. right. exists (l1 ++ [a]), [].
           rewrite last_snoc_default. split_and!; try done.
           ++ by rewrite <- app_assoc.
           ++ apply Forall_app. split; [done|]. by constructor.
        -- wp_rd. destruct (row_at _ _ Hr (l1 ++ [a]) l2' c) as (Hsc & _).
           { by rewrite <- app_assoc. }
           rewrite Hsc. eapply (IH i r c (length l2')); [done| |simpl in Hgas; lia|done].
           eapply (pos_data _ _ _ _ _ (l1 ++ [a]) l2'); [by rewrite <- app_assoc| |done].
           apply Forall_app. split; [done|]. by constructor.
Qed.

Lemma search_spec : returns (search k s) (search_post s k r0).
Proof.
  destruct (g_top _ _ Hg) as (rt & Hl & Hh & _ & Hnil).
  apply last_Some in Hl as [g' E].
  assert (g !! length g' = Some rt) as Hi by (rewrite E; apply list_lookup_middle; done).
  unfold search. rewrite <- Hh.
  eapply (search_loop_spec _ (length g') rt _ (length (rnodes rt))); [done|by constructor| |].
  - rewrite fuel_eq, Hnil. pose proof (rows_weight_take_le g (length g')).
    pose proof (g_two _ _ Hg). simpl. lia.
  - by rewrite Hh.
Qed.

(** [allKeysInOrder] reads the keys of the bottom layer. *)
Lemma allKeys_loop_spec (gas : nat) (l1 l2 : list addr) (v : list Z) :
  rnodes r0 = l1 ++ l2 → (length l2 < gas)%nat →
  allKeys_loop gas s (Some (List.hd (rtail r0) l2)) v = Ok (rev v ++ (nkey h <$> l2)).
Proof.
  revert gas l1 v. induction l2 as [|a l2 IH]; intros gas l1 v E Hgas.
  - destruct gas as [|gas]; [lia|]. cbn [allKeys_loop List.hd].
    rewrite bottom_tail_eq. rewrite bool_decide_false by (intros ?; done).
    by rewrite app_nil_r.
  - destruct gas as [|gas]; [simpl in Hgas; lia|]. cbn [allKeys_loop List.hd].
    rewrite bool_decide_true.
    2:{ intros [= ->]. eapply (not_tail 0 0 r0 r0); [done|done| |apply bottom_tail_eq].
        right. mem. }
    destruct (row_at _ _ (grid_row_ok _ _ Hg _ _ H0) l1 l2 a E) as (_ & Hk & _ & Hn & _).
    rewrite (rdi_ok _ _ _ (nkey h a)), bind_Ok by (done || valid).
    rewrite rd_ok, bind_Ok by valid. rewrite Hn.
    rewrite (IH gas (l1 ++ [a])); [|by rewrite <- app_assoc|simpl in Hgas; lia].
    simpl. by rewrite <- app_assoc.
Qed.

Lemma allKeysInOrder_spec : allKeysInOrder s = Ok (nkey h <$> rnodes r0).
Proof.
  unfold allKeysInOrder. rewrite bottom_l_eq.
  rewrite rd_ok, bind_Ok by valid.
  rewrite (row_head_next _ _ (grid_row_ok _ _ Hg _ _ H0)).
  rewrite (allKeys_loop_spec _ [] (rnodes r0)); [done|done|].
  rewrite fuel_eq. pose proof (g_two _ _ Hg).
  assert (length (rnodes r0) < rows_weight g)%nat; [|lia].
  destruct g as [|r g']; [done|]. simpl in H0. injection H0 as ->. simpl. lia.
Qed.
End search_proof.

(** ** Splicing a node into a layer *)

Lemma last_in {A : Type} (a : A) (l : list A) : List.last l a ∈ a :: l.
Proof.
  revert a. induction l as [|b l IH]; intros a; [by left|].
  rewrite last_cons_default. right. apply IH.
Qed.

Lemma hd_in {A : Type} (t : A) (l : list A) : List.hd t l ∈ l ++ [t].
Proof. destruct l; simpl; by left. Qed.

(** A chain survives a change of the arena that leaves [prev] alone on its
    nodes and [next] alone on all of them but the last. *)
Lemma chain_frame_last (h h' : list Node) (a : addr) (l : list addr) :
  NoDup (a :: l) →
  (∀ b, b ∈ a :: l → b ≠ List.last l a → next (node h' b) = next (node h b)) →
  (∀ b, b ∈ l → prev (node h' b) = prev (node h b)) →
  chain h a l → chain h' a l.
Proof.
  revert a. induction l as [|b l IH]; intros a Hnd Hn Hp; [done|].
  intros (Hna & Hpb & Hc). apply NoDup_cons in Hnd as [Hna' Hnd].
  simpl. split_and!.
  - rewrite Hn; [done|by left|]. intros E. apply Hna'. rewrite E, last_cons_default. apply last_in.
  - rewrite Hp; [done|by left].
  - apply IH; [done| | |done].
    + intros c Hc' Hne. apply Hn; [by right|]. by rewrite last_cons_default.
    + intros c Hc'. apply Hp. by right.
Qed.

Lemma sorted_insert_mid (ks1 ks2 : list Z) (k : Z) :
  StronglySorted Z.lt (ks1 ++ ks2) →
  Forall (λ x, x < k) ks1 → Forall (λ x, k < x) ks2 →
  StronglySorted Z.lt (ks1 ++ k :: ks2).
Proof.
  induction ks1 as [|a ks1 IH]; simpl; intros Hs H1 H2.
  - by constructor.
  - apply StronglySorted_inv in Hs as [Hs Hall]. apply Forall_cons in H1 as [Hak H1].
    constructor; [by apply IH|].
    apply Forall_app in Hall as [Ha1 Ha2]. apply Forall_app. split; [done|].
    by constructor.
Qed.

Lemma concat_insert_perm {A : Type} (ls : list (list A)) (i : nat) (l l' : list A) (x : A) :
  ls !! i = Some l → l' ≡ₚ x :: l → concat (<[i := l']> ls) ≡ₚ x :: concat ls.
Proof.
  revert i. induction ls as [|l0 ls IH]; intros i Hi Hp; [done|].
  destruct i as [|i]; simpl in *.
  - injection Hi as ->. by rewrite Hp.
  - rewrite (IH i Hi Hp). by rewrite Permutation_middle.
Qed.

Lemma last_insert_lt {A : Type} (l : list A) (i : nat) (x : A) :
  (S i < length l)%nat → last (<[i := x]> l) = last l.
Proof.
  intros Hi. rewrite !last_lookup, length_insert.
  apply list_lookup_insert_ne. lia.
Qed.

(** What a change of the arena must leave alone for a layer, and for a pair
    of adjacent layers, to stay well formed. *)
Lemma row_ok_frame (h h' : list Node) (r : Row) :
  NoDup (rall r) →
  (∀ b, b ∈ rall r →
     next (node h' b) = next (node h b) ∧ prev (node h' b) = prev (node h b) ∧
     sentinel (node h' b) = sentinel (node h b) ∧ key (node h' b) = key (node h b)) →
  row_ok h r → row_ok h' r.
Proof.
  intros Hnd Hf [Hc Hh Ht Hd Hs].
  assert (∀ b, b ∈ rnodes r → nkey h' b = nkey h b) as Hk.
  { intros b Hb. unfold nkey. destruct (Hf b) as (_ & _ & _ & ->); [|done].
    by apply rnodes_rall. }
  split.
  - eapply chain_frame; [|done]. intros b Hb. destruct (Hf b Hb) as (? & ? & _). done.
  - destruct (Hf (rhead r)) as (_ & _ & -> & _); [apply rhead_rall|done].
  - destruct (Hf (rtail r)) as (_ & _ & -> & _); [apply rtail_rall|done].
  - rewrite Forall_forall in Hd |- *. intros b Hb. destruct (Hd b Hb) as [H1 H2].
    unfold is_data. rewrite (Hk b Hb).
    destruct (Hf b) as (_ & _ & -> & ->); [by apply rnodes_rall|done].
  - erewrite list_fmap_ext; [exact Hs|]. intros j b Hj. apply Hk.
    by eapply list_elem_of_lookup_2.
Qed.

Lemma vert_ok_frame (h h' : list Node) (lo hi : Row) :
  (∀ b, b = rhead lo ∨ b ∈ rnodes lo → up (node h' b) = up (node h b)) →
  (∀ b, b = rhead hi ∨ b ∈ rnodes hi → down (node h' b) = down (node h b)) →
  (∀ b, b ∈ rnodes lo ∨ b ∈ rnodes hi → key (node h' b) = key (node h b)) →
  vert_ok h lo hi → vert_ok h' lo hi.
Proof.
  intros Hu Hd Hk [H1 H2 H3 H4].
  assert (∀ b, b ∈ rnodes lo ∨ b ∈ rnodes hi → nkey h' b = nkey h b) as Hnk.
  { intros b Hb. unfold nkey. by rewrite Hk. }
  split.
  - rewrite Hu; [done|by left].
  - rewrite Hd; [done|by left].
  - intros a Ha. destruct (H3 a Ha) as (b & Hb1 & Hb2 & Hb3 & Hb4).
    exists b. rewrite Hd, Hu, !Hnk; auto.
  - intros b a Hb Hup. rewrite Hu in Hup by auto.
    destruct (H4 b a Hb Hup) as [Ha Hka]. split; [done|]. rewrite !Hnk; auto.
Qed.

Section splice.
Context (s s' : SkipList) (g : list Row) (Hg : grid_ok s g).
Context (i : nat) (r : Row) (Hi : g !! i = Some r) (Hnt : (S i < length g)%nat).
Context (l1 l2 : list addr) (E : rnodes r = l1 ++ l2).
Context (k v : Z).
Context (Hl1 : Forall (λ b, nkey (heap s) b < k) l1).
Context (Hl2 : Forall (λ b, k < nkey (heap s) b) l2).
Context (c : ptr).

Local Abbreviation h := (heap s).
Local Abbreviation h' := (heap s').
Local Abbreviation x := (length (heap s)).
Local Abbreviation p := (List.last l1 (rhead r)).
Local Abbreviation q := (List.hd (rtail r) l2).

Context (Hsp : spliced h h' x p q k v c).
Context (Hc : match i with
              | O => c = None
              | S j => ∃ lo cc, g !! j = Some lo ∧ c = Some cc ∧ cc ∈ rnodes lo ∧
                                nkey h cc = k ∧ up (node h cc) = None
              end).
Context (Hbl : bottom_l s' = bottom_l s) (Hbt : bottom_tail s' = bottom_tail s).
Context (Htl : top_l s' = top_l s) (Htt : top_tail s' = top_tail s).
Context (Hly : sl_layers s' = sl_layers s).

Lemma splice_p_in : p ∈ rhead r :: l1.
Proof. apply last_in. Qed.

Lemma splice_q_in : q ∈ l2 ++ [rtail r].
Proof. apply hd_in. Qed.

Lemma splice_rall : rall r = (rhead r :: l1) ++ (l2 ++ [rtail r]).
Proof. unfold rall. rewrite E. simpl. by rewrite <- app_assoc. Qed.

Lemma splice_NoDup : NoDup ((rhead r :: l1) ++ (l2 ++ [rtail r])).
Proof. rewrite <- splice_rall. by eapply grid_row_NoDup. Qed.

Lemma splice_p_rall : p ∈ rall r.
Proof. rewrite splice_rall. apply elem_of_app. left. apply splice_p_in. Qed.

Lemma splice_q_rall : q ∈ rall r.
Proof. rewrite splice_rall. apply elem_of_app. right. apply splice_q_in. Qed.

Lemma splice_old_valid (j : nat) (rj : Row) (b : addr) :
  g !! j = Some rj → b ∈ rall rj → (b < x)%nat.
Proof. apply (grid_valid _ _ Hg). Qed.

Lemma splice_c_not_row (b cc : addr) : c = Some cc → b ∈ rall r → b ≠ cc.
Proof.
  intros -> Hb ->. destruct i as [|j]; [done|].
  destruct Hc as (lo & cc' & Hlo & [= <-] & Hcc & _).
  assert (S j = j); [|lia].
  eapply (grid_rows_disjoint _ _ Hg); eauto using rnodes_rall.
Qed.

Lemma splice_nkey_old (j : nat) (rj : Row) (b : addr) :
  g !! j = Some rj → b ∈ rall rj → nkey h' b = nkey h b.
Proof.
  intros Hj Hb. unfold nkey. by rewrite (sp_key _ _ _ _ _ _ _ _ Hsp) by by eapply splice_old_valid.
Qed.

Lemma splice_nkey_new : nkey h' x = k.
Proof. unfold nkey. by rewrite (sp_new_key _ _ _ _ _ _ _ _ Hsp). Qed.

Lemma splice_next_old (b : addr) : b ∈ rall r → b ≠ p → next (node h' b) = next (node h b).
Proof.
  intros Hb Hne. rewrite (sp_next _ _ _ _ _ _ _ _ Hsp) by by eapply splice_old_valid.
  by rewrite decide_False.
Qed.

Lemma splice_prev_old (b : addr) : b ∈ rall r → b ≠ q → prev (node h' b) = prev (node h b).
Proof.
  intros Hb Hne. rewrite (sp_prev _ _ _ _ _ _ _ _ Hsp) by by eapply splice_old_valid.
  by rewrite decide_False.
Qed.

Lemma splice_sides_disjoint (b : addr) : b ∈ rhead r :: l1 → b ∈ l2 ++ [rtail r] → False.
Proof.
  intros H1 H2. pose proof splice_NoDup as Hnd.
  apply NoDup_app in Hnd as (_ & Hdis & _). by apply (Hdis b).
Qed.

Lemma splice_left_rall (b : addr) : b ∈ rhead r :: l1 → b ∈ rall r.
Proof. intros Hb. rewrite splice_rall. apply elem_of_app. by left. Qed.

Lemma splice_right_rall (b : addr) : b ∈ l2 ++ [rtail r] → b ∈ rall r.
Proof. intros Hb. rewrite splice_rall. apply elem_of_app. by right. Qed.

Lemma splice_row_ok : row_ok h' (spliced_row s r l1 l2).
Proof.
  pose proof (grid_row_ok _ _ Hg _ _ Hi) as Hr.
  pose proof splice_NoDup as Hnd. apply NoDup_app in Hnd as (Hnd1 & _ & Hnd2).
  pose proof (row_chain _ _ Hr) as Hch. rewrite E, <- app_assoc in Hch.
  apply chain_app in Hch as [Hch1 Hch2].
  pose proof splice_q_in as Hq. pose proof splice_p_in as Hp.
  split; unfold spliced_row; cbn [rhead rnodes rtail].
  - rewrite <- app_assoc. apply chain_app. split.
    + eapply chain_frame_last; [done| | |exact Hch1].
      * intros b Hb Hne. by apply splice_next_old; [apply splice_left_rall|].
      * intros b Hb. apply splice_prev_old; [apply splice_left_rall; by right|].
        intros ->. apply (splice_sides_disjoint q); [by right|done].
    + cbn [app chain]. split_and!.
      * rewrite (sp_next _ _ _ _ _ _ _ _ Hsp) by (eapply splice_old_valid; eauto using splice_p_rall).
        by rewrite decide_True.
      * apply (sp_new_prev _ _ _ _ _ _ _ _ Hsp).
      * assert (∃ rest, l2 ++ [rtail r] = q :: rest) as [rest EL].
        { destruct l2; eexists; simpl; done. }
        assert (q < x)%nat as Hqv.
        { eapply splice_old_valid; eauto using splice_right_rall. }
        rewrite EL in Hch2, Hnd2 |- *. cbn [chain] in Hch2 |- *.
        destruct Hch2 as (_ & _ & Hch2).
        split_and!.
        -- apply (sp_new_next _ _ _ _ _ _ _ _ Hsp).
        -- rewrite (sp_prev _ _ _ _ _ _ _ _ Hsp) by done.
           by rewrite decide_True.
        -- eapply chain_frame_last; [done| | |exact Hch2].
           ++ intros b Hb _. apply splice_next_old; [apply splice_right_rall; by rewrite EL|].
              intros ->. apply (splice_sides_disjoint p); [done|by rewrite EL].
           ++ intros b Hb. apply splice_prev_old; [apply splice_right_rall; rewrite EL; by right|].
              intros ->. by apply NoDup_cons in Hnd2 as [? _].
  - rewrite (sp_sentinel _ _ _ _ _ _ _ _ Hsp) by (eapply splice_old_valid; eauto using rhead_rall).
    apply (row_head _ _ Hr).
  - rewrite (sp_sentinel _ _ _ _ _ _ _ _ Hsp) by (eapply splice_old_valid; eauto using rtail_rall).
    apply (row_tail _ _ Hr).
  - pose proof (row_data _ _ Hr) as Hd. rewrite E in Hd.
    assert (∀ l, (∀ b, b ∈ l → b ∈ rnodes r) → Forall (is_data h) l → Forall (is_data h') l) as Hold.
    { intros l Hin Hl. rewrite Forall_forall in Hl |- *. intros b Hb.
      destruct (Hl b Hb) as [H1 H2]. pose proof (rnodes_rall _ _ (Hin b Hb)) as Hbr.
      unfold is_data. rewrite (splice_nkey_old _ _ _ Hi Hbr).
      rewrite (sp_sentinel _ _ _ _ _ _ _ _ Hsp), (sp_key _ _ _ _ _ _ _ _ Hsp)
        by by eapply splice_old_valid. done. }
    apply Forall_app in Hd as [Hd1 Hd2]. apply Forall_app. split; [|constructor].
    + apply Hold; [|done]. intros b Hb. rewrite E. apply elem_of_app. by left.
    + split; [apply (sp_new_sentinel _ _ _ _ _ _ _ _ Hsp)|].
      rewrite splice_nkey_new. apply (sp_new_key _ _ _ _ _ _ _ _ Hsp).
    + apply Hold; [|done]. intros b Hb. rewrite E. apply elem_of_app. by right.
  - pose proof (row_sorted _ _ Hr) as Hs. rewrite E, fmap_app in Hs.
    assert (∀ l : list nat, (∀ b, b ∈ l → b ∈ rnodes r) → nkey h' <$> l = nkey h <$> l) as Hold.
    { intros l Hin. apply list_fmap_ext. intros j b Hj.
      apply (splice_nkey_old _ _ _ Hi), rnodes_rall, Hin. by eapply list_elem_of_lookup_2. }
    rewrite fmap_app, fmap_cons, splice_nkey_new.
    rewrite !Hold; [|intros b Hb; rewrite E; apply elem_of_app; by right
                    |intros b Hb; rewrite E; apply elem_of_app; by left].
    apply sorted_insert_mid; [done| |].
    + apply Forall_fmap. exact Hl1.
    + apply Forall_fmap. exact Hl2.
Qed.

Lemma splice_other_row_ok (j : nat) (rj : Row) :
  g !! j = Some rj → j ≠ i → row_ok h' rj.
Proof.
  intros Hj Hne. eapply row_ok_frame; [by eapply grid_row_NoDup| |by eapply grid_row_ok].
  intros b Hb. pose proof (splice_old_valid _ _ _ Hj Hb) as Hv.
  rewrite (sp_next _ _ _ _ _ _ _ _ Hsp), (sp_prev _ _ _ _ _ _ _ _ Hsp),
    (sp_sentinel _ _ _ _ _ _ _ _ Hsp), (sp_key _ _ _ _ _ _ _ _ Hsp) by done.
  rewrite !decide_False; [done| |].
  - intros ->. apply Hne. eapply (grid_rows_disjoint _ _ Hg); eauto using splice_q_rall.
  - intros ->. apply Hne. eapply (grid_rows_disjoint _ _ Hg); eauto using splice_p_rall.
Qed.

Lemma splice_up_old (b : addr) :
  (b < x)%nat → c ≠ Some b → up (node h' b) = up (node h b).
Proof.
  intros Hv Hne. rewrite (sp_up _ _ _ _ _ _ _ _ Hsp) by done. by rewrite decide_False.
Qed.

Lemma splice_in_new (b : addr) : b ∈ rnodes r → b ∈ l1 ++ x :: l2.
Proof.
  rewrite E, !elem_of_app, elem_of_cons. tauto.
Qed.

Lemma splice_in_old (b : addr) : b ∈ l1 ++ x :: l2 → b = x ∨ b ∈ rnodes r.
Proof.
  rewrite E, !elem_of_app, elem_of_cons. tauto.
Qed.

Lemma splice_vert_ok (j : nat) (lo hi : Row) :
  <[i := spliced_row s r l1 l2]> g !! j = Some lo →
  <[i := spliced_row s r l1 l2]> g !! S j = Some hi →
  vert_ok h' lo hi.
Proof.
  intros Hlo Hhi.
  assert (i < length g)%nat as Hil by (by eapply lookup_lt_Some).
  destruct (decide (j = i)) as [->|Hji].
  - (* the spliced layer is the lower one *)
    rewrite list_lookup_insert_eq in Hlo by done. injection Hlo as <-.
    rewrite list_lookup_insert_ne in Hhi by lia.
    pose proof (g_vert _ _ Hg _ _ _ Hi Hhi) as [H1 H2 H3 H4].
    assert (∀ b, b ∈ rall r → up (node h' b) = up (node h b)) as Hup.
    { intros b Hb. apply splice_up_old; [by eapply (splice_old_valid _ _ _ Hi)|].
      intros Ec. by eapply splice_c_not_row. }
    split; unfold spliced_row; cbn [rhead rnodes rtail].
    + rewrite Hup by apply rhead_rall. done.
    + rewrite (sp_down _ _ _ _ _ _ _ _ Hsp); [done|].
      eapply (splice_old_valid _ _ _ Hhi); eauto using rhead_rall.
    + intros a Ha. destruct (H3 a Ha) as (b & Hb1 & Hb2 & Hb3 & Hb4).
      exists b. split_and!.
      * rewrite (sp_down _ _ _ _ _ _ _ _ Hsp); [done|].
        eapply (splice_old_valid _ _ _ Hhi); eauto using rnodes_rall.
      * by apply splice_in_new.
      * rewrite (splice_nkey_old _ _ b Hi), (splice_nkey_old _ _ a Hhi);
          eauto using rnodes_rall.
      * rewrite Hup; eauto using rnodes_rall.
    + intros b a Hb Hu. apply splice_in_old in Hb as [->|Hb].
      { by rewrite (sp_new_up _ _ _ _ _ _ _ _ Hsp) in Hu. }
      rewrite Hup in Hu by by apply rnodes_rall.
      destruct (H4 b a Hb Hu) as [Ha Hk]. split; [done|].
      rewrite (splice_nkey_old _ _ b Hi), (splice_nkey_old _ _ a Hhi);
        eauto using rnodes_rall.
  - rewrite list_lookup_insert_ne in Hlo by done.
    destruct (decide (S j = i)) as [Esj|Hsji].
    + (* the spliced layer is the upper one *)
      rewrite Esj in Hhi.
      rewrite list_lookup_insert_eq in Hhi by done. injection Hhi as <-.
      pose proof Hc as Hc'. rewrite <- Esj in Hc'.
      destruct Hc' as (lo' & cc & Hlo' & Ec & Hcc & Hkc & Hupc).
      rewrite Hlo in Hlo'. injection Hlo' as <-.
      assert (g !! S j = Some r) as Hi' by (by rewrite Esj).
      pose proof (g_vert _ _ Hg _ _ _ Hlo Hi') as [H1 H2 H3 H4].
      pose proof (grid_row_NoDup _ _ Hg _ _ Hlo) as Hndlo.
      assert (cc < x)%nat as Hccv by (eapply (splice_old_valid _ _ _ Hlo); eauto using rnodes_rall).
      split; unfold spliced_row; cbn [rhead rnodes rtail].
      * rewrite splice_up_old; [done|eapply (splice_old_valid _ _ _ Hlo); eauto using rhead_rall|].
        rewrite Ec. intros [= ->]. unfold rall in Hndlo.
        apply NoDup_cons in Hndlo as [Hn _].
        apply Hn. apply elem_of_app. by left.
      * rewrite (sp_down _ _ _ _ _ _ _ _ Hsp); [done|].
        eapply (splice_old_valid _ _ _ Hi); eauto using rhead_rall.
      * intros a Ha. apply splice_in_old in Ha as [->|Ha].
        -- exists cc. split_and!.
           ++ rewrite <- Ec. apply (sp_new_down _ _ _ _ _ _ _ _ Hsp).
           ++ done.
           ++ rewrite splice_nkey_new, (splice_nkey_old _ _ _ Hlo); eauto using rnodes_rall.
           ++ rewrite (sp_up _ _ _ _ _ _ _ _ Hsp) by done. by rewrite decide_True.
        -- destruct (H3 a Ha) as (b & Hb1 & Hb2 & Hb3 & Hb4).
           exists b. split_and!.
           ++ rewrite (sp_down _ _ _ _ _ _ _ _ Hsp); [done|].
              eapply (splice_old_valid _ _ _ Hi); eauto using rnodes_rall.
           ++ done.
           ++ rewrite (splice_nkey_old _ _ b Hlo), (splice_nkey_old _ _ a Hi);
                eauto using rnodes_rall.
           ++ rewrite splice_up_old; [done|eapply (splice_old_valid _ _ _ Hlo); eauto using rnodes_rall|].
              rewrite Ec. intros [= ->]. congruence.
      * intros b a Hb Hu.
        assert (b < x)%nat as Hbv by (eapply (splice_old_valid _ _ _ Hlo); eauto using rnodes_rall).
        rewrite (sp_up _ _ _ _ _ _ _ _ Hsp) in Hu by done.
        case_decide as Ecb.
        -- rewrite Ec in Ecb. injection Ecb as <-. injection Hu as <-. split.
           ++ apply elem_of_app. right. by left.
           ++ rewrite splice_nkey_new, (splice_nkey_old _ _ _ Hlo); eauto using rnodes_rall.
        -- destruct (H4 b a Hb Hu) as [Ha Hk]. split; [by apply splice_in_new|].
           rewrite (splice_nkey_old _ _ b Hlo), (splice_nkey_old _ _ a Hi);
             eauto using rnodes_rall.
    + (* both layers are as before *)
      rewrite list_lookup_insert_ne in Hhi by done.
      eapply vert_ok_frame; [| | |by eapply (g_vert _ _ Hg)].
      * intros b Hb. assert (b ∈ rall lo) as Hbr.
        { destruct Hb as [->|Hb]; [apply rhead_rall|by apply rnodes_rall]. }
        apply splice_up_old; [by eapply (splice_old_valid _ _ _ Hlo)|].
        intros ->. destruct i as [|i']; [done|].
        destruct Hc as (lo' & cc & Hlo' & [= <-] & Hcc & _).
        apply Hsji. f_equal. eapply (grid_rows_disjoint _ _ Hg); eauto using rnodes_rall.
      * intros b Hb. apply (sp_down _ _ _ _ _ _ _ _ Hsp).
        eapply splice_old_valid; [exact Hhi|].
        destruct Hb as [->|Hb]; [apply rhead_rall|by apply rnodes_rall].
      * intros b Hb. apply (sp_key _ _ _ _ _ _ _ _ Hsp).
        destruct Hb as [Hb|Hb];
          [eapply (splice_old_valid _ _ _ Hlo)|eapply (splice_old_valid _ _ _ Hhi)];
          eauto using rnodes_rall.
Qed.

Lemma spliced_grid_ok : grid_ok s' (<[i := spliced_row s r l1 l2]> g).
Proof.
  assert (i < length g)%nat as Hil by (by eapply lookup_lt_Some).
  split.
  - rewrite list_fmap_insert.
    rewrite (concat_insert_perm _ i (rall r) _ x).
    + rewrite (g_perm _ _ Hg), (sp_len _ _ _ _ _ _ _ _ Hsp), seq_S. simpl.
      apply Permutation_cons_append.
    + by rewrite list_lookup_fmap, Hi.
    + unfold rall, spliced_row. cbn [rhead rnodes rtail]. rewrite E, <- !app_assoc.
      cbn [app]. rewrite <- Permutation_middle. apply perm_swap.
  - apply Forall_lookup. intros j rj Hj. destruct (decide (j = i)) as [->|Hne].
    + rewrite list_lookup_insert_eq in Hj by done. injection Hj as <-.
      apply splice_row_ok.
    + rewrite list_lookup_insert_ne in Hj by done. by eapply splice_other_row_ok.
  - apply splice_vert_ok.
  - destruct (g_bottom _ _ Hg) as (r0 & H0 & Hh & Ht & Hd & Hall).
    destruct (decide (i = 0%nat)) as [Ei|Hne].
    + assert (r0 = r) as Er by (rewrite Ei in Hi; congruence). subst r0.
      exists (spliced_row s r l1 l2). rewrite Ei at 1.
      rewrite list_lookup_insert_eq by lia.
      unfold spliced_row; cbn [rhead rnodes rtail]. split_and!; try congruence.
      * rewrite (sp_down _ _ _ _ _ _ _ _ Hsp); [done|].
        eapply splice_old_valid; eauto using rhead_rall.
      * rewrite E in Hall. apply Forall_app in Hall as [Ha1 Ha2].
        assert (∀ l, (∀ b, b ∈ l → b ∈ rnodes r) →
                     Forall (λ a, down (node h a) = None) l →
                     Forall (λ a, down (node h' a) = None) l) as Hold.
        { intros l Hin Hl. rewrite Forall_forall in Hl |- *. intros b Hb.
          rewrite (sp_down _ _ _ _ _ _ _ _ Hsp); [by apply Hl|].
          eapply splice_old_valid; eauto using rnodes_rall. }
        apply Forall_app. split; [|constructor].
        -- apply Hold; [|done]. intros b Hb. rewrite E. apply elem_of_app. by left.
        -- rewrite (sp_new_down _ _ _ _ _ _ _ _ Hsp).
           pose proof Hc as Hc'. by rewrite Ei in Hc'.
        -- apply Hold; [|done]. intros b Hb. rewrite E. apply elem_of_app. by right.
    + exists r0. rewrite list_lookup_insert_ne by done.
      split_and!; try congruence.
      * rewrite (sp_down _ _ _ _ _ _ _ _ Hsp); [done|].
        eapply (splice_old_valid _ _ _ H0); eauto using rhead_rall.
      * rewrite Forall_forall in Hall |- *. intros b Hb.
        rewrite (sp_down _ _ _ _ _ _ _ _ Hsp); [by apply Hall|].
        eapply (splice_old_valid _ _ _ H0); eauto using rnodes_rall.
  - destruct (g_top _ _ Hg) as (rt & Hl & Hh & Ht & Hn).
    exists rt. rewrite last_insert_lt by done. split_and!; congruence.
  - rewrite length_insert, Hly. apply (g_layers _ _ Hg).
  - rewrite length_insert. apply (g_two _ _ Hg).
Qed.
End splice.

(** ** Running the two linking sequences of [insert] *)

Ltac len_solve :=
  cbn [heap set_heap]; rewrite ?length_insert, ?length_app; cbn [length]; lia.

Ltac node_fields :=
  cbn [sentinel height key val next prev up down name
       set_next set_prev set_up set_down set_height Node_data heap set_heap].

Ltac heap_simpl :=
  cbn [heap set_heap];
  rewrite ?node_insert by len_solve;
  repeat (case_decide; try lia);
  rewrite ?node_app_new; rewrite ?node_app_old by lia;
  node_fields.

Ltac wp_load := eapply returns_rd; [len_solve|cbv beta; node_fields; heap_simpl].
Ltac wp_store := eapply returns_store; [len_solve|cbv beta; heap_simpl].

Lemma link_bottom_spec (s : SkipList) (k v : Z) (p q : addr) :
  (p < length (heap s))%nat → (q < length (heap s))%nat → p ≠ q →
  next (node (heap s) p) = Some q →
  returns (link_bottom s k v (Some p)) (λ '(x, s'),
    x = length (heap s) ∧
    spliced (heap s) (heap s') x p q k v None ∧
    height (node (heap s') x) = Some 1 ∧
    (∀ b, (b < length (heap s))%nat →
          height (node (heap s') b) = height (node (heap s) b)) ∧
    bottom_l s' = bottom_l s ∧ bottom_tail s' = bottom_tail s ∧
    top_l s' = top_l s ∧ top_tail s' = top_tail s ∧
    sl_layers s' = sl_layers s ∧ sl_size s' = sl_size s).
Proof.
  intros Hp Hq Hpq Hn. unfold link_bottom, new.
  wp_load. rewrite Hn. wp_store. wp_store. wp_load. rewrite Hn.
  wp_store. wp_store. wp_store.
  apply returns_Ok. split; [done|].
  split; [|split_and!; try done].
  - split; intros; heap_simpl; try done; try len_solve; subst; node_fields; try done.
  - heap_simpl. done.
  - intros b Hb. heap_simpl; by subst.
Qed.

Lemma wrap32_small (z : Z) : 0 ≤ z < 2 ^ 32 → wrap32 z = z.
Proof. intros Hz. unfold wrap32. by apply Z.mod_small. Qed.

Lemma wrap64_small (z : Z) : 0 ≤ z < 2 ^ 64 → wrap64 z = z.
Proof. intros Hz. unfold wrap64. by apply Z.mod_small. Qed.

Lemma link_above_spec (s : SkipList) (k v : Z) (newNode : addr) (cur : Z)
    (p q cc : addr) :
  (p < length (heap s))%nat → (q < length (heap s))%nat →
  (cc < length (heap s))%nat → (newNode < length (heap s))%nat →
  p ≠ q → cc ≠ p → cc ≠ q → newNode ≠ p → newNode ≠ q →
  next (node (heap s) p) = Some q →
  0 ≤ cur → cur + 2 < 2 ^ 32 →
  returns (link_above s k v newNode cur (Some p) (Some cc)) (λ '(s', cur', temp),
    cur' = cur + 1 ∧ temp = Some (length (heap s)) ∧
    spliced (heap s) (heap s') (length (heap s)) p q k v (Some cc) ∧
    height (node (heap s') newNode) = Some (cur + 2) ∧
    (∀ b, (b < length (heap s))%nat → b ≠ newNode →
          height (node (heap s') b) = height (node (heap s) b)) ∧
    bottom_l s' = bottom_l s ∧ bottom_tail s' = bottom_tail s ∧
    top_l s' = top_l s ∧ top_tail s' = top_tail s ∧
    sl_layers s' = sl_layers s ∧ sl_size s' = sl_size s).
Proof.
  intros Hp Hq Hcc Hnn Hpq Hcp Hcq Hnp Hnq Hn Hc0 Hc1. unfold link_above, new.
  rewrite (wrap32_small (cur + 1)) by lia. rewrite (wrap32_small (cur + 1 + 1)) by lia.
  wp_store. wp_load. rewrite Hn. wp_store. wp_load. rewrite Hn.
  wp_store. wp_store. wp_store. wp_store. wp_store.
  eapply returns_rdi; [len_solve|heap_simpl; reflexivity|cbv beta].
  wp_store;
    (apply returns_Ok; split; [done|]; split; [done|];
     split; [|split_and!; try done];
     [split; intros; heap_simpl; simplify_eq; try done; try len_solve
     |heap_simpl; f_equal; lia
     |intros b Hb Hne; heap_simpl; by subst]).
Qed.

(** ** Growing a layer *)

Ltac sl_fields :=
  cbn [heap top_l top_tail bottom_l bottom_tail sl_size sl_layers
       set_heap set_top set_sl_layers set_sl_size].

Ltac len_solve ::=
  sl_fields; rewrite ?length_insert, ?length_app; cbn [length]; lia.

Ltac heap_simpl ::=
  sl_fields;
  rewrite ?node_insert by len_solve;
  repeat (case_decide; try lia);
  repeat first [rewrite node_app_new | rewrite node_app_old by lia];
  node_fields.

Lemma grow_run (s : SkipList) :
  (top_l s < length (heap s))%nat → (top_tail s < length (heap s))%nat →
  top_l s ≠ top_tail s →
  returns (grow s) (λ s',
    grown (heap s) (heap s') (top_l s) (top_tail s) ∧
    top_l s' = length (heap s) ∧ top_tail s' = S (length (heap s)) ∧
    bottom_l s' = bottom_l s ∧ bottom_tail s' = bottom_tail s ∧
    sl_layers s' = wrap32 (sl_layers s + 1) ∧ sl_size s' = sl_size s).
Proof.
  intros Hl Ht Hne. unfold grow, new. sl_fields.
  assert (length (heap s ++ [Node_sentinel]) = S (length (heap s))) as El.
  { rewrite length_app. simpl. lia. }
  wp_store. wp_store. wp_store. wp_store. wp_store. wp_store.
  apply returns_Ok. rewrite <- El. split; [|done].
  split; intros; sl_fields; heap_simpl; simplify_eq; try done; try len_solve;
    by rewrite El.
Qed.

Section grow_grid.
Context (s s' : SkipList) (g : list Row) (Hg : grid_ok s g).
Context (Hgr : grown (heap s) (heap s') (top_l s) (top_tail s)).
Context (Htl : top_l s' = length (heap s)) (Htt : top_tail s' = S (length (heap s))).
Context (Hbl : bottom_l s' = bottom_l s) (Hbt : bottom_tail s' = bottom_tail s).
Context (Hly : sl_layers s' = sl_layers s + 1).

Local Abbreviation h := (heap s).
Local Abbreviation h' := (heap s').

Lemma grown_top_row : ∃ g' rt, g = g' ++ [rt] ∧ rhead rt = top_l s ∧
                               rtail rt = top_tail s ∧ rnodes rt = [].
Proof.
  destruct (g_top _ _ Hg) as (rt & Hl & Hh & Ht & Hn).
  apply last_Some in Hl as [g' E]. by exists g', rt.
Qed.

Lemma grown_up_old (j : nat) (rj : Row) (b : addr) :
  g !! j = Some rj → (S j < length g)%nat → b ∈ rall rj →
  up (node h' b) = up (node h b).
Proof.
  intros Hj Hlt Hb. destruct grown_top_row as (g' & rt & E & Hh & Ht & Hn).
  assert (g !! length g' = Some rt) as Hrt by (rewrite E; by apply list_lookup_middle).
  assert (length g = S (length g')) as Hlen by (rewrite E, length_app; simpl; lia).
  rewrite (gr_up _ _ _ _ Hgr) by exact (grid_valid _ _ Hg _ _ _ Hj Hb).
  rewrite !decide_False; [done| |].
  - intros ->. assert (j = length g'); [|lia].
    eapply (grid_rows_disjoint _ _ Hg); eauto. rewrite <- Ht. apply rtail_rall.
  - intros ->. assert (j = length g'); [|lia].
    eapply (grid_rows_disjoint _ _ Hg); eauto. rewrite <- Hh. apply rhead_rall.
Qed.

Lemma grown_grid_ok : grid_ok s' (g ++ [grown_row s]).
Proof.
  destruct grown_top_row as (g' & rt & E & Hh & Ht & Hn).
  assert (g !! length g' = Some rt) as Hrt by (rewrite E; by apply list_lookup_middle).
  assert (length g = S (length g')) as Hlen by (rewrite E, length_app; simpl; lia).
  split.
  - rewrite fmap_app, concat_app, (g_perm _ _ Hg), (gr_len _ _ _ _ Hgr).
    rewrite !seq_S. simpl. by rewrite <- app_assoc.
  - apply Forall_app. split; [|constructor; [|constructor]].
    + apply Forall_lookup. intros j rj Hj.
      eapply row_ok_frame; [by eapply grid_row_NoDup| |by eapply grid_row_ok].
      intros b Hb. pose proof (grid_valid _ _ Hg _ _ _ Hj Hb) as Hv.
      by rewrite (gr_next _ _ _ _ Hgr), (gr_prev _ _ _ _ Hgr),
        (gr_sentinel _ _ _ _ Hgr), (gr_key _ _ _ _ Hgr).
    + split; unfold grown_row; cbn [rhead rnodes rtail app chain].
      * split_and!; [apply (gr_head_next _ _ _ _ Hgr)|apply (gr_tail_prev _ _ _ _ Hgr)|done].
      * apply (gr_head_sentinel _ _ _ _ Hgr).
      * apply (gr_tail_sentinel _ _ _ _ Hgr).
      * constructor.
      * constructor.
  - intros j lo hi Hlo Hhi.
    destruct (decide (S j < length g)%nat) as [Hlt|Hge].
    + rewrite lookup_app_l in Hlo by lia. rewrite lookup_app_l in Hhi by lia.
      eapply vert_ok_frame; [| | |by eapply (g_vert _ _ Hg)].
      * intros b Hb. eapply (grown_up_old j lo); [done|done|].
        destruct Hb as [->|Hb]; [apply rhead_rall|by apply rnodes_rall].
      * intros b Hb. apply (gr_down _ _ _ _ Hgr). eapply (grid_valid _ _ Hg _ _ _ Hhi).
        destruct Hb as [->|Hb]; [apply rhead_rall|by apply rnodes_rall].
      * intros b Hb. apply (gr_key _ _ _ _ Hgr).
        destruct Hb as [Hb|Hb];
          [eapply (grid_valid _ _ Hg _ _ _ Hlo)|eapply (grid_valid _ _ Hg _ _ _ Hhi)];
          by apply rnodes_rall.
    + assert (j = length g') as ->.
      { apply lookup_lt_Some in Hhi. rewrite length_app in Hhi. simpl in Hhi. lia. }
      rewrite lookup_app_l in Hlo by lia. rewrite Hrt in Hlo. injection Hlo as <-.
      rewrite <- Hlen in Hhi. rewrite list_lookup_middle in Hhi by done.
      injection Hhi as <-.
      split; unfold grown_row; cbn [rhead rnodes rtail].
      * rewrite (gr_up _ _ _ _ Hgr) by (eapply (grid_valid _ _ Hg _ _ _ Hrt); apply rhead_rall).
        by rewrite decide_True.
      * rewrite Hh. apply (gr_head_down _ _ _ _ Hgr).
      * intros a Ha. by apply elem_of_nil in Ha.
      * intros b a Hb. rewrite Hn in Hb. by apply elem_of_nil in Hb.
  - destruct (g_bottom _ _ Hg) as (r0 & H0 & Hh0 & Ht0 & Hd & Hall).
    exists r0. rewrite lookup_app_l by (by eapply lookup_lt_Some).
    split_and!; try congruence.
    + rewrite (gr_down _ _ _ _ Hgr); [done|].
      eapply (grid_valid _ _ Hg _ _ _ H0). apply rhead_rall.
    + rewrite Forall_forall in Hall |- *. intros b Hb.
      rewrite (gr_down _ _ _ _ Hgr); [by apply Hall|].
      eapply (grid_valid _ _ Hg _ _ _ H0). by apply rnodes_rall.
  - exists (grown_row s). rewrite last_snoc. done.
  - rewrite length_app, Hly, (g_layers _ _ Hg). simpl. lia.
  - rewrite length_app. pose proof (g_two _ _ Hg). lia.
Qed.
End grow_grid.

(** ** One round of promotion *)

Section promotion_round.
Context (s : SkipList) (g : list Row) (Hg : grid_ok s g).
Context (i : nat) (lo hi : Row).
Context (Hlo : g !! i = Some lo) (Hhi : g !! S i = Some hi).

Local Abbreviation h := (heap s).

Lemma walk_up_spec (l1 : list addr) :
  ∀ (gas : nat) (l2 : list addr),
  rnodes lo = l1 ++ l2 → (length l1 < gas)%nat →
  ∃ l1a l1b pu, l1 = l1a ++ l1b ∧
    walk_up gas s (Some (List.last l1 (rhead lo))) = Ok (Some (List.last l1a (rhead lo))) ∧
    up (node h (List.last l1a (rhead lo))) = Some pu ∧
    Forall (λ b, up (node h b) = None) l1b.
Proof.
  induction l1 as [|p l1 IH] using rev_ind; intros gas l2 E Hgas.
  - exists [], [], (rhead hi). destruct gas as [|gas]; [lia|].
    pose proof (v_head_up _ _ _ (g_vert _ _ Hg _ _ _ Hlo Hhi)) as Hup.
    split_and!; try done. cbn [walk_up List.last].
    rewrite (rd_ok _ _ up), bind_Ok by (eapply (grid_valid _ _ Hg _ _ _ Hlo); apply rhead_rall).
    by rewrite Hup.
  - rewrite last_snoc_default. rewrite <- app_assoc in E. cbn [app] in E.
    assert (p < length h)%nat as Hpv.
    { eapply (grid_valid _ _ Hg _ _ _ Hlo), rnodes_rall. rewrite E.
      apply elem_of_app. right. by left. }
    destruct gas as [|gas]; [lia|]. rewrite length_app in Hgas. simpl in Hgas.
    destruct (up (node h p)) as [pu|] eqn:Hup.
    + exists (l1 ++ [p]), [], pu. rewrite last_snoc_default, app_nil_r.
      split_and!; try done. cbn [walk_up]. rewrite (rd_ok _ _ up), bind_Ok by done.
      by rewrite Hup.
    + destruct (IH gas (p :: l2) E) as (l1a & l1b & pu & E1 & Hrun & Hpu & Hall); [lia|].
      exists l1a, (l1b ++ [p]), pu. split_and!; try done.
      * by rewrite E1, app_assoc.
      * cbn [walk_up]. rewrite (rd_ok _ _ up), bind_Ok by done. rewrite Hup.
        rewrite (rd_ok _ _ prev), bind_Ok by done.
        destruct (row_at _ _ (grid_row_ok _ _ Hg _ _ Hlo) l1 l2 p E) as (_ & _ & Hprev & _).
        by rewrite Hprev.
      * apply Forall_app. split; [done|]. by constructor.
Qed.

(** The node found by the walk, one layer up, is where the key belongs in
    the upper layer. *)
Lemma upper_position (l1a l1b l2 : list addr) (cc pu : addr) (k : Z) :
  rnodes lo = (l1a ++ l1b) ++ cc :: l2 →
  up (node h (List.last l1a (rhead lo))) = Some pu →
  Forall (λ b, up (node h b) = None) l1b →
  up (node h cc) = None → nkey h cc = k →
  ∃ m1 m2, rnodes hi = m1 ++ m2 ∧ pu = List.last m1 (rhead hi) ∧
           Forall (λ b, nkey h b < k) m1 ∧ Forall (λ b, k < nkey h b) m2.
Proof.
  intros E Hpu Hnone Hcc Hk.
  pose proof (grid_row_ok _ _ Hg _ _ Hlo) as Hrlo.
  pose proof (grid_row_ok _ _ Hg _ _ Hhi) as Hrhi.
  pose proof (g_vert _ _ Hg _ _ _ Hlo Hhi) as [H1 H2 H3 H4].
  destruct (row_split_sorted _ _ Hrlo _ _ _ E) as [Hlt Hgt]. rewrite Hk in Hlt, Hgt.
  rewrite Forall_forall in Hnone, Hgt.
  (* a node of the upper layer stands above a node right of [cc], unless
     its column is among [l1a] *)
  assert (∀ a, a ∈ rnodes hi →
            (∃ b, b ∈ l1a ∧ nkey h b = nkey h a) ∨ k < nkey h a) as Habove.
  { intros a Ha. destruct (H3 a Ha) as (b & _ & Hb & Hkb & Hupb).
    rewrite E in Hb. rewrite !elem_of_app, elem_of_cons in Hb.
    destruct Hb as [[Hb|Hb]|[->|Hb]].
    - left. by exists b.
    - rewrite (Hnone b Hb) in Hupb. done.
    - rewrite Hcc in Hupb. done.
    - right. rewrite <- Hkb. by apply Hgt. }
  destruct l1a as [|p l1a _] using rev_ind.
  - cbn [List.last] in Hpu. rewrite H1 in Hpu. injection Hpu as <-.
    exists [], (rnodes hi). split_and!; try done.
    apply Forall_forall. intros a Ha.
    destruct (Habove a Ha) as [(b & Hb & _)|?]; [by apply elem_of_nil in Hb|done].
  - rewrite last_snoc_default in Hpu.
    assert (p ∈ rnodes lo) as Hp.
    { rewrite E. rewrite !elem_of_app, elem_of_cons, elem_of_nil. tauto. }
    destruct (H4 p pu Hp Hpu) as [Hpuin Hkpu].
    destruct (list_elem_of_split _ _ Hpuin) as (m1 & m2 & Em).
    destruct (row_split_sorted _ _ Hrhi _ _ _ Em) as [Hm1 Hm2].
    assert (nkey h p < k) as Hpk.
    { rewrite Forall_forall in Hlt. apply Hlt.
      rewrite !elem_of_app, elem_of_cons, elem_of_nil. tauto. }
    exists (m1 ++ [pu]), m2. rewrite last_snoc_default, <- app_assoc.
    split_and!; try done.
    + apply Forall_app. split.
      * eapply Forall_impl; [exact Hm1|]. simpl. intros. lia.
      * constructor; [lia|done].
    + apply Forall_forall. intros a Ha. rewrite Forall_forall in Hm2.
      pose proof (Hm2 a Ha) as Hapu.
      destruct (Habove a) as [(b & Hb & Hkb)|?]; [|exfalso|done].
      { rewrite Em. apply elem_of_app. right. by right. }
      assert (rnodes lo = l1a ++ p :: (l1b ++ cc :: l2)) as E'.
      { rewrite E. by rewrite <- !app_assoc. }
      destruct (row_split_sorted _ _ Hrlo _ _ _ E') as [Hl _].
      rewrite Forall_forall in Hl.
      apply elem_of_app in Hb as [Hb|Hb].
      * pose proof (Hl b Hb). lia.
      * apply list_elem_of_singleton in Hb as ->. lia.
Qed.
End promotion_round.

Lemma row_next_split (h : list Node) (r : Row) (m1 m2 : list addr) :
  row_ok h r → rnodes r = m1 ++ m2 →
  next (node h (List.last m1 (rhead r))) = Some (List.hd (rtail r) m2).
Proof.
  intros Hr E. destruct m2 as [|a m2].
  - rewrite app_nil_r in E. destruct m1 as [|p m1 _] using rev_ind.
    + cbn [List.last List.hd]. rewrite (row_head_next _ _ Hr), E. done.
    + rewrite last_snoc_default.
      by destruct (row_at _ _ Hr m1 [] p E) as (_ & _ & _ & Hn & _).
  - by destruct (row_at _ _ Hr m1 m2 a E) as (_ & _ & _ & _ & Hn).
Qed.

Lemma rows_weight_lookup (g : list Row) (i : nat) (r : Row) :
  g !! i = Some r → (S (length (rnodes r)) ≤ rows_weight g)%nat.
Proof.
  intros Hi. pose proof (rows_weight_take_le g (S i)) as Hle.
  rewrite (rows_weight_take_S _ _ _ Hi) in Hle. lia.
Qed.

Lemma preserved_refl (s : SkipList) : preserved s s.
Proof. by split. Qed.

Lemma preserved_trans (s1 s2 s3 : SkipList) :
  preserved s1 s2 → preserved s2 s3 → preserved s1 s3.
Proof.
  intros [L1 K1 V1 S1 A1 B1 C1] [L2 K2 V2 S2 A2 B2 C2]. split; try congruence; try lia.
  - intros b Hb. rewrite K2 by lia. by apply K1.
  - intros b Hb. rewrite V2 by lia. by apply V1.
  - intros b Hb. rewrite S2 by lia. by apply S1.
Qed.

Lemma spliced_preserved (s s' : SkipList) (x p q : addr) (k v : Z) (c : ptr) :
  spliced (heap s) (heap s') x p q k v c →
  bottom_l s' = bottom_l s → bottom_tail s' = bottom_tail s → sl_size s' = sl_size s →
  preserved s s'.
Proof.
  intros Hsp ???. split; try done.
  - rewrite (sp_len _ _ _ _ _ _ _ _ Hsp). lia.
  - apply (sp_key _ _ _ _ _ _ _ _ Hsp).
  - apply (sp_val _ _ _ _ _ _ _ _ Hsp).
  - apply (sp_sentinel _ _ _ _ _ _ _ _ Hsp).
Qed.

Lemma grown_preserved (s s' : SkipList) (tl tt : addr) :
  grown (heap s) (heap s') tl tt →
  bottom_l s' = bottom_l s → bottom_tail s' = bottom_tail s → sl_size s' = sl_size s →
  preserved s s'.
Proof.
  intros Hgr ???. split; try done.
  - rewrite (gr_len _ _ _ _ Hgr). lia.
  - apply (gr_key _ _ _ _ Hgr).
  - apply (gr_val _ _ _ _ Hgr).
  - apply (gr_sentinel _ _ _ _ Hgr).
Qed.

Lemma preserved_nkey (s s' : SkipList) (b : addr) :
  preserved s s' → (b < length (heap s))%nat → nkey (heap s') b = nkey (heap s) b.
Proof. intros Hp Hb. unfold nkey. by rewrite (pr_key _ _ Hp). Qed.

Section promote_once_proof.
Context (s : SkipList) (g : list Row) (Hg : grid_ok s g).
Context (i : nat) (lo hi : Row).
Context (Hlo : g !! i = Some lo) (Hhi : g !! S i = Some hi).
Context (Hnt : (S (S i) < length g)%nat).
Context (r0 : Row) (H0 : g !! 0%nat = Some r0).
Context (k v : Z) (newNode : addr) (Hnew : newNode ∈ rnodes r0).
Context (l1 l2 : list addr) (cc : addr) (E : rnodes lo = l1 ++ cc :: l2).
Context (Hupcc : up (node (heap s) cc) = None) (Hkcc : nkey (heap s) cc = k).
Context (cur : Z) (Hcur0 : 0 ≤ cur) (Hcur1 : cur + 2 < 2 ^ 32).

Local Abbreviation h := (heap s).
Local Abbreviation x := (length (heap s)).

Lemma promote_once_spec :
  returns (promote_once s k v newNode cur (Some (List.last l1 (rhead lo))))
    (λ '(s', cur', pos', temp), ∃ m1 m2,
       cur' = cur + 1 ∧ temp = Some x ∧
       rnodes hi = m1 ++ m2 ∧ pos' = Some (List.last m1 (rhead hi)) ∧
       grid_ok s' (<[S i := mkRow (rhead hi) (m1 ++ x :: m2) (rtail hi)]> g) ∧
       up (node (heap s') x) = None ∧ nkey (heap s') x = k ∧
       preserved s s' ∧ sl_layers s' = sl_layers s ∧
       height (node (heap s') newNode) = Some (cur + 2)).
Proof.
  pose proof (grid_row_ok _ _ Hg _ _ Hlo) as Hrlo.
  pose proof (grid_row_ok _ _ Hg _ _ Hhi) as Hrhi.
  assert (List.last l1 (rhead lo) ∈ rall lo) as Hposin.
  { unfold rall. rewrite E, <- app_assoc, app_comm_cons. apply elem_of_app. left.
    apply last_in. }
  destruct (row_at _ _ Hrlo l1 l2 cc E) as (_ & _ & _ & _ & Hnext).
  unfold promote_once.
  eapply returns_rd; [by eapply (grid_valid _ _ Hg _ _ _ Hlo)|cbv beta]. rewrite Hnext.
  destruct (walk_up_spec _ _ Hg _ _ _ Hlo Hhi l1 (fuel s) (cc :: l2) E)
    as (l1a & l1b & pu & E1 & Hrun & Hpu & Hnone).
  { rewrite (fuel_eq _ _ Hg). pose proof (rows_weight_lookup _ _ _ Hlo) as Hw.
    rewrite E, length_app in Hw. simpl in Hw. lia. }
  rewrite Hrun, bind_Ok.
  assert (List.last l1a (rhead lo) ∈ rall lo) as Hpin.
  { unfold rall. rewrite E, E1, <- !app_assoc, app_comm_cons. apply elem_of_app. left.
    apply last_in. }
  eapply returns_rd; [by eapply (grid_valid _ _ Hg _ _ _ Hlo)|cbv beta]. rewrite Hpu.
  destruct (upper_position _ _ Hg _ _ _ Hlo Hhi l1a l1b l2 cc pu k)
    as (m1 & m2 & Em & -> & Hm1 & Hm2); try done.
  { by rewrite <- E1. }
  (* the addresses involved *)
  assert (List.last m1 (rhead hi) ∈ rall hi) as Hp by by eapply splice_p_rall.
  assert (List.hd (rtail hi) m2 ∈ rall hi) as Hq by by eapply splice_q_rall.
  assert (cc ∈ rall lo) as Hccin.
  { apply rnodes_rall. rewrite E. apply elem_of_app. right. by left. }
  assert (newNode ∈ rall r0) as Hnewin by by apply rnodes_rall.
  assert (∀ a b, a ∈ rall lo → b ∈ rall hi → a ≠ b) as Hlohi.
  { intros a b Ha Hb ->. assert (i = S i); [|lia].
    by eapply (grid_rows_disjoint _ _ Hg _ _ lo hi b). }
  assert (∀ a b, a ∈ rall r0 → b ∈ rall hi → a ≠ b) as Hr0hi.
  { intros a b Ha Hb ->. assert (0%nat = S i); [|lia].
    by eapply (grid_rows_disjoint _ _ Hg _ _ r0 hi b). }
  assert (List.last m1 (rhead hi) ≠ List.hd (rtail hi) m2) as Hpq.
  { intros Heq. eapply (splice_sides_disjoint _ _ Hg _ _ Hhi _ _ Em).
    - apply last_in.
    - rewrite Heq. apply hd_in. }
  eapply returns_bind.
  { eapply (link_above_spec s k v newNode cur _ _ cc); try done.
    - by eapply (grid_valid _ _ Hg _ _ _ Hhi).
    - by eapply (grid_valid _ _ Hg _ _ _ Hhi).
    - by eapply (grid_valid _ _ Hg _ _ _ Hlo).
    - by eapply (grid_valid _ _ Hg _ _ _ H0).
    - by apply Hlohi.
    - by apply Hlohi.
    - by apply Hr0hi.
    - by apply Hr0hi.
    - by apply row_next_split. }
  intros [[s' cur'] temp] (-> & -> & Hsp & Hh & _ & Hbl & Hbt & Htl & Htt & Hly & Hsz).
  apply returns_Ok. exists m1, m2. split_and!; try done.
  - eapply (spliced_grid_ok s s' g Hg (S i) hi Hhi Hnt m1 m2 Em k v Hm1 Hm2 (Some cc));
      try done.
    exists lo, cc. split_and!; try done. rewrite E. apply elem_of_app. right. by left.
  - apply (sp_new_up _ _ _ _ _ _ _ _ Hsp).
  - unfold nkey. by rewrite (sp_new_key _ _ _ _ _ _ _ _ Hsp).
  - by eapply spliced_preserved.
Qed.
End promote_once_proof.

(** ** The promotion loop *)

Section promote_proof.
Context (k v max : Z) (newNode : addr) (r0 : Row).
Context (Hmax : max < 2 ^ 32).
Context (Hnew : newNode ∈ rnodes r0).

Lemma promote_spec (gas : nat) :
  ∀ (s : SkipList) (g : list Row) (i : nat) (lo : Row) (l1 l2 : list addr)
    (cc : addr) (temp : ptr),
  grid_ok s g → g !! 0%nat = Some r0 → g !! i = Some lo → (S i < length g)%nat →
  rnodes lo = l1 ++ cc :: l2 →
  up (node (heap s) cc) = None → nkey (heap s) cc = k →
  (1 ≤ gas)%nat → max - Z.of_nat i - 2 < Z.of_nat gas →
  returns (promote gas s k v max newNode (Z.of_nat i)
             (Some (List.last l1 (rhead lo))) temp)
          (promote_post k max newNode r0 s).
Proof.
  induction gas as [|gas IH]; intros s g i lo l1 l2 cc temp Hg H0 Hlo Hlt E Hupcc Hkcc Hgas1 Hgas;
    [lia|].
  cbn [promote]. pose proof (g_layers _ _ Hg) as HL.
  destruct (flipCoin k (Z.of_nat i) && (sl_layers s <? max)) eqn:Hguard.
  2:{ apply returns_Ok. split_and!.
      - by exists g.
      - apply preserved_refl.
      - lia.
      - lia.
      - done.
      - intros Hall Hlt'. rewrite Hall in Hguard by lia. simpl in Hguard.
        apply Z.ltb_ge in Hguard. lia. }
  apply andb_prop in Hguard as [Hflip HLmax]. apply Z.ltb_lt in HLmax.
  rewrite (wrap32_small (Z.of_nat i + 1)) by lia.
  rewrite (wrap32_small (sl_layers s - 1)) by lia.
  (* the growth test leaves a grid with a layer above the one of [S i] *)
  assert (returns (if Z.of_nat i + 1 >=? sl_layers s - 1 then grow s else Ok s)
            (λ s1, ∃ g1, grid_ok s1 g1 ∧ g1 !! 0%nat = Some r0 ∧ g1 !! i = Some lo ∧
               (S (S i) < length g1)%nat ∧
               up (node (heap s1) cc) = None ∧ nkey (heap s1) cc = k ∧
               preserved s s1 ∧
               sl_layers s ≤ sl_layers s1 ≤ sl_layers s + 1 ∧
               (sl_layers s1 = sl_layers s + 1 → sl_layers s = Z.of_nat i + 2))) as Hgrow.
  { destruct (Z.geb_spec (Z.of_nat i + 1) (sl_layers s - 1)) as [Hge|Hnge].
    - destruct (g_top _ _ Hg) as (rt & Hl & Hh & Ht & Hn).
      apply last_Some in Hl as [g' Eg].
      assert (g !! length g' = Some rt) as Hrt by (rewrite Eg; by apply list_lookup_middle).
      pose proof (grid_row_NoDup _ _ Hg _ _ Hrt) as Hnd.
      eapply returns_impl.
      { apply grow_run.
        - rewrite <- Hh. eapply (grid_valid _ _ Hg _ _ _ Hrt), rhead_rall.
        - rewrite <- Ht. eapply (grid_valid _ _ Hg _ _ _ Hrt), rtail_rall.
        - rewrite <- Hh, <- Ht. unfold rall in Hnd. rewrite Hn in Hnd.
          apply NoDup_cons in Hnd as [Hnd _]. intros Heq. apply Hnd. rewrite Heq. by left. }
      intros s1 (Hgr & Htl & Htt & Hbl & Hbt & Hly & Hsz).
      rewrite wrap32_small in Hly by lia.
      exists (g ++ [grown_row s]). split_and!.
      + by eapply grown_grid_ok.
      + rewrite lookup_app_l; [done|lia].
      + rewrite lookup_app_l; [done|lia].
      + rewrite length_app. simpl. lia.
      + rewrite (grown_up_old _ _ _ Hg Hgr Htl Htt Hbl Hbt i lo); try done.
        apply rnodes_rall. rewrite E. apply elem_of_app. right. by left.
      + unfold nkey. rewrite (gr_key _ _ _ _ Hgr); [done|].
        eapply (grid_valid _ _ Hg _ _ _ Hlo), rnodes_rall. rewrite E.
        apply elem_of_app. right. by left.
      + by eapply grown_preserved.
      + lia.
      + lia.
      + lia.
    - apply returns_Ok. exists g. split_and!; try done; try lia. }
  eapply returns_bind; [exact Hgrow|]. clear Hgrow.
  intros s1 (g1 & Hg1 & H01 & Hlo1 & Hlt1 & Hupcc1 & Hkcc1 & Hpr1 & HL1 & Hgrew).
  destruct (lookup_lt_is_Some_2 g1 (S i)) as [hi Hhi]; [lia|].
  eapply returns_bind.
  { eapply (promote_once_spec s1 g1 Hg1 i lo hi Hlo1 Hhi Hlt1 r0 H01 k v newNode Hnew
             l1 l2 cc E Hupcc1 Hkcc1 (Z.of_nat i)); lia. }
  intros [[[s2 cur'] pos'] temp'] (m1 & m2 & -> & -> & Em & -> & Hg2 & Hupx & Hkx & Hpr2 & HL2 & Hh2).
  set (x := length (heap s1)) in *.
  set (row' := mkRow (rhead hi) (m1 ++ x :: m2) (rtail hi)) in *.
  assert (Z.of_nat i + 1 = Z.of_nat (S i)) as -> by lia.
  eapply returns_impl.
  { eapply (IH s2 (<[S i := row']> g1) (S i) row' m1 m2 x (Some x)); try done.
    - rewrite list_lookup_insert_ne; [done|lia].
    - rewrite list_lookup_insert_eq; [done|lia].
    - rewrite length_insert. lia.
    - lia.
    - lia. }
  intros s' (Hgrid & Hpr3 & HL3 & Hstop & Hall).
  split_and!.
  - done.
  - eapply preserved_trans; [exact Hpr1|]. eapply preserved_trans; [exact Hpr2|done].
  - lia.
  - lia.
  - lia.
  - intros Hheads HLlt.
    destruct (decide (sl_layers s2 < max)) as [Hlt2|Hge2].
    + by apply Hall.
    + rewrite Hstop by lia. split; [lia|]. rewrite Hh2. f_equal. lia.
Qed.
End promote_proof.

(** ** The bound on the number of layers *)

Lemma insert_max_eq (n : Z) :
  0 ≤ n ≤ 2 ^ 32 →
  insert_max n = if n <? 16 then 13 else 3 * Z.log2_up (n + 1) + 1.
Proof.
  intros Hn. unfold insert_max. rewrite wrap64_small; [done|]. lia.
Qed.

Lemma insert_max_bounds (n : Z) : 0 ≤ n ≤ 2 ^ 32 → 13 ≤ insert_max n ≤ 100.
Proof.
  intros Hn. rewrite insert_max_eq by done.
  destruct (Z.ltb_spec n 16) as [?|Hge]; [lia|].
  pose proof (Z.log2_up_le_mono 17 (n + 1) ltac:(lia)) as H1.
  pose proof (Z.log2_up_le_mono (n + 1) (2 ^ 32 + 1) ltac:(lia)) as H2.
  change (Z.log2_up 17) with 5 in H1. change (Z.log2_up (2 ^ 32 + 1)) with 33 in H2.
  lia.
Qed.

Lemma insert_max_mono (n : Z) :
  0 ≤ n < 2 ^ 32 → insert_max n ≤ insert_max (n + 1).
Proof.
  intros Hn. rewrite !insert_max_eq by lia.
  destruct (Z.ltb_spec n 16) as [Hlt|Hge], (Z.ltb_spec (n + 1) 16) as [Hlt'|Hge']; try lia.
  - pose proof (Z.log2_up_le_mono 17 (n + 1 + 1) ltac:(lia)) as H1.
    change (Z.log2_up 17) with 5 in H1. lia.
  - pose proof (Z.log2_up_le_mono (n + 1) (n + 1 + 1) ltac:(lia)). lia.
Qed.

Lemma sorted_range_length (ks : list Z) (lo hi : Z) :
  StronglySorted Z.lt ks → Forall (λ x, lo ≤ x < hi) ks → lo ≤ hi →
  Z.of_nat (length ks) ≤ hi - lo.
Proof.
  revert lo. induction ks as [|a ks IH]; intros lo Hs Hr Hle; simpl; [lia|].
  apply StronglySorted_inv in Hs as [Hs Hall]. apply Forall_cons in Hr as [Ha Hr].
  assert (Z.of_nat (length ks) ≤ hi - (a + 1)); [|lia].
  apply IH; [done| |lia].
  rewrite Forall_forall in Hall, Hr |- *. intros y Hy.
  pose proof (Hall y Hy). pose proof (Hr y Hy). lia.
Qed.

(** ** Well-formed containers *)

Lemma wf_size_bound (s : SkipList) (g : list Row) (r0 : Row) :
  wf s g r0 → 0 ≤ sl_size s ≤ 2 ^ 32.
Proof.
  intros [Hg H0 Hsz Hr _]. rewrite Hsz. split; [lia|].
  pose proof (row_sorted _ _ (grid_row_ok _ _ Hg _ _ H0)) as Hs.
  pose proof (sorted_range_length _ 0 (2 ^ 32) Hs) as Hlen.
  rewrite length_fmap in Hlen. rewrite Z.sub_0_r in Hlen. apply Hlen; [|lia].
  apply Forall_fmap. exact Hr.
Qed.

Lemma grid_ok_set_sl_size (s : SkipList) (g : list Row) (n : Z) :
  grid_ok s g → grid_ok (set_sl_size n s) g.
Proof. intros [? ? ? ? ? ? ?]. by split. Qed.

(** ** Insertion *)

Lemma insert_at_spec (s : SkipList) (g : list Row) (r0 : Row) (k v : Z)
    (l1 l2 : list addr) :
  wf s g r0 → key_in_range k → rnodes r0 = l1 ++ l2 →
  Forall (λ b, nkey (heap s) b < k) l1 → Forall (λ b, k < nkey (heap s) b) l2 →
  returns (insert_at k v (Some (List.last l1 (rhead r0))) s) (λ '(b, s'),
    b = true ∧
    ∃ g', wf s' g' (mkRow (rhead r0) (l1 ++ length (heap s) :: l2) (rtail r0)) ∧
      (∀ b, (b < length (heap s))%nat → nkey (heap s') b = nkey (heap s) b) ∧
      nkey (heap s') (length (heap s)) = k ∧
      val (node (heap s') (length (heap s))) = Some v ∧
      sl_size s' = sl_size s + 1 ∧
      sl_layers s ≤ sl_layers s' ≤ insert_max (sl_size s) ∧
      ((∀ j, 0 ≤ j → flipCoin k j = true) → sl_layers s < insert_max (sl_size s) →
         sl_layers s' = insert_max (sl_size s) ∧
         height (node (heap s') (length (heap s))) = Some (insert_max (sl_size s) - 1))).
Proof.
  intros Hwf Hk E Hl1 Hl2. pose proof (wf_size_bound _ _ _ Hwf) as Hszb.
  destruct Hwf as [Hg H0 Hsz Hrange Hlay].
  pose proof (grid_row_ok _ _ Hg _ _ H0) as Hr0.
  pose proof (g_two _ _ Hg) as Htwo.
  pose proof (insert_max_bounds _ Hszb) as Hmaxb.
  assert (sl_size s < 2 ^ 32) as Hszlt.
  { pose proof (row_sorted _ _ Hr0) as Hs. rewrite E, fmap_app in Hs.
    pose proof (sorted_insert_mid _ _ k Hs) as Hs'.
    pose proof (sorted_range_length _ 0 (2 ^ 32) (Hs' ltac:(by apply Forall_fmap)
                  ltac:(by apply Forall_fmap))) as Hlen.
    rewrite length_app in Hlen. cbn [length] in Hlen. rewrite !length_fmap in Hlen.
    rewrite Hsz, E, length_app.
    assert (Z.of_nat (length l1 + S (length l2)) ≤ 2 ^ 32 - 0); [|lia].
    apply Hlen; [|lia]. rewrite E in Hrange. apply Forall_app in Hrange as [Hr1 Hr2].
    apply Forall_app. split; [by apply Forall_fmap|].
    constructor; [done|by apply Forall_fmap]. }
  set (x := length (heap s)).
  set (r0' := mkRow (rhead r0) (l1 ++ x :: l2) (rtail r0)).
  assert (List.last l1 (rhead r0) ∈ rall r0) as Hp by by eapply splice_p_rall.
  assert (List.hd (rtail r0) l2 ∈ rall r0) as Hq by by eapply splice_q_rall.
  unfold insert_at. eapply returns_bind.
  { eapply (link_bottom_spec s k v (List.last l1 (rhead r0)) (List.hd (rtail r0) l2)).
    - by eapply (grid_valid _ _ Hg _ _ _ H0).
    - by eapply (grid_valid _ _ Hg _ _ _ H0).
    - intros Heq. eapply (splice_sides_disjoint _ _ Hg _ _ H0 _ _ E).
      + apply last_in.
      + rewrite Heq. apply hd_in.
    - by apply row_next_split. }
  intros [x' s1] (-> & Hsp & Hh1 & _ & Hbl & Hbt & Htl & Htt & Hly & Hsz1).
  fold x. cbv zeta.
  assert (grid_ok s1 (<[0%nat := r0']> g)) as Hg1.
  { eapply (spliced_grid_ok s s1 g Hg 0 r0 H0 ltac:(lia) l1 l2 E k v Hl1 Hl2 None);
      done. }
  assert (preserved s s1) as Hpr1 by by eapply spliced_preserved.
  eapply returns_bind.
  { eapply (promote_spec k v (insert_max (sl_size s1)) x r0' ltac:(rewrite Hsz1; lia)
              ltac:(simpl; apply elem_of_app; right; by left)
              (Z.to_nat (insert_max (sl_size s1))) s1 (<[0%nat := r0']> g) 0 r0' l1 l2 x (Some x));
      try done.
    - rewrite list_lookup_insert_eq; [done|lia].
    - rewrite list_lookup_insert_eq; [done|lia].
    - rewrite length_insert. lia.
    - apply (sp_new_up _ _ _ _ _ _ _ _ Hsp).
    - unfold nkey, x. by rewrite (sp_new_key _ _ _ _ _ _ _ _ Hsp).
    - rewrite Hsz1. lia.
    - rewrite Hsz1. lia. }
  intros s2 ((g2 & Hg2 & H02) & Hpr2 & HL2 & _ & Hheads).
  rewrite Hsz1 in *. rewrite Hly in *.
  assert (preserved s s2) as Hpr by by eapply preserved_trans.
  assert (x < length (heap s1))%nat as Hxv.
  { rewrite (sp_len _ _ _ _ _ _ _ _ Hsp). unfold x. lia. }
  assert (nkey (heap s2) x = k) as Hkx.
  { rewrite (preserved_nkey _ _ _ Hpr2 Hxv). unfold nkey, x.
    by rewrite (sp_new_key _ _ _ _ _ _ _ _ Hsp). }
  apply returns_Ok. split; [done|]. exists g2.
  rewrite (pr_size _ _ Hpr2), Hsz1. rewrite wrap64_small by lia.
  cbn [heap sl_size sl_layers set_sl_size].
  split_and!; try done; try lia.
  - split; cbn [heap sl_size sl_layers set_sl_size rnodes r0'].
    + by apply grid_ok_set_sl_size.
    + done.
    + rewrite Hsz, E, !length_app. simpl. lia.
    + rewrite E in Hrange. apply Forall_app in Hrange as [Hr1 Hr2].
      assert (∀ l, (∀ b, b ∈ l → b ∈ rnodes r0) →
                Forall (λ a, key_in_range (nkey (heap s) a)) l →
                Forall (λ a, key_in_range (nkey (heap s2) a)) l) as Hold.
      { intros l Hin Hl. rewrite Forall_forall in Hl |- *. intros b Hb.
        rewrite (preserved_nkey _ _ _ Hpr); [by apply Hl|].
        eapply (grid_valid _ _ Hg _ _ _ H0), rnodes_rall, Hin, Hb. }
      apply Forall_app. split; [|constructor].
      * apply Hold; [|done]. intros b Hb. rewrite E. apply elem_of_app. by left.
      * by rewrite Hkx.
      * apply Hold; [|done]. intros b Hb. rewrite E. apply elem_of_app. by right.
    + pose proof (insert_max_mono (sl_size s)). lia.
  - intros b Hb. by apply preserved_nkey.
  - rewrite (pr_val _ _ Hpr2) by done. apply (sp_new_val _ _ _ _ _ _ _ _ Hsp).
Qed.

(** ** What [search] returns, by the keys of the bottom layer *)

Section search_cases.
Context (s : SkipList) (g : list Row) (Hg : grid_ok s g).
Context (r0 : Row) (H0 : g !! 0%nat = Some r0).

Local Abbreviation h := (heap s).

Lemma search_present (b : addr) :
  b ∈ rnodes r0 → search (nkey h b) s = Ok (true, Some b).
Proof.
  intros Hb. destruct (search_spec _ _ Hg (nkey h b) _ H0) as ([found n] & Hrun & Hpost).
  rewrite Hrun. destruct found; simpl in Hpost.
  - destruct Hpost as (b' & -> & Hb' & Hk). do 3 f_equal.
    eapply sorted_key_inj; [apply (row_sorted _ _ (grid_row_ok _ _ Hg _ _ H0))|done..].
  - exfalso. destruct Hpost as [[Hnil _]|(l1 & l2 & E & _ & _ & Hl1 & Hl2)].
    + rewrite Hnil in Hb. by apply elem_of_nil in Hb.
    + rewrite Forall_forall in Hl1, Hl2. rewrite E in Hb.
      apply elem_of_app in Hb as [Hb|Hb]; [pose proof (Hl1 b Hb)|pose proof (Hl2 b Hb)]; lia.
Qed.

Lemma search_absent (k : Z) :
  rnodes r0 ≠ [] → k ∉ (nkey h <$> rnodes r0) →
  ∃ l1 l2, rnodes r0 = l1 ++ l2 ∧
           search k s = Ok (false, Some (List.last l1 (rhead r0))) ∧
           Forall (λ b, nkey h b < k) l1 ∧ Forall (λ b, k < nkey h b) l2.
Proof.
  intros Hne Hk. destruct (search_spec _ _ Hg k _ H0) as ([found n] & Hrun & Hpost).
  rewrite Hrun. destruct found; simpl in Hpost.
  - exfalso. destruct Hpost as (b & _ & Hb & Hkb). apply Hk. rewrite <- Hkb.
    by apply list_elem_of_fmap_2.
  - destruct Hpost as [[Hnil _]|(l1 & l2 & E & _ & -> & Hl1 & Hl2)]; [done|].
    by exists l1, l2.
Qed.

Lemma search_empty (k : Z) :
  rnodes r0 = [] → search k s = Ok (false, Some (top_l s)).
Proof.
  intros Hnil. destruct (search_spec _ _ Hg k _ H0) as ([found n] & Hrun & Hpost).
  rewrite Hrun. destruct found; simpl in Hpost.
  - destruct Hpost as (b & _ & Hb & _). rewrite Hnil in Hb. by apply elem_of_nil in Hb.
  - destruct Hpost as [[_ ->]|(l1 & l2 & _ & Hne & _)]; done.
Qed.
End search_cases.

(** ** The constructor *)

Lemma new_wf : wf SkipList_new new_grid (mkRow 2 [] 3).
Proof.
  split; try done.
  split; try done.
  - apply (Permutation_app_comm [2; 3]%nat [0; 1]%nat).
  - repeat constructor.
  - intros i lo hi Hlo Hhi. destruct i as [|[|i]]; simpl in Hlo, Hhi; simplify_eq.
    split; try done.
    + intros a Ha. by apply elem_of_nil in Ha.
    + intros b a Hb. by apply elem_of_nil in Hb.
  - exists (mkRow 2 [] 3). split_and!; try done.
  - exists (mkRow 0 [] 1). by split_and!.
Qed.

Lemma Inv_new : Inv SkipList_new.
Proof. exists new_grid, (mkRow 2 [] 3). apply new_wf. Qed.

Lemma insert_spec (s : SkipList) (g : list Row) (r0 : Row) (k v : Z) :
  wf s g r0 → key_in_range k →
  (k ∈ (nkey (heap s) <$> rnodes r0) → insert k v s = Ok (false, s)) ∧
  (k ∉ (nkey (heap s) <$> rnodes r0) →
     ∃ l1 l2, rnodes r0 = l1 ++ l2 ∧
       Forall (λ b, nkey (heap s) b < k) l1 ∧ Forall (λ b, k < nkey (heap s) b) l2 ∧
       returns (insert k v s) (inserted s r0 k v l1 l2)).
Proof.
  intros Hwf Hk. pose proof Hwf as [Hg H0 Hsz Hrange Hlay]. unfold insert.
  destruct (Z.eqb_spec (sl_size s) 0) as [Hz|Hnz].
  - assert (rnodes r0 = []) as Hnil.
    { apply length_zero_iff_nil. lia. }
    split.
    + rewrite Hnil. intros Hin. by apply elem_of_nil in Hin.
    + intros _. exists [], []. split_and!; try done.
      rewrite (bottom_l_eq _ _ Hg _ H0).
      eapply returns_impl; [by apply (insert_at_spec s g r0 k v [] [])|].
      by intros [b s'].
  - assert (rnodes r0 ≠ []) as Hne.
    { intros Hnil. rewrite Hnil in Hsz. simpl in Hsz. lia. }
    split.
    + intros Hin. apply list_elem_of_fmap in Hin as (b & -> & Hb).
      by rewrite (search_present _ _ Hg _ H0 b Hb).
    + intros Hnin. destruct (search_absent _ _ Hg _ H0 k Hne Hnin) as (l1 & l2 & E & Hrun & Hl1 & Hl2).
      exists l1, l2. split_and!; try done. rewrite Hrun, bind_Ok.
      eapply returns_impl; [by apply (insert_at_spec s g r0 k v l1 l2)|].
      by intros [b s'].
Qed.

(** ** Reachable containers *)

Lemma Inv_insert (s s' : SkipList) (k v : Z) (b : bool) :
  Inv s → key_in_range k → insert k v s = Ok (b, s') → Inv s'.
Proof.
  intros (g & r0 & Hwf) Hk Hrun.
  destruct (insert_spec s g r0 k v Hwf Hk) as [Hin Hnin].
  destruct (decide (k ∈ (nkey (heap s) <$> rnodes r0))) as [Hk'|Hk'].
  - rewrite (Hin Hk') in Hrun. injection Hrun as <- <-. by exists g, r0.
  - destruct (Hnin Hk') as (l1 & l2 & _ & _ & _ & [b' s''] & Hrun' & Hpost).
    rewrite Hrun in Hrun'. injection Hrun' as <- <-.
    destruct Hpost as (_ & g' & Hwf' & _). by eexists _, _.
Qed.

Lemma reachable_Inv (s : SkipList) : reachable s → Inv s.
Proof.
  induction 1 as [|s s' k v b _ IH Hk Hrun]; [apply Inv_new|].
  by eapply Inv_insert.
Qed.

(** ** What the queries observe of a well-formed container *)

Section observe.
Context (s : SkipList) (g : list Row) (r0 : Row) (Hwf : wf s g r0).

Local Abbreviation h := (heap s).

Lemma observe_grid : grid_ok s g.
Proof. apply (wf_grid _ _ _ Hwf). Qed.

Lemma observe_bottom : g !! 0%nat = Some r0.
Proof. apply (wf_bottom _ _ _ Hwf). Qed.

Lemma bottomNodes_loop_spec (gas : nat) (l1 l2 : list addr) (v : list addr) :
  rnodes r0 = l1 ++ l2 → (length l2 < gas)%nat →
  bottomNodes_loop gas s (Some (List.hd (rtail r0) l2)) v = Ok (rev v ++ l2).
Proof.
  pose proof observe_grid as Hg. pose proof observe_bottom as H0.
  revert gas l1 v. induction l2 as [|a l2 IH]; intros gas l1 v E Hgas.
  - destruct gas as [|gas]; [lia|]. cbn [bottomNodes_loop List.hd].
    rewrite (bottom_tail_eq _ _ Hg _ H0). rewrite bool_decide_false by (intros ?; done).
    by rewrite app_nil_r.
  - destruct gas as [|gas]; [simpl in Hgas; lia|]. cbn [bottomNodes_loop List.hd].
    rewrite bool_decide_true.
    2:{ intros [= ->]. eapply (not_tail _ _ Hg 0 0 r0 r0); [done|done| |apply (bottom_tail_eq _ _ Hg _ H0)].
        right. rewrite E. apply elem_of_app. right. by left. }
    destruct (row_at _ _ (grid_row_ok _ _ Hg _ _ H0) l1 l2 a E) as (_ & _ & _ & Hn & _).
    rewrite rd_ok, bind_Ok.
    2:{ eapply (grid_valid _ _ Hg _ _ _ H0), rnodes_rall. rewrite E.
        apply elem_of_app. right. by left. }
    rewrite Hn. rewrite (IH gas (l1 ++ [a])); [|by rewrite <- app_assoc|simpl in Hgas; lia].
    simpl. by rewrite <- app_assoc.
Qed.

Lemma bottomNodes_spec : bottomNodes s = Ok (rnodes r0).
Proof.
  pose proof observe_grid as Hg. pose proof observe_bottom as H0.
  unfold bottomNodes. rewrite (bottom_l_eq _ _ Hg _ H0).
  rewrite rd_ok, bind_Ok by (eapply (grid_valid _ _ Hg _ _ _ H0), rhead_rall).
  rewrite (row_head_next _ _ (grid_row_ok _ _ Hg _ _ H0)).
  rewrite (bottomNodes_loop_spec _ [] (rnodes r0)); [done|done|].
  rewrite (fuel_eq _ _ Hg). pose proof (rows_weight_lookup _ _ _ H0). lia.
Qed.

Lemma observe_keys : allKeysInOrder s = Ok (nkey h <$> rnodes r0).
Proof. apply (allKeysInOrder_spec _ _ observe_grid _ observe_bottom). Qed.

Lemma observe_sorted : StronglySorted Z.lt (nkey h <$> rnodes r0).
Proof. apply (row_sorted _ _ (grid_row_ok _ _ observe_grid _ _ observe_bottom)). Qed.

Lemma observe_valid (b : addr) : b ∈ rall r0 → (b < length h)%nat.
Proof. apply (grid_valid _ _ observe_grid _ _ _ observe_bottom). Qed.

Lemma key_at_node (b : addr) : (b < length h)%nat → key_at s b = key (node h b).
Proof. intros Hb. unfold key_at. by rewrite (lookup_node _ _ Hb). Qed.

Lemma observe_key_at (b : addr) : b ∈ rnodes r0 → key_at s b = Some (nkey h b).
Proof.
  intros Hb. rewrite key_at_node by by apply observe_valid, rnodes_rall.
  pose proof (row_data _ _ (grid_row_ok _ _ observe_grid _ _ observe_bottom)) as Hd.
  rewrite Forall_forall in Hd. by destruct (Hd b Hb).
Qed.

Lemma observe_isEmpty : isEmpty s = bool_decide (rnodes r0 = []).
Proof.
  unfold isEmpty. rewrite (wf_size _ _ _ Hwf).
  destruct (rnodes r0) as [|a l]; [done|]. rewrite bool_decide_false by done.
  apply Z.eqb_neq. cbn [length]. lia.
Qed.
End observe.

Lemma reachable_insert_list (kvs : list (Z * Z)) :
  ∀ s s', reachable s → Forall key_in_range kvs.*1 →
          insert_list kvs s = Ok s' → reachable s'.
Proof.
  induction kvs as [|[k v] kvs IH]; intros s s' Hs Hr Hrun; simpl in Hrun.
  - by injection Hrun as <-.
  - rewrite fmap_cons in Hr. apply Forall_cons in Hr as [Hk Hr].
    destruct (insert k v s) as [[b s1]| | |] eqn:Hins; try done.
    rewrite bind_Ok in Hrun. eapply (IH s1 s'); [|done|done].
    by eapply reachable_insert.
Qed.

Lemma top_not_bottom (s : SkipList) (g : list Row) :
  grid_ok s g → top_l s ≠ bottom_l s.
Proof.
  intros Hg Heq. destruct (g_top _ _ Hg) as (rt & Hl & Hh & _).
  destruct (g_bottom _ _ Hg) as (r0 & H0 & Hh0 & _).
  apply last_Some in Hl as [g' E].
  assert (g !! length g' = Some rt) as Hrt by (rewrite E; by apply list_lookup_middle).
  assert (length g' = 0%nat) as Hz.
  { eapply (grid_rows_disjoint _ _ Hg _ _ rt r0 (top_l s)); [done|done| |].
    - rewrite <- Hh. apply rhead_rall.
    - rewrite Heq, <- Hh0. apply rhead_rall. }
  pose proof (g_two _ _ Hg) as Htwo. rewrite E, length_app in Htwo. simpl in Htwo. lia.
Qed.

(** * The claims *)

(** C1, as amended.  In every reachable container that holds a key,
    [search k] returns [true] and the node of the bottom layer that holds
    [k] when [k] is present; when [k] is absent it returns [false] and the
    last node of the bottom layer whose key is below [k], which is the head
    sentinel of the bottom layer when no key is below [k].  In a container
    that holds no key it returns [false] and the head sentinel of the top
    layer, which is not the one of the bottom layer. *)
Theorem search_position (s : SkipList) (k : Z) :
  reachable s →
  ∃ nodes ks, bottomNodes s = Ok nodes ∧ allKeysInOrder s = Ok ks ∧
    (isEmpty s = true →
       search k s = Ok (false, Some (top_l s)) ∧ top_l s ≠ bottom_l s) ∧
    (isEmpty s = false → k ∈ ks →
       ∃ p, search k s = Ok (true, Some p) ∧ p ∈ nodes ∧ key_at s p = Some k) ∧
    (isEmpty s = false → k ∉ ks →
       ∃ l1 l2, nodes = l1 ++ l2 ∧
         search k s = Ok (false, Some (List.last l1 (bottom_l s))) ∧
         Forall (λ b, ∃ kb, key_at s b = Some kb ∧ kb < k) l1 ∧
         Forall (λ b, ∃ kb, key_at s b = Some kb ∧ k < kb) l2).
Proof.
  intros Hs. destruct (reachable_Inv s Hs) as (g & r0 & Hwf).
  pose proof (wf_grid _ _ _ Hwf) as Hg. pose proof (wf_bottom _ _ _ Hwf) as H0.
  exists (rnodes r0), (nkey (heap s) <$> rnodes r0).
  rewrite (observe_isEmpty _ _ _ Hwf).
  split_and!.
  - by eapply bottomNodes_spec.
  - by eapply observe_keys.
  - intros Hnil. apply bool_decide_eq_true in Hnil. split.
    + by eapply search_empty.
    + by eapply top_not_bottom.
  - intros _ Hin. apply list_elem_of_fmap in Hin as (b & -> & Hb).
    exists b. split_and!; [by eapply search_present|done|by eapply observe_key_at].
  - intros Hne Hnin. apply bool_decide_eq_false in Hne.
    destruct (search_absent _ _ Hg _ H0 k Hne Hnin) as (l1 & l2 & E & Hrun & Hl1 & Hl2).
    exists l1, l2. rewrite (bottom_l_eq _ _ Hg _ H0). split_and!; try done.
    + rewrite Forall_forall in Hl1 |- *. intros b Hb. exists (nkey (heap s) b).
      split; [|by apply Hl1]. eapply observe_key_at; [done|]. rewrite E.
      apply elem_of_app. by left.
    + rewrite Forall_forall in Hl2 |- *. intros b Hb. exists (nkey (heap s) b).
      split; [|by apply Hl2]. eapply observe_key_at; [done|]. rewrite E.
      apply elem_of_app. by right.
Qed.

Lemma reachable_sl_1_3 : reachable sl_1_3.
Proof.
  apply (reachable_insert_list [(1, 10); (3, 30)] SkipList_new); [constructor| |].
  - repeat constructor; unfold key_in_range; simpl; lia.
  - vm_compute. reflexivity.
Defined.

Lemma search_position_witness :
  reachable sl_1_3 ∧
  ∃ nodes ks, bottomNodes sl_1_3 = Ok nodes ∧ allKeysInOrder sl_1_3 = Ok ks ∧
    (isEmpty sl_1_3 = true →
       search 2 sl_1_3 = Ok (false, Some (top_l sl_1_3)) ∧ top_l sl_1_3 ≠ bottom_l sl_1_3) ∧
    (isEmpty sl_1_3 = false → 2 ∈ ks →
       ∃ p, search 2 sl_1_3 = Ok (true, Some p) ∧ p ∈ nodes ∧ key_at sl_1_3 p = Some 2) ∧
    (isEmpty sl_1_3 = false → 2 ∉ ks →
       ∃ l1 l2, nodes = l1 ++ l2 ∧
         search 2 sl_1_3 = Ok (false, Some (List.last l1 (bottom_l sl_1_3))) ∧
         Forall (λ b, ∃ kb, key_at sl_1_3 b = Some kb ∧ kb < 2) l1 ∧
         Forall (λ b, ∃ kb, key_at sl_1_3 b = Some kb ∧ 2 < kb) l2).
Proof.
  split; [exact reachable_sl_1_3|].
  apply (search_position sl_1_3 2). exact reachable_sl_1_3.
Defined.

(** C1, as the claim states it, fails on the container the constructor
    makes: [search] leaves the head sentinel of the top layer in [n], not
    the one of the bottom layer. *)
Lemma search_empty_counterexample :
  search 5 SkipList_new = Ok (false, Some (top_l SkipList_new)) ∧
  search 5 SkipList_new ≠ Ok (false, Some (bottom_l SkipList_new)).
Proof. split; [vm_compute; reflexivity|vm_compute; discriminate]. Qed.

(** ** Insertion, as a client sees it *)

Lemma insert_absent (s : SkipList) (k v : Z) (ks : list Z) :
  Inv s → key_in_range k → allKeysInOrder s = Ok ks → k ∉ ks →
  ∃ s' ks1 ks2,
    insert k v s = Ok (true, s') ∧ Inv s' ∧
    ks = ks1 ++ ks2 ∧ Forall (λ x, x < k) ks1 ∧ Forall (λ x, k < x) ks2 ∧
    allKeysInOrder s' = Ok (ks1 ++ k :: ks2) ∧
    find k s' = Ok v ∧ (∀ v2, insert k v2 s' = Ok (false, s')) ∧
    size s' = size s + 1 ∧
    numLayers s ≤ numLayers s' ≤ insert_max (size s) ∧
    ((∀ j, 0 ≤ j → flipCoin k j = true) → numLayers s < insert_max (size s) →
       numLayers s' = insert_max (size s) ∧
       heightOf k s' = Ok (insert_max (size s) - 1)).
Proof.
  intros (g & r0 & Hwf) Hk Hks Hnin.
  rewrite (observe_keys _ _ _ Hwf) in Hks. injection Hks as <-.
  destruct (insert_spec s g r0 k v Hwf Hk) as [_ Habs].
  destruct (Habs Hnin) as (l1 & l2 & E & Hl1 & Hl2 & [b s'] & Hrun & Hpost).
  destruct Hpost as (-> & g' & Hwf' & Hold & Hkx & Hvx & Hsz & Hly & Hheads).
  set (x := length (heap s)) in *.
  set (r0' := mkRow (rhead r0) (l1 ++ x :: l2) (rtail r0)) in *.
  pose proof (wf_grid _ _ _ Hwf) as Hg. pose proof (wf_bottom _ _ _ Hwf) as H0.
  pose proof (wf_grid _ _ _ Hwf') as Hg'. pose proof (wf_bottom _ _ _ Hwf') as H0'.
  assert (x ∈ rnodes r0') as Hxin.
  { simpl. apply elem_of_app. right. by left. }
  assert (x < length (heap s'))%nat as Hxv.
  { eapply (grid_valid _ _ Hg' _ _ _ H0'). by apply rnodes_rall. }
  assert (∀ l : list nat, (∀ b, b ∈ l → b ∈ rnodes r0) →
            nkey (heap s') <$> l = nkey (heap s) <$> l) as Hmap.
  { intros l Hin. apply list_fmap_ext. intros j b Hj. apply Hold.
    eapply (grid_valid _ _ Hg _ _ _ H0), rnodes_rall, Hin.
    by eapply list_elem_of_lookup_2. }
  assert (nkey (heap s') <$> rnodes r0' =
          (nkey (heap s) <$> l1) ++ k :: (nkey (heap s) <$> l2)) as Hkeys'.
  { simpl. rewrite fmap_app, fmap_cons, Hkx.
    rewrite !Hmap; [done| |]; intros b Hb; rewrite E; apply elem_of_app; auto. }
  assert (search k s' = Ok (true, Some x)) as Hfound.
  { rewrite <- Hkx. by eapply search_present. }
  exists s', (nkey (heap s) <$> l1), (nkey (heap s) <$> l2).
  split_and!; try done.
  - by exists g', r0'.
  - by rewrite E, fmap_app.
  - by apply Forall_fmap.
  - by apply Forall_fmap.
  - by rewrite (observe_keys _ _ _ Hwf'), Hkeys'.
  - unfold find. rewrite Hfound, bind_Ok. by apply rdi_ok.
  - intros v2. destruct (insert_spec s' g' r0' k v2 Hwf' Hk) as [Hpres _].
    apply Hpres. rewrite Hkeys'. apply elem_of_app. right. by left.
  - apply Hly.
  - apply Hly.
  - intros Hall Hlt. destruct (Hheads Hall Hlt) as [HL Hh]. split; [done|].
    unfold heightOf. rewrite Hfound, bind_Ok. by apply rdi_ok.
Qed.

Lemma insert_present (s : SkipList) (k v : Z) (ks : list Z) :
  Inv s → key_in_range k → allKeysInOrder s = Ok ks → k ∈ ks →
  insert k v s = Ok (false, s).
Proof.
  intros (g & r0 & Hwf) Hk Hks Hin.
  rewrite (observe_keys _ _ _ Hwf) in Hks. injection Hks as <-.
  by destruct (insert_spec s g r0 k v Hwf Hk) as [Hpres _]; apply Hpres.
Qed.

Lemma Inv_keys (s : SkipList) :
  Inv s → ∃ ks, allKeysInOrder s = Ok ks ∧ StronglySorted Z.lt ks ∧
                Forall key_in_range ks ∧ size s = Z.of_nat (length ks).
Proof.
  intros (g & r0 & Hwf). exists (nkey (heap s) <$> rnodes r0). split_and!.
  - by eapply observe_keys.
  - by eapply observe_sorted.
  - apply Forall_fmap. apply (wf_range _ _ _ Hwf).
  - unfold size. rewrite length_fmap. apply (wf_size _ _ _ Hwf).
Qed.

(** C4.  In every reachable container, [insert k v] for an absent key [k]
    returns [true] and [find k] then returns [v]; a second [insert k v2]
    returns [false] and leaves the very same container, in which [find k]
    still returns [v]. *)
Theorem insert_find_duplicate (s : SkipList) (k v : Z) (ks : list Z) :
  reachable s → key_in_range k → allKeysInOrder s = Ok ks → k ∉ ks →
  ∃ s', insert k v s = Ok (true, s') ∧ find k s' = Ok v ∧
        ∀ v2, insert k v2 s' = Ok (false, s') ∧ find k s' = Ok v.
Proof.
  intros Hs Hk Hks Hnin.
  destruct (insert_absent s k v ks (reachable_Inv s Hs) Hk Hks Hnin)
    as (s' & ks1 & ks2 & Hrun & _ & _ & _ & _ & _ & Hfind & Hdup & _).
  exists s'. split_and!; [done|done|]. intros v2. by split.
Qed.

Lemma not_elem_1_3 : 2 ∉ [1; 3].
Proof.
  intros Hin. apply elem_of_cons in Hin as [Hin|Hin]; [lia|].
  apply elem_of_cons in Hin as [Hin|Hin]; [lia|]. by apply elem_of_nil in Hin.
Defined.

Lemma insert_find_duplicate_witness :
  reachable sl_1_3 ∧ key_in_range 2 ∧ allKeysInOrder sl_1_3 = Ok [1; 3] ∧ (2 ∉ [1; 3]) ∧
  ∃ s', insert 2 20 sl_1_3 = Ok (true, s') ∧ find 2 s' = Ok 20 ∧
        ∀ v2, insert 2 v2 s' = Ok (false, s') ∧ find 2 s' = Ok 20.
Proof.
  assert (key_in_range 2) as Hk by (unfold key_in_range; lia).
  assert (allKeysInOrder sl_1_3 = Ok [1; 3]) as Hks by (vm_compute; reflexivity).
  split_and!; [exact reachable_sl_1_3|exact Hk|exact Hks|exact not_elem_1_3|].
  exact (insert_find_duplicate sl_1_3 2 20 [1; 3] reachable_sl_1_3 Hk Hks not_elem_1_3).
Defined.

(** C10.  In every reachable container [insert k v] returns, for every key
    of type [unsigned], the keys whose coin always shows heads among them:
    the fuel of the promotion loop, the bound [max] itself, is never used
    up, and the number of layers stays within [max]. *)
Theorem insert_terminates (s : SkipList) (k v : Z) :
  reachable s → key_in_range k →
  ∃ b s', insert k v s = Ok (b, s') ∧ numLayers s' ≤ insert_max (size s).
Proof.
  intros Hs Hk. pose proof (reachable_Inv s Hs) as HI.
  destruct (Inv_keys s HI) as (ks & Hks & _).
  destruct (decide (k ∈ ks)) as [Hin|Hnin].
  - exists false, s. split; [by eapply insert_present|].
    destruct HI as (g & r0 & Hwf). apply (wf_layers _ _ _ Hwf).
  - destruct (insert_absent s k v ks HI Hk Hks Hnin)
      as (s' & ks1 & ks2 & Hrun & _ & _ & _ & _ & _ & _ & _ & _ & Hly & _).
    exists true, s'. split; [done|lia].
Qed.

Lemma insert_terminates_witness :
  reachable SkipList_new ∧ key_in_range 255 ∧
  ∃ b s', insert 255 7 SkipList_new = Ok (b, s') ∧
          numLayers s' ≤ insert_max (size SkipList_new).
Proof.
  assert (key_in_range 255) as Hk by (unfold key_in_range; lia).
  split_and!; [exact reachable_new|exact Hk|].
  exact (insert_terminates SkipList_new 255 7 reachable_new Hk).
Defined.

(** ** The coin of the key 255 *)

Lemma bit_is_set_minus_one (i : Z) : 0 ≤ i < 8 → bit_is_set (-1) i = true.
Proof.
  intros Hi. unfold bit_is_set.
  assert (i = 0 ∨ i = 1 ∨ i = 2 ∨ i = 3 ∨ i = 4 ∨ i = 5 ∨ i = 6 ∨ i = 7) as Hc by lia.
  destruct Hc as [->|[->|[->|[->|[->|[->|[->| ->]]]]]]]; reflexivity.
Qed.

Lemma flipCoin_255 (j : Z) : 0 ≤ j → flipCoin 255 j = true.
Proof.
  intros Hj. unfold flipCoin.
  change (to_char _) with (-1). apply bit_is_set_minus_one.
  apply Z.mod_pos_bound. lia.
Qed.

(** C3.  The promotion loop of [insert] stops at the bound taken from the
    size [n] on entry, 13 below 16 keys and [3 * ceil(log2 (n + 1)) + 1]
    from 16 keys on: the number of layers never passes the bound, and a key
    whose coin always shows heads, such as 255, takes the container to the
    bound exactly, at height one less.  Into the keys 0 to 9 the key 255
    goes at height 12 with 13 layers, into the keys 0 to 15 at height 15
    with 16 layers. *)
Theorem promotion_stops_at_cap :
  (∀ (s : SkipList) (k v : Z) (ks : list Z),
     reachable s → key_in_range k → allKeysInOrder s = Ok ks → k ∉ ks →
     let n := size s in
     let cap := if n <? 16 then 13 else 3 * Z.log2_up (n + 1) + 1 in
     insert_max n = cap ∧
     ∃ s', insert k v s = Ok (true, s') ∧
           numLayers s ≤ numLayers s' ≤ cap ∧
           ((∀ j, 0 ≤ j → flipCoin k j = true) → numLayers s < cap →
              numLayers s' = cap ∧ heightOf k s' = Ok (cap - 1))) ∧
  (∀ j, 0 ≤ j → flipCoin 255 j = true) ∧
  (insert_list [(0, 0); (1, 1); (2, 2); (3, 3); (4, 4); (5, 5); (6, 6); (7, 7);
                (8, 8); (9, 9)] SkipList_new
   ≫= λ s, '(_, s') ← insert 255 255 s; h ← heightOf 255 s';
           Ok (size s, h, numLayers s')) = Ok (10, 12, 13) ∧
  (insert_list [(0, 0); (1, 1); (2, 2); (3, 3); (4, 4); (5, 5); (6, 6); (7, 7);
                (8, 8); (9, 9); (10, 10); (11, 11); (12, 12); (13, 13); (14, 14);
                (15, 15)] SkipList_new
   ≫= λ s, '(_, s') ← insert 255 255 s; h ← heightOf 255 s';
           Ok (size s, h, numLayers s')) = Ok (16, 15, 16).
Proof.
  split_and!.
  - intros s k v ks Hs Hk Hks Hnin n cap.
    pose proof (reachable_Inv s Hs) as HI.
    assert (insert_max n = cap) as Hcap.
    { destruct HI as (g & r0 & Hwf). apply insert_max_eq, (wf_size_bound _ _ _ Hwf). }
    split; [done|].
    destruct (insert_absent s k v ks HI Hk Hks Hnin)
      as (s' & ks1 & ks2 & Hrun & _ & _ & _ & _ & _ & _ & _ & _ & Hly & Hheads).
    fold n in Hly, Hheads. rewrite Hcap in Hly, Hheads. by exists s'.
  - apply flipCoin_255.
  - vm_compute. reflexivity.
  - vm_compute. reflexivity.
Qed.

(** ** Runs of insertions *)

Lemma insert_list_keys (kvs : list (Z * Z)) :
  ∀ (s : SkipList) (ks0 : list Z),
    Inv s → allKeysInOrder s = Ok ks0 →
    NoDup kvs.*1 → Forall key_in_range kvs.*1 → (∀ k, k ∈ kvs.*1 → k ∉ ks0) →
    ∃ s' ks, insert_list kvs s = Ok s' ∧ Inv s' ∧
             allKeysInOrder s' = Ok ks ∧ ks ≡ₚ ks0 ++ kvs.*1.
Proof.
  induction kvs as [|[k v] kvs IH]; intros s ks0 HI Hks Hnd Hr Hfresh.
  - exists s, ks0. split_and!; try done. by rewrite app_nil_r.
  - rewrite fmap_cons in Hnd, Hr, Hfresh. cbn [fst] in Hnd, Hr, Hfresh.
    apply NoDup_cons in Hnd as [Hk Hnd]. apply Forall_cons in Hr as [Hkr Hr].
    destruct (insert_absent s k v ks0 HI Hkr Hks)
      as (s1 & ks1 & ks2 & Hrun & HI1 & E & _ & _ & Hks1 & _).
    { apply Hfresh. by left. }
    destruct (IH s1 (ks1 ++ k :: ks2) HI1 Hks1 Hnd Hr) as (s' & ks & Hrun' & HI' & Hks' & Hp).
    { intros k' Hk' Hin. rewrite elem_of_app, elem_of_cons in Hin.
      assert (k' ∈ ks0 ∨ k' = k) as [Hin0| ->].
      { rewrite E, elem_of_app. tauto. }
      - by apply (Hfresh k'); [right|].
      - done. }
    exists s', ks. split_and!; try done.
    + cbn [insert_list]. by rewrite Hrun, bind_Ok.
    + rewrite Hp, E, fmap_cons. cbn [fst].
      rewrite <- !app_assoc. cbn [app]. by rewrite (Permutation_middle ks2).
Qed.

(** C5.  Keys of type [unsigned], pairwise distinct and with any values,
    inserted in any order into a new container: all the insertions return
    and [allKeysInOrder] then returns the inserted keys, each once, in
    strictly increasing order. *)
Theorem allKeysInOrder_sorted (kvs : list (Z * Z)) :
  NoDup kvs.*1 → Forall key_in_range kvs.*1 →
  ∃ s ks, insert_list kvs SkipList_new = Ok s ∧ allKeysInOrder s = Ok ks ∧
          StronglySorted Z.lt ks ∧ ks ≡ₚ kvs.*1.
Proof.
  intros Hnd Hr.
  destruct (insert_list_keys kvs SkipList_new [] Inv_new) as (s & ks & Hrun & HI & Hks & Hp);
    try done.
  { intros k _ Hin. by apply elem_of_nil in Hin. }
  destruct (Inv_keys s HI) as (ks' & Hks' & Hsorted & _).
  rewrite Hks in Hks'. injection Hks' as <-. by exists s, ks.
Qed.

Lemma allKeysInOrder_sorted_witness :
  NoDup [5; 3; 9; 1] ∧ Forall key_in_range [5; 3; 9; 1] ∧
  ∃ s ks, insert_list [(5, 50); (3, 30); (9, 90); (1, 10)] SkipList_new = Ok s ∧
          allKeysInOrder s = Ok ks ∧ StronglySorted Z.lt ks ∧ ks ≡ₚ [5; 3; 9; 1].
Proof.
  assert (NoDup [5; 3; 9; 1]) as Hnd.
  { apply (bool_decide_unpack _). vm_compute. exact I. }
  assert (Forall key_in_range [5; 3; 9; 1]) as Hr.
  { repeat constructor; unfold key_in_range; lia. }
  split_and!; [exact Hnd|exact Hr|].
  exact (allKeysInOrder_sorted [(5, 50); (3, 30); (9, 90); (1, 10)] Hnd Hr).
Defined.

(** ** The number of layers *)

Lemma reachable_empty_layers (s : SkipList) :
  reachable s → sl_size s = 0 → sl_layers s = 2.
Proof.
  induction 1 as [|s s' k v b Hs IH Hk Hrun]; intros Hz; [done|].
  pose proof (reachable_Inv s Hs) as HI.
  destruct (Inv_keys s HI) as (ks & Hks & _ & _ & Hsz).
  destruct (decide (k ∈ ks)) as [Hin|Hnin].
  - rewrite (insert_present s k v ks HI Hk Hks Hin) in Hrun. injection Hrun as _ <-.
    by apply IH.
  - destruct (insert_absent s k v ks HI Hk Hks Hnin)
      as (s1 & ks1 & ks2 & Hrun' & _ & _ & _ & _ & _ & _ & _ & Hsz' & _).
    rewrite Hrun in Hrun'. injection Hrun' as _ ->. unfold size in *. lia.
Qed.

(** The layers of a reachable container: at least two, two without a key,
    and nothing but the two sentinels in the top one. *)
Lemma top_layer_sentinels (s : SkipList) :
  reachable s →
  2 ≤ numLayers s ∧
  (isEmpty s = true → numLayers s = 2) ∧
  rd s (Some (top_l s)) sentinel = Ok true ∧
  rd s (Some (top_l s)) next = Ok (Some (top_tail s)) ∧
  rd s (Some (top_tail s)) sentinel = Ok true.
Proof.
  intros Hs. destruct (reachable_Inv s Hs) as (g & r0 & Hwf).
  pose proof (wf_grid _ _ _ Hwf) as Hg.
  destruct (g_top _ _ Hg) as (rt & Hl & Hh & Ht & Hn).
  apply last_Some in Hl as [g' E].
  assert (g !! length g' = Some rt) as Hrt by (rewrite E; by apply list_lookup_middle).
  pose proof (grid_row_ok _ _ Hg _ _ Hrt) as Hr.
  split_and!.
  - unfold numLayers. rewrite (g_layers _ _ Hg). pose proof (g_two _ _ Hg). lia.
  - intros Hz. apply (reachable_empty_layers s Hs). by apply Z.eqb_eq.
  - rewrite rd_ok by (rewrite <- Hh; eapply (grid_valid _ _ Hg _ _ _ Hrt), rhead_rall).
    by rewrite <- Hh, (row_head _ _ Hr).
  - rewrite rd_ok by (rewrite <- Hh; eapply (grid_valid _ _ Hg _ _ _ Hrt), rhead_rall).
    rewrite <- Hh, (row_head_next _ _ Hr), Hn, <- Ht. done.
  - rewrite rd_ok by (rewrite <- Ht; eapply (grid_valid _ _ Hg _ _ _ Hrt), rtail_rall).
    by rewrite <- Ht, (row_tail _ _ Hr).
Qed.

(** ** The extremal keys *)

(** C9.  In every reachable container that holds a key, [isSmallestKey] and
    [isLargestKey] return, for every [k], whether [k] is the first and the
    last key of the bottom layer; for a key the container does not hold
    they return [false], and raise nothing. *)
Theorem extremal_key_absent (s : SkipList) (k : Z) (ks : list Z) :
  reachable s → isEmpty s = false → allKeysInOrder s = Ok ks → k ∉ ks →
  (∃ kmin kmax, head ks = Some kmin ∧ last ks = Some kmax ∧
     ∀ k', isSmallestKey k' s = Ok (k' =? kmin) ∧ isLargestKey k' s = Ok (k' =? kmax)) ∧
  isSmallestKey k s = Ok false ∧ isLargestKey k s = Ok false.
Proof.
  intros Hs Hne Hks Hnin. destruct (reachable_Inv s Hs) as (g & r0 & Hwf).
  pose proof (wf_grid _ _ _ Hwf) as Hg. pose proof (wf_bottom _ _ _ Hwf) as H0.
  pose proof (grid_row_ok _ _ Hg _ _ H0) as Hr.
  rewrite (observe_keys _ _ _ Hwf) in Hks. injection Hks as <-.
  rewrite (observe_isEmpty _ _ _ Hwf) in Hne. apply bool_decide_eq_false in Hne.
  destruct (rnodes r0) as [|a l] eqn:E; [done|].
  destruct (exists_last Hne) as (l' & z & El).
  assert (a ∈ rnodes r0) as Ha by (rewrite E; by left).
  assert (z ∈ rnodes r0) as Hz.
  { rewrite E, El. apply elem_of_app. right. by left. }
  assert (∀ k', isSmallestKey k' s = Ok (k' =? nkey (heap s) a)) as Hsmall.
  { intros k'. unfold isSmallestKey. rewrite (bottom_l_eq _ _ Hg _ H0).
    rewrite rd_ok, bind_Ok by (eapply (grid_valid _ _ Hg _ _ _ H0), rhead_rall).
    rewrite (row_head_next _ _ Hr), E. cbn [List.hd].
    rewrite (rdi_ok _ _ _ (nkey (heap s) a)), bind_Ok.
    - by destruct (k' =? nkey (heap s) a).
    - by eapply (grid_valid _ _ Hg _ _ _ H0), rnodes_rall.
    - rewrite <- (key_at_node s) by by eapply (grid_valid _ _ Hg _ _ _ H0), rnodes_rall.
      by eapply observe_key_at. }
  assert (∀ k', isLargestKey k' s = Ok (k' =? nkey (heap s) z)) as Hlarge.
  { intros k'. unfold isLargestKey. rewrite (bottom_tail_eq _ _ Hg _ H0).
    rewrite rd_ok, bind_Ok by (eapply (grid_valid _ _ Hg _ _ _ H0), rtail_rall).
    rewrite (row_tail_prev _ _ Hr), E, El, last_snoc_default.
    rewrite (rdi_ok _ _ _ (nkey (heap s) z)), bind_Ok.
    - by destruct (k' =? nkey (heap s) z).
    - by eapply (grid_valid _ _ Hg _ _ _ H0), rnodes_rall.
    - rewrite <- (key_at_node s) by by eapply (grid_valid _ _ Hg _ _ _ H0), rnodes_rall.
      by eapply observe_key_at. }
  split_and!.
  - exists (nkey (heap s) a), (nkey (heap s) z). split_and!; [done| |done].
    rewrite El, fmap_app. apply last_snoc.
  - rewrite Hsmall. f_equal. apply Z.eqb_neq. intros ->. apply Hnin.
    rewrite <- E. by apply list_elem_of_fmap_2.
  - rewrite Hlarge. f_equal. apply Z.eqb_neq. intros ->. apply Hnin.
    rewrite <- E. by apply list_elem_of_fmap_2.
Qed.

Lemma extremal_key_absent_witness :
  reachable sl_1_3 ∧ isEmpty sl_1_3 = false ∧ allKeysInOrder sl_1_3 = Ok [1; 3] ∧
  (2 ∉ [1; 3]) ∧
  (∃ kmin kmax, head [1; 3] = Some kmin ∧ last [1; 3] = Some kmax ∧
     ∀ k', isSmallestKey k' sl_1_3 = Ok (k' =? kmin) ∧
           isLargestKey k' sl_1_3 = Ok (k' =? kmax)) ∧
  isSmallestKey 2 sl_1_3 = Ok false ∧ isLargestKey 2 sl_1_3 = Ok false.
Proof.
  assert (isEmpty sl_1_3 = false) as Hne by reflexivity.
  assert (allKeysInOrder sl_1_3 = Ok [1; 3]) as Hks by (vm_compute; reflexivity).
  exact (conj reachable_sl_1_3 (conj Hne (conj Hks (conj not_elem_1_3
    (extremal_key_absent sl_1_3 2 [1; 3] reachable_sl_1_3 Hne Hks not_elem_1_3))))).
Defined.

(** ** Queries for a key the container does not hold *)

Lemma search_absent_flag (s : SkipList) (k : Z) (ks : list Z) :
  Inv s → allKeysInOrder s = Ok ks → k ∉ ks → ∃ n, search k s = Ok (false, n).
Proof.
  intros (g & r0 & Hwf) Hks Hnin.
  rewrite (observe_keys _ _ _ Hwf) in Hks. injection Hks as <-.
  destruct (search_spec _ _ (wf_grid _ _ _ Hwf) k _ (wf_bottom _ _ _ Hwf))
    as ([found n] & Hrun & Hpost).
  destruct found; [|by exists n].
  exfalso. destruct Hpost as (b & _ & Hb & Hkb). apply Hnin. rewrite <- Hkb.
  by apply list_elem_of_fmap_2.
Qed.

(** What the four queries do for an absent key, in every reachable
    container: three of them throw, [nextKey] reaches the end of its body. *)
Lemma absent_key_queries (s : SkipList) (k : Z) (ks : list Z) :
  reachable s → allKeysInOrder s = Ok ks → k ∉ ks →
  heightOf k s = Throw (mkRuntimeException "No key.") ∧
  previousKey k s = Throw (mkRuntimeException "No previous key") ∧
  find k s = Throw (mkRuntimeException "find failed.") ∧
  nextKey k s = Undefined MissingReturn.
Proof.
  intros Hs Hks Hnin.
  destruct (search_absent_flag s k ks (reachable_Inv s Hs) Hks Hnin) as [n Hrun].
  unfold heightOf, previousKey, find, nextKey. by rewrite Hrun.
Qed.

(** What [nextKey] and [previousKey] do for a key the container holds. *)
Lemma neighbour_queries (s : SkipList) (k : Z) (ks1 ks2 : list Z) :
  reachable s → allKeysInOrder s = Ok (ks1 ++ k :: ks2) →
  nextKey k s = match ks2 with
                | [] => Throw (mkRuntimeException "failed to get next key.")
                | k' :: _ => Ok k'
                end ∧
  previousKey k s = match last ks1 with
                    | None => Throw (mkRuntimeException "No previous key")
                    | Some k' => Ok k'
                    end.
Proof.
  intros Hs Hks. destruct (reachable_Inv s Hs) as (g & r0 & Hwf).
  pose proof (wf_grid _ _ _ Hwf) as Hg. pose proof (wf_bottom _ _ _ Hwf) as H0.
  pose proof (grid_row_ok _ _ Hg _ _ H0) as Hr.
  rewrite (observe_keys _ _ _ Hwf) in Hks. injection Hks as Hks.
  apply fmap_app_inv in Hks as (l1 & l2' & -> & Hl2 & E). symmetry in Hl2.
  apply fmap_cons_inv in Hl2 as (b & l2 & Hkb & -> & ->).
  assert (b ∈ rnodes r0) as Hb by (rewrite E; apply elem_of_app; right; by left).
  assert (∀ a, a ∈ rnodes r0 → (a < length (heap s))%nat) as Hv.
  { intros a Ha. by eapply (grid_valid _ _ Hg _ _ _ H0), rnodes_rall. }
  assert (∀ a, a ∈ rnodes r0 → sentinel (node (heap s) a) = false ∧
                              key (node (heap s) a) = Some (nkey (heap s) a)) as Hd.
  { intros a Ha. pose proof (row_data _ _ Hr) as Hall. rewrite Forall_forall in Hall.
    by apply Hall. }
  destruct (row_at _ _ Hr l1 l2 b E) as (_ & _ & Hp & Hn & _).
  pose proof (search_present _ _ Hg _ H0 b Hb) as Hrun. rewrite <- Hkb in Hrun.
  unfold nextKey, previousKey. rewrite Hrun, !bind_Ok.
  rewrite (rd_ok _ _ next), (rd_ok _ _ prev), !bind_Ok by by apply Hv.
  rewrite Hn, Hp. split.
  - destruct l2 as [|c l2]; cbn [List.hd].
    + rewrite rd_ok, !bind_Ok by (eapply (grid_valid _ _ Hg _ _ _ H0), rtail_rall).
      by rewrite (row_tail _ _ Hr).
    + assert (c ∈ rnodes r0) as Hc.
      { rewrite E. apply elem_of_app. right. right. by left. }
      destruct (Hd c Hc) as [Hsc Hkc].
      rewrite rd_ok, !bind_Ok by by apply Hv. rewrite Hsc. cbn [negb].
      by rewrite (rdi_ok _ _ _ (nkey (heap s) c)) by (by apply Hv || done).
  - destruct l1 as [|c l1 _] using rev_ind; cbn [List.last].
    + rewrite rd_ok, !bind_Ok by (eapply (grid_valid _ _ Hg _ _ _ H0), rhead_rall).
      by rewrite (row_head _ _ Hr).
    + rewrite last_snoc_default, fmap_snoc, last_snoc.
      assert (c ∈ rnodes r0) as Hc.
      { rewrite E. apply elem_of_app. left. apply elem_of_app. right. by left. }
      destruct (Hd c Hc) as [Hsc Hkc].
      rewrite rd_ok, !bind_Ok by by apply Hv. rewrite Hsc. cbn [negb].
      by rewrite (rdi_ok _ _ _ (nkey (heap s) c)) by (by apply Hv || done).
Qed.

(** C2, at the input where the code departs from it.  In a container with
    the keys 1 and 3, [height], [previousKey] and [find] throw for the
    absent key 2, and [nextKey] and [previousKey] throw for the largest and
    the smallest key; [nextKey] for the absent key 2 throws nothing: its
    body ends without a [return] or a [throw]. *)
Theorem nextKey_absent_no_throw :
  heightOf 2 sl_1_3 = Throw (mkRuntimeException "No key.") ∧
  previousKey 2 sl_1_3 = Throw (mkRuntimeException "No previous key") ∧
  find 2 sl_1_3 = Throw (mkRuntimeException "find failed.") ∧
  nextKey 3 sl_1_3 = Throw (mkRuntimeException "failed to get next key.") ∧
  previousKey 1 sl_1_3 = Throw (mkRuntimeException "No previous key") ∧
  nextKey 2 sl_1_3 = Undefined MissingReturn ∧
  (∀ e, nextKey 2 sl_1_3 ≠ Throw e).
Proof.
  split_and!; try (vm_compute; reflexivity). intros e. vm_compute. discriminate.
Qed.

(** ** The promotion oracle *)



















(** C7.  The keys 0 to 9, inserted in this order into a new container with
    [height] read after each insertion: the heights are 1, 2, 1, 3, 1, 2, 1,
    4, 1, 2. *)
Theorem heights_0_to_9 :
  (insert_heights [0; 1; 2; 3; 4; 5; 6; 7; 8; 9] SkipList_new ≫= λ '(hs, _), Ok hs)
  = Ok [1; 2; 1; 3; 1; 2; 1; 4; 1; 2].
Proof. vm_compute. reflexivity. Qed.

(** * Verification of the further properties *)

(** ** What an insertion leaves alone *)

Lemma ensures_Ok {A : Type} (a : A) (P : A → Prop) : P a → ensures (Ok a) P.
Proof. intros HP r [= <-]. done. Qed.

Lemma ensures_bind {A B : Type} (x : outcome A) (f : A → outcome B)
    (Q : A → Prop) (P : B → Prop) :
  ensures x Q → (∀ a, Q a → ensures (f a) P) → ensures (x ≫= f) P.
Proof.
  intros Hx Hf r Hr. destruct x as [a| | |]; try done. by apply (Hf a (Hx a eq_refl)).
Qed.

Lemma ensures_skip {A B : Type} (x : outcome A) (f : A → outcome B) (P : B → Prop) :
  (∀ a, ensures (f a) P) → ensures (x ≫= f) P.
Proof. intros Hf. apply (ensures_bind x f (λ _, True)); [done|]. intros a _. apply Hf. Qed.

Lemma keeps_refl (s : SkipList) (n x : nat) :
  (n ≤ length (heap s))%nat → keeps n x s s.
Proof. by split. Qed.

Lemma keeps_store (n x : nat) (s0 s s' : SkipList) (p : option nat) (upd : Node → Node) :
  keeps n x s0 s → store s p upd = Ok s' →
  (∀ nd, payload (upd nd) = payload nd ∧ height (upd nd) = height nd) ∨
  (∃ a, p = Some a ∧ (n ≤ a)%nat) ∨
  (p = Some x ∧ ∀ nd, payload (upd nd) = payload nd) →
  keeps n x s0 s'.
Proof.
  intros [Hb Hl Ho Hh] Hst Hupd. unfold store in Hst.
  destruct p as [a|]; [|done]. destruct (heap s !! a) as [nd|] eqn:Ha; [|done].
  injection Hst as <-.
  pose proof (lookup_lt_Some _ _ _ Ha) as Hlt.
  assert (node (heap s) a = nd) as Hnd by (unfold node; by rewrite Ha).
  split; cbn [heap set_heap]; [done|by rewrite length_insert| |].
  - intros b Hbn. rewrite <- (Ho b Hbn). rewrite node_insert by done.
    case_decide as E; [|done]. subst b.
    destruct Hupd as [Hupd|[(a' & [= <-] & Hle)|[_ Hupd]]]; [|lia|].
    + by destruct (Hupd nd) as [-> _]; rewrite Hnd.
    + by rewrite Hupd, Hnd.
  - intros b Hbn Hbx. rewrite <- (Hh b Hbn Hbx). rewrite node_insert by done.
    case_decide as E; [|done]. subst b.
    destruct Hupd as [Hupd|[(a' & [= <-] & Hle)|[[= ->] _]]]; [|lia|done].
    by destruct (Hupd nd) as [_ ->]; rewrite Hnd.
Qed.

Lemma keeps_new (n x : nat) (s0 s : SkipList) (nd : Node) :
  keeps n x s0 s → keeps n x s0 (set_heap (heap s ++ [nd]) s).
Proof.
  intros [Hb Hl Ho Hh]. split; cbn [heap set_heap]; [done|rewrite length_app; lia| |].
  - intros b Hbn. rewrite <- (Ho b Hbn). by rewrite node_app_old by lia.
  - intros b Hbn Hbx. rewrite <- (Hh b Hbn Hbx). by rewrite node_app_old by lia.
Qed.

Lemma keeps_set_top (n x : nat) (s0 s : SkipList) (tl tt : nat) :
  keeps n x s0 s → keeps n x s0 (set_top tl tt s).
Proof. intros [Hb Hl Ho Hh]. by split. Qed.

Lemma keeps_set_sl_layers (n x : nat) (s0 s : SkipList) (y : Z) :
  keeps n x s0 s → keeps n x s0 (set_sl_layers y s).
Proof. intros [Hb Hl Ho Hh]. by split. Qed.

Lemma keeps_set_sl_size (n x : nat) (s0 s : SkipList) (y : Z) :
  keeps n x s0 s → keeps n x s0 (set_sl_size y s).
Proof. intros [Hb Hl Ho Hh]. by split. Qed.

Lemma ensures_store {B : Type} (n x : nat) (s0 s : SkipList) (p : option nat)
    (upd : Node → Node) (f : SkipList → outcome B) (P : B → Prop) :
  keeps n x s0 s →
  (∀ nd, payload (upd nd) = payload nd ∧ height (upd nd) = height nd) ∨
  (∃ a, p = Some a ∧ (n ≤ a)%nat) ∨
  (p = Some x ∧ ∀ nd, payload (upd nd) = payload nd) →
  (∀ s', keeps n x s0 s' → ensures (f s') P) →
  ensures (store s p upd ≫= f) P.
Proof.
  intros Hk Hupd Hf. eapply ensures_bind; [|exact Hf].
  intros s' Hst. by eapply keeps_store.
Qed.

(** A store that writes a link, a store into a node at or above [n], and
    the store of the height of [x]. *)
Ltac keep_link Hk :=
  eapply ensures_store; [exact Hk|by left|]; clear Hk; intros ? Hk.
Ltac keep_high Hk :=
  eapply ensures_store;
    [exact Hk
    |right; left; eexists; split; [reflexivity|rewrite ?length_app; cbn [length]; lia]
    |]; clear Hk; intros ? Hk.
Ltac keep_height Hk :=
  eapply ensures_store; [exact Hk|by right; right|]; clear Hk; intros ? Hk.
Ltac keep_read := apply ensures_skip; intros ?.

Lemma link_bottom_keeps (n x : nat) (s0 s : SkipList) (k v : Z) (position : option nat) :
  keeps n x s0 s →
  ensures (link_bottom s k v position) (λ '(a, s'),
    a = length (heap s) ∧ keeps n x s0 s').
Proof.
  intros Hk. pose proof (kp_bound _ _ _ _ Hk). pose proof (kp_len _ _ _ _ Hk).
  unfold link_bottom, new. cbv beta iota zeta. apply (keeps_new _ _ _ _ (Node_data k v)) in Hk.
  keep_read. keep_high Hk. keep_high Hk. keep_read. keep_link Hk. keep_link Hk.
  keep_high Hk. by apply ensures_Ok.
Qed.

Lemma link_above_keeps (n : nat) (s0 s : SkipList) (k v : Z) (newNode : nat)
    (cur : Z) (position temp : option nat) :
  keeps n newNode s0 s →
  ensures (link_above s k v newNode cur position temp)
          (λ '(s', _, _), keeps n newNode s0 s').
Proof.
  intros Hk. pose proof (kp_bound _ _ _ _ Hk). pose proof (kp_len _ _ _ _ Hk).
  unfold link_above, new. cbv beta iota zeta. apply (keeps_new _ _ _ _ (Node_data k v)) in Hk.
  keep_high Hk. keep_read. keep_high Hk. keep_read. keep_link Hk. keep_high Hk.
  keep_link Hk. keep_high Hk. keep_link Hk. keep_read. keep_height Hk.
  by apply ensures_Ok.
Qed.

Lemma grow_keeps (n x : nat) (s0 s : SkipList) :
  keeps n x s0 s → ensures (grow s) (keeps n x s0).
Proof.
  intros Hk. pose proof (kp_bound _ _ _ _ Hk). pose proof (kp_len _ _ _ _ Hk).
  unfold grow, new. cbv beta iota zeta. sl_fields.
  apply (keeps_new _ _ _ _ Node_sentinel) in Hk.
  apply (keeps_new _ _ _ _ Node_sentinel) in Hk. sl_fields.
  keep_high Hk. keep_high Hk. keep_high Hk. keep_link Hk.
  keep_high Hk. keep_link Hk.
  apply ensures_Ok. by apply keeps_set_sl_layers, keeps_set_top.
Qed.

Lemma promote_once_keeps (n : nat) (s0 s : SkipList) (k v : Z) (newNode : nat)
    (cur : Z) (position : option nat) :
  keeps n newNode s0 s →
  ensures (promote_once s k v newNode cur position)
          (λ '(s', _, _, _), keeps n newNode s0 s').
Proof.
  intros Hk. unfold promote_once. keep_read. keep_read. keep_read.
  eapply ensures_bind; [by apply link_above_keeps|].
  intros [[s' c] t] Hk'. by apply ensures_Ok.
Qed.

Lemma promote_keeps (n : nat) (s0 : SkipList) (k v max : Z) (newNode : nat) (gas : nat) :
  ∀ (s : SkipList) (cur : Z) (position temp : option nat),
    keeps n newNode s0 s →
    ensures (promote gas s k v max newNode cur position temp) (keeps n newNode s0).
Proof.
  induction gas as [|gas IH]; intros s cur position temp Hk; [done|].
  cbn [promote]. destruct (flipCoin k cur && (sl_layers s <? max)); [|by apply ensures_Ok].
  eapply ensures_bind.
  { instantiate (1 := keeps n newNode s0).
    destruct (wrap32 (cur + 1) >=? wrap32 (sl_layers s - 1));
      [by apply grow_keeps|by apply ensures_Ok]. }
  intros s1 Hk1. eapply ensures_bind; [by apply promote_once_keeps|].
  intros [[[s2 c] p] t] Hk2. by apply IH.
Qed.

Lemma insert_at_keeps (k v : Z) (position : option nat) (s : SkipList) :
  ensures (insert_at k v position s)
          (λ '(_, s'), keeps (length (heap s)) (length (heap s)) s s').
Proof.
  unfold insert_at. eapply ensures_bind.
  { apply (link_bottom_keeps (length (heap s)) (length (heap s)) s s). by apply keeps_refl. }
  intros [x s1] [-> Hk1]. cbv zeta. eapply ensures_bind.
  { by apply (promote_keeps (length (heap s)) s). }
  intros s2 Hk2. apply ensures_Ok. by apply keeps_set_sl_size.
Qed.

(** [insert] leaves the sentinel flag, the key, the value, the height, the
    [down] link and the name of every node it found as they were. *)
Lemma insert_keeps (k v : Z) (s s' : SkipList) (b : bool) :
  insert k v s = Ok (b, s') → keeps (length (heap s)) (length (heap s)) s s'.
Proof.
  unfold insert. destruct (sl_size s =? 0).
  - intros Hrun. by apply (insert_at_keeps k v _ s _ Hrun).
  - destruct (search k s) as [[found position]| | |]; try done. cbn.
    destruct found.
    + intros [= <- <-]. by apply keeps_refl.
    + intros Hrun. by apply (insert_at_keeps k v _ s _ Hrun).
Qed.

(** ** Queries before and after an insertion *)

Lemma rdi_node {A : Type} (s : SkipList) (a : nat) (f : Node → option A) :
  (a < length (heap s))%nat → rdi s (Some a) f = initialised (f (node (heap s) a)).
Proof. intros Ha. unfold rdi, deref. by rewrite (lookup_node _ _ Ha). Qed.

Lemma keeps_fields (n x : nat) (s0 s : SkipList) (b : nat) :
  keeps n x s0 s → (b < n)%nat →
  val (node (heap s) b) = val (node (heap s0) b) ∧
  key (node (heap s) b) = key (node (heap s0) b) ∧
  down (node (heap s) b) = down (node (heap s0) b) ∧
  sentinel (node (heap s) b) = sentinel (node (heap s0) b).
Proof.
  intros Hk Hb. pose proof (kp_old _ _ _ _ Hk b Hb) as Hp. unfold payload in Hp.
  by simplify_eq.
Qed.

(** A key the container holds is found at a node of the bottom layer, where
    [find] and [height] read its value and its height. *)
Lemma present_queries (s : SkipList) (g : list Row) (r0 : Row) (b : nat) :
  wf s g r0 → b ∈ rnodes r0 →
  search (nkey (heap s) b) s = Ok (true, Some b) ∧
  find (nkey (heap s) b) s = initialised (val (node (heap s) b)) ∧
  heightOf (nkey (heap s) b) s = initialised (height (node (heap s) b)).
Proof.
  intros Hwf Hb. pose proof (wf_grid _ _ _ Hwf) as Hg. pose proof (wf_bottom _ _ _ Hwf) as H0.
  pose proof (search_present _ _ Hg _ H0 b Hb) as Hrun.
  assert (b < length (heap s))%nat as Hv.
  { by eapply (grid_valid _ _ Hg _ _ _ H0), rnodes_rall. }
  unfold find, heightOf. rewrite Hrun, !bind_Ok. by rewrite !rdi_node.
Qed.

Lemma insert_other_keys (s s' : SkipList) (k v k' : Z) (b : bool) :
  Inv s → key_in_range k → insert k v s = Ok (b, s') → k' ≠ k →
  find k' s' = find k' s ∧ heightOf k' s' = heightOf k' s.
Proof.
  intros (g & r0 & Hwf) Hk Hrun Hne.
  pose proof (insert_keeps _ _ _ _ _ Hrun) as Hkeep.
  pose proof (wf_grid _ _ _ Hwf) as Hg. pose proof (wf_bottom _ _ _ Hwf) as H0.
  destruct (insert_spec s g r0 k v Hwf Hk) as [Hpres Habs].
  destruct (decide (k ∈ (nkey (heap s) <$> rnodes r0))) as [Hin|Hnin].
  { rewrite (Hpres Hin) in Hrun. by injection Hrun as <- <-. }
  destruct (Habs Hnin) as (l1 & l2 & E & Hl1 & Hl2 & [b' s''] & Hrun' & Hpost).
  rewrite Hrun in Hrun'. injection Hrun' as <- <-.
  destruct Hpost as (-> & g' & Hwf' & Hold & Hkx & _).
  set (x := length (heap s)) in *.
  destruct (decide (k' ∈ (nkey (heap s) <$> rnodes r0))) as [Hin'|Hnin'].
  - apply list_elem_of_fmap in Hin' as (c & -> & Hc).
    assert (c < length (heap s))%nat as Hcv.
    { by eapply (grid_valid _ _ Hg _ _ _ H0), rnodes_rall. }
    destruct (present_queries s g r0 c Hwf Hc) as (_ & -> & ->).
    assert (c ∈ rnodes (mkRow (rhead r0) (l1 ++ x :: l2) (rtail r0))) as Hc'.
    { cbn [rnodes]. rewrite E in Hc. rewrite elem_of_app in Hc.
      rewrite elem_of_app, elem_of_cons. tauto. }
    destruct (present_queries s' g' _ c Hwf' Hc') as (_ & Hf & Hh).
    rewrite (Hold c Hcv) in Hf, Hh. rewrite Hf, Hh.
    destruct (keeps_fields _ _ _ _ c Hkeep Hcv) as (-> & _).
    rewrite (kp_height _ _ _ _ Hkeep c Hcv) by lia. done.
  - assert (k' ∉ (nkey (heap s') <$> (l1 ++ x :: l2))) as Hnin''.
    { intros Hin. apply list_elem_of_fmap in Hin as (c & -> & Hc).
      rewrite elem_of_app, elem_of_cons in Hc.
      assert (c = x ∨ c ∈ rnodes r0) as [->|Hc0].
      { rewrite E, elem_of_app. tauto. }
      - by rewrite Hkx in Hne.
      - apply Hnin'. rewrite Hold.
        + by apply list_elem_of_fmap_2.
        + by eapply (grid_valid _ _ Hg _ _ _ H0), rnodes_rall. }
    destruct (search_absent_flag s k' _ (ex_intro _ g (ex_intro _ r0 Hwf))
                (observe_keys _ _ _ Hwf) Hnin') as [n Hs].
    destruct (search_absent_flag s' k' _ (ex_intro _ g' (ex_intro _ _ Hwf'))
                (observe_keys _ _ _ Hwf') Hnin'') as [n' Hs'].
    unfold find, heightOf. by rewrite Hs, Hs'.
Qed.

(** ** Runs of insertions and the values they leave *)

Lemma insert_list_app (l1 l2 : list (Z * Z)) (s : SkipList) :
  insert_list (l1 ++ l2) s = insert_list l1 s ≫= insert_list l2.
Proof.
  revert s. induction l1 as [|[k v] l1 IH]; intros s; [done|].
  cbn [app insert_list]. destruct (insert k v s) as [[b s1]| | |]; try done.
  rewrite !bind_Ok. apply IH.
Qed.

Lemma first_value_app (k : Z) (l1 l2 : list (Z * Z)) :
  first_value k (l1 ++ l2)
  = match first_value k l1 with Some v => Some v | None => first_value k l2 end.
Proof.
  induction l1 as [|[k' v] l1 IH]; [done|]. cbn [app first_value].
  by destruct (k' =? k).
Qed.

Lemma first_value_None (k : Z) (kvs : list (Z * Z)) :
  first_value k kvs = None ↔ k ∉ kvs.*1.
Proof.
  induction kvs as [|[k' v] kvs IH]; cbn [first_value].
  - split; [intros _ Hin; by apply elem_of_nil in Hin|done].
  - rewrite fmap_cons, not_elem_of_cons. cbn [fst].
    destruct (Z.eqb_spec k' k) as [->|Hne]; [split; [done|tauto]|].
    rewrite IH. split; [intros; split; [congruence|done]|tauto].
Qed.

Lemma find_present (s : SkipList) (k : Z) (ks : list Z) :
  Inv s → allKeysInOrder s = Ok ks → k ∈ ks → ∀ e, find k s ≠ Throw e.
Proof.
  intros (g & r0 & Hwf) Hks Hin e.
  rewrite (observe_keys _ _ _ Hwf) in Hks. injection Hks as <-.
  apply list_elem_of_fmap in Hin as (b & -> & Hb).
  destruct (present_queries s g r0 b Hwf Hb) as (_ & -> & _).
  by destruct (val (node (heap s) b)).
Qed.

Lemma find_absent (s : SkipList) (k : Z) (ks : list Z) :
  Inv s → allKeysInOrder s = Ok ks → k ∉ ks →
  find k s = Throw (mkRuntimeException "find failed.").
Proof.
  intros HI Hks Hnin. destruct (search_absent_flag s k ks HI Hks Hnin) as [n Hrun].
  unfold find. by rewrite Hrun.
Qed.

Lemma find_after_inserts_run (kvs : list (Z * Z)) :
  Forall key_in_range kvs.*1 →
  ∃ s, insert_list kvs SkipList_new = Ok s ∧ reachable s ∧
       ∀ k, find k s = find_result (first_value k kvs).
Proof.
  induction kvs as [|[k v] kvs IH] using rev_ind; intros Hr.
  - exists SkipList_new. split_and!; [done|constructor|].
    intros k. apply (find_absent _ _ []); [apply Inv_new|by vm_compute|].
    intros Hin. by apply elem_of_nil in Hin.
  - rewrite fmap_app in Hr. apply Forall_app in Hr as [Hr Hk].
    apply Forall_cons in Hk as [Hk _]. cbn [fst] in Hk.
    destruct (IH Hr) as (s & Hrun & Hs & Hfind).
    pose proof (reachable_Inv s Hs) as HI.
    destruct (Inv_keys s HI) as (ks & Hks & _).
    rewrite insert_list_app, Hrun, bind_Ok. cbn [insert_list].
    destruct (decide (k ∈ ks)) as [Hin|Hnin].
    + rewrite (insert_present s k v ks HI Hk Hks Hin), bind_Ok.
      exists s. split_and!; [done|done|]. intros k'. rewrite first_value_app, Hfind.
      destruct (first_value k' kvs) as [x|] eqn:Ef; [done|].
      cbn [first_value]. destruct (Z.eqb_spec k k') as [->|Hne]; [|done].
      exfalso. apply (find_present s k' ks HI Hks Hin (mkRuntimeException "find failed.")).
      by rewrite Hfind, Ef.
    + destruct (insert_absent s k v ks HI Hk Hks Hnin)
        as (s' & ks1 & ks2 & Hins & HI' & _ & _ & _ & _ & Hfk & _).
      rewrite Hins, bind_Ok. exists s'. split_and!; [done|by eapply reachable_insert|].
      intros k'. rewrite first_value_app. cbn [first_value].
      destruct (Z.eqb_spec k k') as [<-|Hne].
      * rewrite Hfk. pose proof (find_absent s k ks HI Hks Hnin) as Hthrow.
        rewrite Hfind in Hthrow. by destruct (first_value k kvs).
      * destruct (insert_other_keys s s' k v k' true HI Hk Hins ltac:(congruence)) as [-> _].
        rewrite Hfind. by destruct (first_value k' kvs).
Qed.


(** ** The tail sentinels and the heights *)

Lemma returns_and {A : Type} (x : outcome A) (P Q : A → Prop) :
  returns x P → returns x Q → returns x (λ r, P r ∧ Q r).
Proof.
  intros (r & Hr & HP) (r' & Hr' & HQ). rewrite Hr in Hr'. injection Hr' as <-.
  by exists r.
Qed.

Lemma returns_ensures {A : Type} (x : outcome A) (P Q : A → Prop) :
  returns x P → ensures x Q → returns x (λ r, P r ∧ Q r).
Proof. intros (r & Hr & HP) HQ. exists r. split_and!; [done|done|by apply HQ]. Qed.

Lemma grow_tail (s : SkipList) :
  (top_l s < length (heap s))%nat → (top_tail s < length (heap s))%nat →
  top_l s ≠ top_tail s →
  returns (grow s) (λ s',
    down (node (heap s') (S (length (heap s)))) = Some (top_tail s)).
Proof.
  intros Hl Ht Hne. unfold grow, new. sl_fields.
  assert (length (heap s ++ [Node_sentinel]) = S (length (heap s))) as El.
  { rewrite length_app. simpl. lia. }
  wp_store. wp_store. wp_store. wp_store. wp_store. wp_store.
  apply returns_Ok. rewrite <- El. sl_fields. heap_simpl; simplify_eq; try done; try len_solve.
Qed.

Lemma row_keys_frame (h h' : list Node) (r : Row) :
  (∀ b, b ∈ rnodes r → nkey h' b = nkey h b) → row_keys h' r = row_keys h r.
Proof.
  intros Hk. unfold row_keys. apply list_fmap_ext. intros j b Hj. apply Hk.
  by eapply list_elem_of_lookup_2.
Qed.

Lemma key_in_lower_rows (s : SkipList) (g : list Row) (r0 : Row) :
  grid_ok s g → g !! 0%nat = Some r0 →
  ∀ j r x, g !! j = Some r → x ∈ row_keys (heap s) r → x ∈ row_keys (heap s) r0.
Proof.
  intros Hg H0. induction j as [|j IH]; intros r x Hj Hx.
  - rewrite H0 in Hj. by injection Hj as <-.
  - destruct (lookup_lt_is_Some_2 g j) as [lo Hlo].
    { apply lookup_lt_Some in Hj. lia. }
    apply list_elem_of_fmap in Hx as (a & -> & Ha).
    destruct (v_down _ _ _ (g_vert _ _ Hg _ _ _ Hlo Hj) a Ha) as (b & _ & Hb & Hkb & _).
    apply (IH lo); [done|]. rewrite <- Hkb. by apply list_elem_of_fmap_2.
Qed.

Lemma lookup_insert_rtail (g : list Row) (j : nat) (rj rj' : Row) (i : nat) (r : Row) :
  g !! j = Some rj → rtail rj' = rtail rj → <[j := rj']> g !! i = Some r →
  ∃ r', g !! i = Some r' ∧ rtail r = rtail r'.
Proof.
  intros Hj Ht Hi. destruct (decide (i = j)) as [->|Hne].
  - rewrite list_lookup_insert_eq in Hi by (by eapply lookup_lt_Some).
    injection Hi as <-. by exists rj.
  - rewrite list_lookup_insert_ne in Hi by done. by exists r.
Qed.

Lemma tails_ok_insert (h h' : list Node) (g : list Row) (j : nat) (rj rj' : Row) :
  tails_ok h g → g !! j = Some rj → rtail rj' = rtail rj →
  (∀ i r, g !! i = Some r → down (node h' (rtail r)) = down (node h (rtail r))) →
  tails_ok h' (<[j := rj']> g).
Proof.
  intros [Hb Hd] Hj Ht Hsame. split.
  - intros r0 H0. destruct (lookup_insert_rtail _ _ _ _ _ _ Hj Ht H0) as (r & Hr & ->).
    rewrite (Hsame _ _ Hr). by apply Hb.
  - intros i lo hi Hlo Hhi.
    destruct (lookup_insert_rtail _ _ _ _ _ _ Hj Ht Hlo) as (lo' & Hlo' & ->).
    destruct (lookup_insert_rtail _ _ _ _ _ _ Hj Ht Hhi) as (hi' & Hhi' & ->).
    rewrite (Hsame _ _ Hhi'). by eapply Hd.
Qed.

Lemma tails_ok_grown (s s' : SkipList) (g : list Row) :
  grid_ok s g → grown (heap s) (heap s') (top_l s) (top_tail s) →
  down (node (heap s') (S (length (heap s)))) = Some (top_tail s) →
  tails_ok (heap s) g → tails_ok (heap s') (g ++ [grown_row s]).
Proof.
  intros Hg Hgr Hnew [Hb Hd].
  destruct (g_top _ _ Hg) as (rt & Hl & Hh & Ht & Hn).
  apply last_Some in Hl as [g' E].
  assert (g !! length g' = Some rt) as Hrt by (rewrite E; by apply list_lookup_middle).
  assert (length g = S (length g')) as Hlen by (rewrite E, length_app; simpl; lia).
  assert (∀ i r, g !! i = Some r →
            down (node (heap s') (rtail r)) = down (node (heap s) (rtail r))) as Hsame.
  { intros i r Hi. apply (gr_down _ _ _ _ Hgr).
    eapply (grid_valid _ _ Hg _ _ _ Hi), rtail_rall. }
  split.
  - intros r0 H0. rewrite lookup_app_l in H0 by lia.
    rewrite (Hsame _ _ H0). by apply Hb.
  - intros i lo hi Hlo Hhi. destruct (decide (S i < length g)%nat) as [Hlt|Hge].
    + rewrite lookup_app_l in Hlo by lia. rewrite lookup_app_l in Hhi by lia.
      rewrite (Hsame _ _ Hhi). by eapply Hd.
    + assert (i = length g') as ->.
      { apply lookup_lt_Some in Hhi. rewrite length_app in Hhi. simpl in Hhi. lia. }
      rewrite lookup_app_l in Hlo by lia. rewrite Hrt in Hlo. injection Hlo as <-.
      rewrite <- Hlen in Hhi. rewrite list_lookup_middle in Hhi by done.
      injection Hhi as <-. unfold grown_row. cbn [rtail]. by rewrite Hnew, Ht.
Qed.

Lemma heights_ok_grown (s s' : SkipList) (g : list Row) :
  grid_ok s g → grown (heap s) (heap s') (top_l s) (top_tail s) →
  heights_ok (heap s) g → heights_ok (heap s') (g ++ [grown_row s]).
Proof.
  intros Hg Hgr Hh r0 b H0 Hb.
  destruct (g_top _ _ Hg) as (rt & Hl & _ & _ & Hn).
  apply last_Some in Hl as [g' E].
  assert (g !! length g' = Some rt) as Hrt by (rewrite E; by apply list_lookup_middle).
  assert (length g = S (length g')) as Hlen by (rewrite E, length_app; simpl; lia).
  rewrite lookup_app_l in H0 by lia.
  assert (∀ j r a, g !! j = Some r → a ∈ rnodes r →
            nkey (heap s') a = nkey (heap s) a) as Hkey.
  { intros j r a Hj Ha. unfold nkey. rewrite (gr_key _ _ _ _ Hgr); [done|].
    by eapply (grid_valid _ _ Hg _ _ _ Hj), rnodes_rall. }
  destruct (Hh r0 b H0 Hb) as (n & Hn1 & Hn2). exists n. split.
  - rewrite (gr_height _ _ _ _ Hgr); [done|].
    by eapply (grid_valid _ _ Hg _ _ _ H0), rnodes_rall.
  - intros j r Hj. rewrite (Hkey _ _ _ H0 Hb).
    destruct (decide (j < length g)%nat) as [Hlt|Hge].
    + rewrite lookup_app_l in Hj by done.
      rewrite (row_keys_frame (heap s)); [by apply Hn2|].
      intros a Ha. by eapply Hkey.
    + assert (j = length g) as ->.
      { apply lookup_lt_Some in Hj. rewrite length_app in Hj. simpl in Hj. lia. }
      rewrite list_lookup_middle in Hj by done. injection Hj as <-.
      unfold row_keys, grown_row. cbn [rnodes fmap list_fmap].
      pose proof (Hn2 _ _ Hrt) as Htop. unfold row_keys in Htop. rewrite Hn in Htop.
      cbn [fmap list_fmap] in Htop. rewrite elem_of_nil in Htop |- *.
      split; [done|]. intros Hlt. apply Htop. lia.
Qed.

Lemma heights_ok_splice (s : SkipList) (h' : list Node) (g : list Row) (j : nat)
    (rj rj' : Row) (m1 m2 : list addr) (k : Z) (c : addr) :
  grid_ok s g → heights_ok (heap s) g →
  g !! j = Some rj → rnodes rj = m1 ++ m2 →
  rnodes rj' = m1 ++ length (heap s) :: m2 →
  (∀ b, (b < length (heap s))%nat → nkey h' b = nkey (heap s) b) →
  nkey h' (length (heap s)) = k →
  (∀ b, (b < length (heap s))%nat → b ≠ c →
        height (node h' b) = height (node (heap s) b)) →
  height (node h' c) = Some (Z.of_nat (S j)) → nkey h' c = k →
  (∀ j' r, g !! j' = Some r → k ∈ row_keys (heap s) r ↔ (j' < j)%nat) →
  (∀ r0' b, <[j := rj']> g !! 0%nat = Some r0' → b ∈ rnodes r0' → b ≠ c →
     ∃ r0, g !! 0%nat = Some r0 ∧ b ∈ rnodes r0 ∧ nkey (heap s) b ≠ k) →
  heights_ok h' (<[j := rj']> g).
Proof.
  intros Hg Hh Hj E E' Hkey Hkx Hheight Hhc Hkc Hcol Hbot r0' b H0' Hb.
  assert (∀ j' r' kb, <[j := rj']> g !! j' = Some r' →
            ∃ r, g !! j' = Some r ∧
                 (kb ∈ row_keys h' r' ↔ (j' = j ∧ kb = k) ∨ kb ∈ row_keys (heap s) r)) as Hrows.
  { intros j' r' kb Hj'. destruct (decide (j' = j)) as [->|Hne].
    - rewrite list_lookup_insert_eq in Hj' by (by eapply lookup_lt_Some).
      injection Hj' as <-. exists rj. split; [done|].
      assert (∀ l : list nat, (∀ a, a ∈ l → a ∈ rnodes rj) →
                nkey h' <$> l = nkey (heap s) <$> l) as Hmap.
      { intros l Hin. apply list_fmap_ext. intros i a Hi. apply Hkey.
        eapply (grid_valid _ _ Hg _ _ _ Hj), rnodes_rall, Hin.
        by eapply list_elem_of_lookup_2. }
      unfold row_keys. rewrite E', E, !fmap_app, fmap_cons, Hkx.
      rewrite !Hmap by (intros a Ha; rewrite E, elem_of_app; tauto).
      rewrite !elem_of_app, elem_of_cons.
      split; [intros [?|[?|?]]; auto|intros [[_ ?]|[?|?]]; auto].
    - rewrite list_lookup_insert_ne in Hj' by done. exists r'. split; [done|].
      rewrite (row_keys_frame (heap s)).
      + split; [by right|intros [[? _]|?]; done].
      + intros a Ha. apply Hkey. by eapply (grid_valid _ _ Hg _ _ _ Hj'), rnodes_rall. }
  destruct (decide (b = c)) as [->|Hbc].
  - exists (S j). split; [done|]. intros j' r' Hj'. rewrite Hkc.
    destruct (Hrows j' r' k Hj') as (r & Hr & ->). rewrite (Hcol _ _ Hr).
    split; [intros [[-> _]|?]; lia|].
    intros Hlt. destruct (decide (j' = j)); [by left|right; lia].
  - destruct (Hbot r0' b H0' Hb Hbc) as (r0 & H0 & Hb0 & Hne).
    assert (b < length (heap s))%nat as Hv.
    { by eapply (grid_valid _ _ Hg _ _ _ H0), rnodes_rall. }
    destruct (Hh r0 b H0 Hb0) as (n & Hn1 & Hn2). exists n. split.
    + by rewrite Hheight.
    + intros j' r' Hj'. rewrite (Hkey b Hv).
      destruct (Hrows j' r' (nkey (heap s) b) Hj') as (r & Hr & ->).
      rewrite <- (Hn2 _ _ Hr). split; [intros [[_ ?]|?]; done|by right].
Qed.

(** The column of a node of the bottom layer, read off its height. *)
Lemma column_rows (s : SkipList) (g : list Row) (r0 : Row) (b : addr) (i : nat) :
  heights_ok (heap s) g → g !! 0%nat = Some r0 → b ∈ rnodes r0 →
  height (node (heap s) b) = Some (Z.of_nat i + 1) →
  ∀ j r, g !! j = Some r → nkey (heap s) b ∈ row_keys (heap s) r ↔ (j < S i)%nat.
Proof.
  intros Hh H0 Hb Hhb. destruct (Hh r0 b H0 Hb) as (n & Hn1 & Hn2).
  rewrite Hhb in Hn1. injection Hn1 as Hn1.
  assert (n = S i) as -> by lia. exact Hn2.
Qed.

Section promote_full_proof.
Context (k v max : Z) (newNode : addr) (r0 : Row).
Context (Hmax : max < 2 ^ 32).
Context (Hnew : newNode ∈ rnodes r0).

Lemma promote_full (gas : nat) :
  ∀ (s : SkipList) (g : list Row) (i : nat) (lo : Row) (l1 l2 : list addr)
    (cc : addr) (temp : option nat),
  grid_ok s g → g !! 0%nat = Some r0 → g !! i = Some lo → (S i < length g)%nat →
  rnodes lo = l1 ++ cc :: l2 →
  up (node (heap s) cc) = None → nkey (heap s) cc = k →
  (1 ≤ gas)%nat → max - Z.of_nat i - 2 < Z.of_nat gas →
  tails_ok (heap s) g → heights_ok (heap s) g →
  nkey (heap s) newNode = k → height (node (heap s) newNode) = Some (Z.of_nat i + 1) →
  returns (promote gas s k v max newNode (Z.of_nat i)
             (Some (List.last l1 (rhead lo))) temp)
          (promote_full_post k max newNode r0 i s).
Proof.
  induction gas as [|gas IH];
    intros s g i lo l1 l2 cc temp Hg H0 Hlo Hlt E Hupcc Hkcc Hgas1 Hgas Ht Hh Hkn Hhn;
    [lia|].
  cbn [promote]. pose proof (g_layers _ _ Hg) as HL.
  destruct (flipCoin k (Z.of_nat i) && (sl_layers s <? max)) eqn:Hguard.
  2:{ apply returns_Ok. exists g, 0%nat. rewrite Nat.add_0_r. split_and!; try done.
      - lia.
      - intros c Hc. lia.
      - apply andb_false_iff in Hguard as [Hf|Hl]; [by left|right].
        apply Z.ltb_ge in Hl. lia. }
  apply andb_prop in Hguard as [Hflip HLmax]. apply Z.ltb_lt in HLmax.
  rewrite (wrap32_small (Z.of_nat i + 1)) by lia.
  rewrite (wrap32_small (sl_layers s - 1)) by lia.
  assert (newNode < length (heap s))%nat as Hnv.
  { by eapply (grid_valid _ _ Hg _ _ _ H0), rnodes_rall. }
  assert (returns (if Z.of_nat i + 1 >=? sl_layers s - 1 then grow s else Ok s)
            (λ s1, ∃ g1, grid_ok s1 g1 ∧ g1 !! 0%nat = Some r0 ∧ g1 !! i = Some lo ∧
               (S (S i) < length g1)%nat ∧
               up (node (heap s1) cc) = None ∧ nkey (heap s1) cc = k ∧
               tails_ok (heap s1) g1 ∧ heights_ok (heap s1) g1 ∧
               nkey (heap s1) newNode = k ∧
               height (node (heap s1) newNode) = Some (Z.of_nat i + 1) ∧
               sl_layers s1 = Z.max (sl_layers s) (Z.of_nat i + 3))) as Hgrow.
  { destruct (Z.geb_spec (Z.of_nat i + 1) (sl_layers s - 1)) as [Hge|Hnge].
    - destruct (g_top _ _ Hg) as (rt & Hl & Hhd & Htl & Hn).
      apply last_Some in Hl as [g' Eg].
      assert (g !! length g' = Some rt) as Hrt by (rewrite Eg; by apply list_lookup_middle).
      pose proof (grid_row_NoDup _ _ Hg _ _ Hrt) as Hnd.
      assert (top_l s < length (heap s))%nat as Hv1.
      { rewrite <- Hhd. eapply (grid_valid _ _ Hg _ _ _ Hrt), rhead_rall. }
      assert (top_tail s < length (heap s))%nat as Hv2.
      { rewrite <- Htl. eapply (grid_valid _ _ Hg _ _ _ Hrt), rtail_rall. }
      assert (top_l s ≠ top_tail s) as Hv3.
      { rewrite <- Hhd, <- Htl. unfold rall in Hnd. rewrite Hn in Hnd.
        apply NoDup_cons in Hnd as [Hnd _]. intros Heq. apply Hnd. rewrite Heq. by left. }
      eapply returns_impl.
      { apply returns_and; [by apply grow_run|by apply grow_tail]. }
      intros s1 [(Hgr & Htl1 & Htt1 & Hbl & Hbt & Hly & Hsz) Hnewtail].
      rewrite wrap32_small in Hly by lia.
      exists (g ++ [grown_row s]). split_and!.
      + by eapply grown_grid_ok.
      + rewrite lookup_app_l; [done|lia].
      + rewrite lookup_app_l; [done|lia].
      + rewrite length_app. simpl. lia.
      + rewrite (grown_up_old _ _ _ Hg Hgr Htl1 Htt1 Hbl Hbt i lo); try done.
        apply rnodes_rall. rewrite E. apply elem_of_app. right. by left.
      + unfold nkey. rewrite (gr_key _ _ _ _ Hgr); [done|].
        eapply (grid_valid _ _ Hg _ _ _ Hlo), rnodes_rall. rewrite E.
        apply elem_of_app. right. by left.
      + by apply tails_ok_grown.
      + by apply heights_ok_grown.
      + unfold nkey. by rewrite (gr_key _ _ _ _ Hgr).
      + by rewrite (gr_height _ _ _ _ Hgr).
      + lia.
    - apply returns_Ok. exists g. split_and!; try done; lia. }
  eapply returns_bind; [exact Hgrow|]. clear Hgrow.
  intros s1 (g1 & Hg1 & H01 & Hlo1 & Hlt1 & Hupcc1 & Hkcc1 & Ht1 & Hh1 & Hkn1 & Hhn1 & HL1).
  destruct (lookup_lt_is_Some_2 g1 (S i)) as [hi Hhi]; [lia|].
  assert (newNode < length (heap s1))%nat as Hnv1.
  { by eapply (grid_valid _ _ Hg1 _ _ _ H01), rnodes_rall. }
  eapply returns_bind.
  { apply returns_ensures.
    - eapply (promote_once_spec s1 g1 Hg1 i lo hi Hlo1 Hhi Hlt1 r0 H01 k v newNode Hnew
               l1 l2 cc E Hupcc1 Hkcc1 (Z.of_nat i)); lia.
    - apply (promote_once_keeps (length (heap s1)) s1 s1). by apply keeps_refl. }
  intros [[[s2 cur'] pos'] temp'].
  intros [(m1 & m2 & -> & -> & Em & -> & Hg2 & Hupx & Hkx & Hpr2 & HL2 & Hh2) Hkeep].
  set (x := length (heap s1)) in *.
  set (row' := mkRow (rhead hi) (m1 ++ x :: m2) (rtail hi)) in *.
  assert (Z.of_nat i + 1 = Z.of_nat (S i)) as -> by lia.
  assert (tails_ok (heap s2) (<[S i := row']> g1)) as Ht2.
  { eapply (tails_ok_insert (heap s1)); [done|done|done|].
    intros j r Hj. eapply keeps_fields; [done|].
    eapply (grid_valid _ _ Hg1 _ _ _ Hj), rtail_rall. }
  assert (nkey (heap s2) newNode = k) as Hkn2.
  { by rewrite (preserved_nkey _ _ _ Hpr2 Hnv1). }
  assert (heights_ok (heap s2) (<[S i := row']> g1)) as Hh2'.
  { eapply (heights_ok_splice s1 (heap s2) g1 (S i) hi row' m1 m2 k newNode); try done.
    - intros b Hb. by apply preserved_nkey.
    - intros b Hb Hne. by apply (kp_height _ _ _ _ Hkeep).
    - rewrite Hh2. f_equal. lia.
    - rewrite <- Hkn1. by apply (column_rows s1 g1 r0 newNode i).
    - intros r0' b H0' Hb Hne. rewrite list_lookup_insert_ne in H0' by lia.
      rewrite H01 in H0'. injection H0' as <-. exists r0. split_and!; [done|done|].
      intros Hkb. apply Hne.
      eapply (sorted_key_inj (nkey (heap s1)) (rnodes r0)); [|done|done|congruence].
      apply (row_sorted _ _ (grid_row_ok _ _ Hg1 _ _ H01)). }
  eapply returns_impl.
  { eapply (IH s2 (<[S i := row']> g1) (S i) row' m1 m2 x (Some x)); try done.
    - rewrite list_lookup_insert_ne; [done|lia].
    - rewrite list_lookup_insert_eq; [done|lia].
    - rewrite length_insert. lia.
    - lia.
    - lia.
    - rewrite Hh2. f_equal. lia. }
  intros s' (g' & t & Hg' & H0' & Ht' & Hh' & HL' & Hhn' & Hflips & Hstop).
  exists g', (S t). replace (i + S t)%nat with (S i + t)%nat by lia.
  split_and!; try done.
  - lia.
  - intros c Hc. destruct (decide (c = Z.of_nat i)) as [->|Hne]; [done|].
    apply Hflips. lia.
Qed.
End promote_full_proof.

Lemma insert_at_full (s : SkipList) (g : list Row) (r0 : Row) (k v : Z)
    (l1 l2 : list addr) :
  wf s g r0 → tails_ok (heap s) g → heights_ok (heap s) g →
  key_in_range k → rnodes r0 = l1 ++ l2 →
  Forall (λ b, nkey (heap s) b < k) l1 → Forall (λ b, k < nkey (heap s) b) l2 →
  returns (insert_at k v (Some (List.last l1 (rhead r0))) s)
          (inserted_full s r0 k l1 l2).
Proof.
  intros Hwf Ht Hh Hk E Hl1 Hl2. pose proof (wf_size_bound _ _ _ Hwf) as Hszb.
  destruct Hwf as [Hg H0 Hsz Hrange Hlay].
  pose proof (grid_row_ok _ _ Hg _ _ H0) as Hr0.
  pose proof (g_two _ _ Hg) as Htwo.
  pose proof (insert_max_bounds _ Hszb) as Hmaxb.
  set (x := length (heap s)).
  set (r0' := mkRow (rhead r0) (l1 ++ x :: l2) (rtail r0)).
  assert (List.last l1 (rhead r0) ∈ rall r0) as Hp by by eapply splice_p_rall.
  assert (List.hd (rtail r0) l2 ∈ rall r0) as Hq by by eapply splice_q_rall.
  unfold insert_at. eapply returns_bind.
  { eapply (link_bottom_spec s k v (List.last l1 (rhead r0)) (List.hd (rtail r0) l2)).
    - by eapply (grid_valid _ _ Hg _ _ _ H0).
    - by eapply (grid_valid _ _ Hg _ _ _ H0).
    - intros Heq. eapply (splice_sides_disjoint _ _ Hg _ _ H0 _ _ E).
      + apply last_in.
      + rewrite Heq. apply hd_in.
    - by apply row_next_split. }
  intros [x' s1] (-> & Hsp & Hh1 & Hhold & Hbl & Hbt & Htl & Htt & Hly & Hsz1).
  fold x. cbv zeta.
  assert (grid_ok s1 (<[0%nat := r0']> g)) as Hg1.
  { eapply (spliced_grid_ok s s1 g Hg 0 r0 H0 ltac:(lia) l1 l2 E k v Hl1 Hl2 None);
      done. }
  assert (nkey (heap s1) x = k) as Hkx.
  { unfold nkey, x. by rewrite (sp_new_key _ _ _ _ _ _ _ _ Hsp). }
  assert (tails_ok (heap s1) (<[0%nat := r0']> g)) as Ht1.
  { eapply (tails_ok_insert (heap s)); [done|done|done|].
    intros j r Hj. apply (sp_down _ _ _ _ _ _ _ _ Hsp).
    eapply (grid_valid _ _ Hg _ _ _ Hj), rtail_rall. }
  assert (k ∉ row_keys (heap s) r0) as Hfresh.
  { unfold row_keys. rewrite E, fmap_app, elem_of_app. rewrite Forall_forall in Hl1, Hl2.
    intros [Hin|Hin]; apply list_elem_of_fmap in Hin as (b & Hkb & Hb);
      [pose proof (Hl1 b Hb)|pose proof (Hl2 b Hb)]; lia. }
  assert (heights_ok (heap s1) (<[0%nat := r0']> g)) as Hh1'.
  { eapply (heights_ok_splice s (heap s1) g 0 r0 r0' l1 l2 k x); try done.
    - intros b Hb. unfold nkey. by rewrite (sp_key _ _ _ _ _ _ _ _ Hsp).
    - intros b Hb _. by apply Hhold.
    - intros j r Hj. split; [|lia]. intros Hin. exfalso. apply Hfresh.
      by eapply (key_in_lower_rows s g r0 Hg H0 j r).
    - intros r' b Hr' Hb Hne. rewrite list_lookup_insert_eq in Hr' by lia.
      injection Hr' as <-. cbn [rnodes r0'] in Hb.
      assert (b ∈ rnodes r0) as Hb0.
      { rewrite E. rewrite elem_of_app, elem_of_cons in Hb. rewrite elem_of_app. tauto. }
      exists r0. split_and!; [done|done|]. intros Hkb. apply Hfresh. rewrite <- Hkb.
      by apply list_elem_of_fmap_2. }
  eapply returns_bind.
  { eapply (promote_full k v (insert_max (sl_size s1)) x r0' ltac:(rewrite Hsz1; lia)
              ltac:(simpl; apply elem_of_app; right; by left)
              (Z.to_nat (insert_max (sl_size s1))) s1 (<[0%nat := r0']> g) 0 r0' l1 l2 x (Some x));
      try done.
    - rewrite list_lookup_insert_eq; [done|lia].
    - rewrite list_lookup_insert_eq; [done|lia].
    - rewrite length_insert. lia.
    - apply (sp_new_up _ _ _ _ _ _ _ _ Hsp).
    - rewrite Hsz1. lia.
    - rewrite Hsz1. lia. }
  intros s2 (g2 & t & Hg2 & H02 & Ht2 & Hh2 & HL2 & Hhx & Hflips & Hstop).
  apply returns_Ok. exists g2, t. rewrite Hsz1, Hly in *.
  cbn [heap sl_size sl_layers set_sl_size]. cbn [Nat.add] in *.
  split_and!; try done. by apply grid_ok_set_sl_size.
Qed.

Lemma insert_run_full (s : SkipList) (g : list Row) (r0 : Row) (k v : Z) :
  wf s g r0 → tails_ok (heap s) g → heights_ok (heap s) g → key_in_range k →
  k ∉ (nkey (heap s) <$> rnodes r0) →
  ∃ l1 l2, returns (insert k v s)
             (λ res, inserted s r0 k v l1 l2 res ∧ inserted_full s r0 k l1 l2 res).
Proof.
  intros Hwf Ht Hh Hk Hnin. pose proof Hwf as [Hg H0 Hsz Hrange Hlay]. unfold insert.
  destruct (Z.eqb_spec (sl_size s) 0) as [Hz|Hnz].
  - assert (rnodes r0 = []) as Hnil.
    { apply length_zero_iff_nil. lia. }
    exists [], []. rewrite (bottom_l_eq _ _ Hg _ H0). apply returns_and.
    + eapply returns_impl; [by apply (insert_at_spec s g r0 k v [] [])|].
      by intros [b s'].
    + by apply (insert_at_full s g r0 k v [] []).
  - assert (rnodes r0 ≠ []) as Hne.
    { intros Hnil. rewrite Hnil in Hsz. simpl in Hsz. lia. }
    destruct (search_absent _ _ Hg _ H0 k Hne Hnin) as (l1 & l2 & E & Hrun & Hl1 & Hl2).
    exists l1, l2. rewrite Hrun, bind_Ok. apply returns_and.
    + eapply returns_impl; [by apply (insert_at_spec s g r0 k v l1 l2)|].
      by intros [b s'].
    + by apply (insert_at_full s g r0 k v l1 l2).
Qed.

Lemma Inv_full_Inv (s : SkipList) : Inv_full s → Inv s.
Proof. intros (g & r0 & Hwf & _). by exists g, r0. Qed.

Lemma insert_absent_full (s : SkipList) (k v : Z) (ks : list Z) :
  Inv_full s → key_in_range k → allKeysInOrder s = Ok ks → k ∉ ks →
  ∃ s' (t : nat), insert k v s = Ok (true, s') ∧ Inv_full s' ∧
    heightOf k s' = Ok (Z.of_nat t + 1) ∧
    numLayers s' = Z.max (numLayers s) (Z.of_nat t + 2) ∧
    (∀ c, 0 ≤ c < Z.of_nat t → flipCoin k c = true) ∧
    (flipCoin k (Z.of_nat t) = false ∨ insert_max (size s) ≤ numLayers s').
Proof.
  intros (g & r0 & Hwf & Ht & Hh) Hk Hks Hnin.
  rewrite (observe_keys _ _ _ Hwf) in Hks. injection Hks as <-.
  destruct (insert_run_full s g r0 k v Hwf Ht Hh Hk Hnin)
    as (l1 & l2 & [b s'] & Hrun & Hpost & Hfull).
  destruct Hpost as (-> & g' & Hwf' & _ & Hkx & _).
  destruct Hfull as (g2 & t & Hg2 & H02 & Ht2 & Hh2 & HL & Hhx & Hflips & Hstop).
  set (r0' := mkRow (rhead r0) (l1 ++ length (heap s) :: l2) (rtail r0)) in *.
  assert (wf s' g2 r0') as Hwf2.
  { split; [done|done|apply (wf_size _ _ _ Hwf')|apply (wf_range _ _ _ Hwf')
           |apply (wf_layers _ _ _ Hwf')]. }
  exists s', t. split_and!; try done.
  - by exists g2, r0'.
  - destruct (present_queries s' g2 r0' (length (heap s)) Hwf2) as (_ & _ & Hq).
    { cbn [rnodes r0']. apply elem_of_app. right. by left. }
    rewrite Hkx in Hq. by rewrite Hq, Hhx.
Qed.

Lemma Inv_full_new : Inv_full SkipList_new.
Proof.
  exists new_grid, (mkRow 2 [] 3). split_and!; [apply new_wf| |].
  - split.
    + intros r0 [= <-]. done.
    + intros i lo hi Hlo Hhi. destruct i as [|[|i]]; simpl in Hlo, Hhi; by simplify_eq.
  - intros r0 b [= <-] Hb. by apply elem_of_nil in Hb.
Qed.

Lemma Inv_full_insert (s s' : SkipList) (k v : Z) (b : bool) :
  Inv_full s → key_in_range k → insert k v s = Ok (b, s') → Inv_full s'.
Proof.
  intros HI Hk Hrun. pose proof (Inv_full_Inv s HI) as HI0.
  destruct (Inv_keys s HI0) as (ks & Hks & _).
  destruct (decide (k ∈ ks)) as [Hin|Hnin].
  - rewrite (insert_present s k v ks HI0 Hk Hks Hin) in Hrun. by injection Hrun as _ <-.
  - destruct (insert_absent_full s k v ks HI Hk Hks Hnin) as (s1 & t & Hrun' & HI' & _).
    rewrite Hrun in Hrun'. by injection Hrun' as _ ->.
Qed.

Lemma reachable_Inv_full (s : SkipList) : reachable s → Inv_full s.
Proof.
  induction 1 as [|s s' k v b _ IH Hk Hrun]; [apply Inv_full_new|].
  by eapply Inv_full_insert.
Qed.

(** ** The destructor *)

Lemma rd_live_ok {A : Type} (s : SkipList) (freed : list addr) (a : addr) (f : Node → A) :
  a ∉ freed → (a < length (heap s))%nat →
  rd_live s freed (Some a) f = Ok (f (node (heap s) a)).
Proof. intros Hf Ha. unfold rd_live. rewrite bool_decide_false by done. by apply rd_ok. Qed.

Lemma delete_ok (s : SkipList) (freed : list addr) (a : addr) :
  a ∉ freed → (a < length (heap s))%nat → delete s freed (Some a) = Ok (a :: freed).
Proof.
  intros Hf Ha. unfold delete. rewrite bool_decide_false by done.
  by rewrite bool_decide_true.
Qed.

Lemma elem_of_rev {A : Type} (x : A) (l : list A) : x ∈ rev l ↔ x ∈ l.
Proof. rewrite !list_elem_of_In. symmetry. apply in_rev. Qed.

Lemma concat_take_S (f : Row → list nat) (g : list Row) (j : nat) (r : Row) :
  g !! j = Some r →
  concat (f <$> take (S j) g) = concat (f <$> take j g) ++ f r.
Proof.
  intros Hj. rewrite (take_S_r _ _ _ Hj), fmap_app, concat_app.
  rewrite list_fmap_singleton. cbn [concat]. by rewrite app_nil_r.
Qed.

Lemma elem_of_concat_rows (f : Row → list nat) (g : list Row) (a : nat) :
  a ∈ concat (f <$> g) → ∃ i r, g !! i = Some r ∧ a ∈ f r.
Proof.
  induction g as [|r g IH]; [intros Hin; by apply elem_of_nil in Hin|].
  rewrite fmap_cons. cbn [concat]. rewrite elem_of_app. intros [Hin|Hin].
  - by exists 0%nat, r.
  - destruct (IH Hin) as (i & r' & Hi & Ha). by exists (S i), r'.
Qed.

Lemma row_ends_rall (r : Row) (a : nat) : a ∈ row_ends r → a ∈ rall r.
Proof.
  unfold row_ends. rewrite elem_of_cons, list_elem_of_singleton.
  intros [->| ->]; [apply rhead_rall|apply rtail_rall].
Qed.

Lemma row_ends_not_nodes (r : Row) (a : nat) :
  NoDup (rall r) → a ∈ row_ends r → a ∉ rnodes r.
Proof.
  unfold rall, row_ends. intros Hnd Ha Hin.
  apply NoDup_cons in Hnd as [Hh Hnd]. apply NoDup_app in Hnd as (_ & Hdis & _).
  rewrite elem_of_cons, list_elem_of_singleton in Ha. destruct Ha as [->| ->].
  - apply Hh. apply elem_of_app. by left.
  - apply (Hdis _ Hin). by left.
Qed.

Lemma rows_weight_ge_length (g : list Row) : (length g ≤ rows_weight g)%nat.
Proof. induction g as [|r g IH]; simpl; lia. Qed.

Lemma rall_ends_nodes (g : list Row) :
  concat (rall <$> g) ≡ₚ concat (row_ends <$> g) ++ concat (rnodes <$> g).
Proof.
  induction g as [|r g IH]; [done|]. rewrite !fmap_cons. cbn [concat].
  rewrite IH. unfold rall, row_ends. cbn [app]. apply perm_skip.
  rewrite <- app_assoc. cbn [app]. rewrite <- Permutation_middle. apply perm_skip.
  rewrite !app_assoc. apply Permutation_app_tail, Permutation_app_comm.
Qed.

Section destructor_proof.
Context (s : SkipList) (g : list Row) (Hg : grid_ok s g).
Context (Ht : tails_ok (heap s) g).

Local Abbreviation h := (heap s).

Lemma delete_row_spec (r : Row) (i : nat) (F : list addr) (l2 : list addr) :
  ∀ (l1 : list addr) (gas : nat),
    g !! i = Some r → rnodes r = l1 ++ l2 → (∀ a, a ∈ rall r → a ∉ F) →
    (length l2 < gas)%nat →
    delete_row gas s (rev l1 ++ F) (Some (List.hd (rtail r) l2))
    = Ok (rev (l1 ++ l2) ++ F).
Proof.
  induction l2 as [|a l2 IH]; intros l1 gas Hi E HF Hgas;
    (destruct gas as [|gas]; [simpl in Hgas; lia|]); cbn [delete_row List.hd].
  - pose proof (grid_row_NoDup _ _ Hg _ _ Hi) as Hnd. unfold rall in Hnd.
    rewrite E, app_nil_r in Hnd. apply NoDup_cons in Hnd as [_ Hnd].
    apply NoDup_app in Hnd as (_ & Hdis & _).
    rewrite (rd_live_ok _ _ _ sentinel), bind_Ok.
    + rewrite (row_tail _ _ (grid_row_ok _ _ Hg _ _ Hi)). by rewrite app_nil_r.
    + rewrite elem_of_app, elem_of_rev. intros [Hin|Hin].
      * apply (Hdis _ Hin). by left.
      * by apply (HF (rtail r) (rtail_rall r)).
    + eapply (grid_valid _ _ Hg _ _ _ Hi), rtail_rall.
  - assert (a ∈ rnodes r) as Ha by (rewrite E; apply elem_of_app; right; by left).
    assert (a < length h)%nat as Hv by by eapply (grid_valid _ _ Hg _ _ _ Hi), rnodes_rall.
    assert (a ∉ rev l1 ++ F) as Hfresh.
    { rewrite elem_of_app, elem_of_rev. intros [Hin|Hin].
      - pose proof (grid_row_NoDup _ _ Hg _ _ Hi) as Hnd. unfold rall in Hnd.
        rewrite E in Hnd. apply NoDup_cons in Hnd as [_ Hnd].
        rewrite <- app_assoc in Hnd. apply NoDup_app in Hnd as (_ & Hdis & _).
        apply (Hdis _ Hin). by left.
      - by apply (HF a (rnodes_rall _ _ Ha)). }
    destruct (row_at _ _ (grid_row_ok _ _ Hg _ _ Hi) l1 l2 a E) as (Hsen & _ & _ & Hn & _).
    rewrite (rd_live_ok _ _ _ sentinel), bind_Ok by done. rewrite Hsen.
    rewrite (rd_live_ok _ _ _ next), bind_Ok by done. rewrite Hn.
    rewrite delete_ok, bind_Ok by done.
    replace (a :: rev l1 ++ F) with (rev (l1 ++ [a]) ++ F) by (by rewrite rev_app_distr).
    rewrite (IH (l1 ++ [a]) gas Hi); [|by rewrite <- app_assoc|done|simpl in Hgas; lia].
    by rewrite <- app_assoc.
Qed.

Lemma delete_rows_step (j : nat) (rj : Row) (F : list addr) (gas : nat) :
  g !! j = Some rj → (∀ a, a ∈ rall rj → a ∉ F) →
  delete_rows (S gas) s F (Some (rhead rj))
  = delete_rows gas s (rev (rnodes rj) ++ F) (down (node h (rhead rj))).
Proof.
  intros Hj HF. cbn [delete_rows].
  pose proof (grid_row_ok _ _ Hg _ _ Hj) as Hr.
  pose proof (grid_row_NoDup _ _ Hg _ _ Hj) as Hnd.
  assert (∀ a, a ∈ rall rj → (a < length h)%nat) as Hv.
  { intros a Ha. by eapply (grid_valid _ _ Hg _ _ _ Hj). }
  pose proof (HF _ (rhead_rall rj)) as HhF. pose proof (Hv _ (rhead_rall rj)) as Hvh.
  rewrite (rd_live_ok _ _ _ next) by done. rewrite !bind_Ok.
  rewrite (row_head_next _ _ Hr).
  destruct (rnodes rj) as [|a l] eqn:E; cbn [List.hd].
  - cbn [rev app]. rewrite (rd_live_ok _ _ _ sentinel), bind_Ok
      by (by apply HF, rtail_rall || by apply Hv, rtail_rall).
    rewrite (row_tail _ _ Hr). by rewrite (rd_live_ok _ _ _ down), bind_Ok.
  - assert (a ∈ rall rj) as Ha by (apply rnodes_rall; rewrite E; by left).
    rewrite (rd_live_ok _ _ _ sentinel), bind_Ok by (by apply HF || by apply Hv).
    destruct (row_at _ _ Hr [] l a E) as (-> & _).
    pose proof (delete_row_spec rj j F (a :: l) [] (fuel s) Hj E HF) as Hrow.
    change (rev [] ++ F) with F in Hrow. cbn [app List.hd] in Hrow. rewrite Hrow.
    2:{ rewrite (fuel_eq _ _ Hg). pose proof (rows_weight_lookup _ _ _ Hj) as Hw.
        rewrite E in Hw. lia. }
    rewrite bind_Ok. rewrite (rd_live_ok _ _ _ down), bind_Ok; [done| |done].
    rewrite elem_of_app, elem_of_rev. intros [Hin|Hin]; [|done].
    unfold rall in Hnd. rewrite E in Hnd. apply NoDup_cons in Hnd as [Hnd _].
    apply Hnd. apply elem_of_app. by left.
Qed.

Lemma delete_rows_spec (j : nat) :
  ∀ (rj : Row) (F : list addr) (gas : nat),
    g !! j = Some rj →
    (∀ i r a, g !! i = Some r → (i ≤ j)%nat → a ∈ rall r → a ∉ F) →
    (S j < gas)%nat →
    ∃ F', delete_rows gas s F (Some (rhead rj)) = Ok F' ∧
          F' ≡ₚ concat (rnodes <$> take (S j) g) ++ F.
Proof.
  induction j as [|j IH]; intros rj F gas Hj HF Hgas;
    (destruct gas as [|gas]; [lia|]);
    (rewrite (delete_rows_step _ rj F gas Hj);
       [|intros a Ha; eapply (HF _ rj a); [done|lia|done]]).
  - destruct (g_bottom _ _ Hg) as (r0 & H0 & _ & _ & Hd & _).
    rewrite Hj in H0. injection H0 as <-. rewrite Hd.
    destruct gas as [|gas]; [lia|]. cbn [delete_rows]. eexists. split; [done|].
    rewrite (concat_take_S _ _ _ _ Hj). rewrite take_0.
    apply Permutation_app_tail. symmetry. apply Permutation_rev.
  - destruct (lookup_lt_is_Some_2 g j) as [lo Hlo].
    { apply lookup_lt_Some in Hj. lia. }
    rewrite (v_head_down _ _ _ (g_vert _ _ Hg _ _ _ Hlo Hj)).
    destruct (IH lo (rev (rnodes rj) ++ F) gas Hlo) as (F' & Hrun & Hperm); [|lia|].
    { intros i r a Hi Hle Ha. rewrite elem_of_app, elem_of_rev. intros [Hin|Hin].
      - assert (i = S j); [|lia].
        eapply (grid_rows_disjoint _ _ Hg _ _ r rj a); [done|done|done|].
        by apply rnodes_rall.
      - eapply (HF i r a); [done|lia|done|done]. }
    exists F'. split; [done|]. rewrite Hperm.
    rewrite (concat_take_S _ _ (S j) _ Hj), <- app_assoc.
    apply Permutation_app_head, Permutation_app_tail. symmetry. apply Permutation_rev.
Qed.
Lemma delete_sentinels_spec (j : nat) :
  ∀ (rj : Row) (F : list addr) (gas : nat),
    g !! j = Some rj →
    (∀ i r a, g !! i = Some r → (i ≤ j)%nat → a ∈ row_ends r → a ∉ F) →
    (S j < gas)%nat →
    ∃ F', delete_sentinels gas s F (Some (rhead rj)) (Some (rtail rj)) = Ok F' ∧
          F' ≡ₚ concat (row_ends <$> take (S j) g) ++ F.
Proof.
  induction j as [|j IH]; intros rj F gas Hj HF Hgas;
    (destruct gas as [|gas]; [lia|]); cbn [delete_sentinels]; cbv zeta.
  all: pose proof (grid_row_NoDup _ _ Hg _ _ Hj) as Hnd.
  all: assert (rhead rj ∉ F) as HhF by (eapply (HF _ rj); [done|lia|by left]).
  all: assert (rtail rj ∉ F) as HtF by (eapply (HF _ rj); [done|lia|right; by left]).
  all: assert (rhead rj < length h)%nat as Hvh
         by (eapply (grid_valid _ _ Hg _ _ _ Hj), rhead_rall).
  all: assert (rtail rj < length h)%nat as Hvt
         by (eapply (grid_valid _ _ Hg _ _ _ Hj), rtail_rall).
  all: assert (rtail rj ∉ rhead rj :: F) as HtF'
         by (rewrite not_elem_of_cons; split; [|done]; intros Heq;
             unfold rall in Hnd; apply NoDup_cons in Hnd as [Hnd _]; apply Hnd;
             rewrite <- Heq; apply elem_of_app; right; by left).
  all: rewrite (rd_live_ok _ _ (rhead rj) down), bind_Ok by done.
  all: rewrite (rd_live_ok _ _ (rtail rj) down), bind_Ok by done.
  all: rewrite (delete_ok _ _ (rhead rj)), bind_Ok by done.
  all: rewrite (delete_ok _ _ (rtail rj)), bind_Ok by done.
  - destruct (g_bottom _ _ Hg) as (r0 & H0 & _ & _ & Hd & _).
    rewrite Hj in H0. injection H0 as <-. rewrite Hd.
    destruct gas as [|gas]; [lia|]. cbn [delete_sentinels]. eexists. split; [done|].
    rewrite (concat_take_S _ _ _ _ Hj), take_0. unfold row_ends. cbn [fmap list_fmap concat app].
    apply perm_swap.
  - destruct (lookup_lt_is_Some_2 g j) as [lo Hlo].
    { apply lookup_lt_Some in Hj. lia. }
    rewrite (v_head_down _ _ _ (g_vert _ _ Hg _ _ _ Hlo Hj)).
    rewrite (t_down _ _ Ht _ _ _ Hlo Hj).
    destruct (IH lo (rtail rj :: rhead rj :: F) gas Hlo) as (F' & Hrun & Hperm); [|lia|].
    { intros i r a Hi Hle Ha. rewrite !not_elem_of_cons. split_and!.
      - intros ->. assert (i = S j); [|lia].
        eapply (grid_rows_disjoint _ _ Hg _ _ r rj (rtail rj));
          [done|done|by apply row_ends_rall|apply rtail_rall].
      - intros ->. assert (i = S j); [|lia].
        eapply (grid_rows_disjoint _ _ Hg _ _ r rj (rhead rj));
          [done|done|by apply row_ends_rall|apply rhead_rall].
      - eapply (HF i r a); [done|lia|done]. }
    exists F'. split; [done|]. rewrite Hperm.
    rewrite (concat_take_S _ _ (S j) _ Hj), <- app_assoc.
    apply Permutation_app_head. unfold row_ends. cbn [app]. apply perm_swap.
Qed.

Lemma destructor_spec :
  ∃ F, SkipList_destructor s = Ok F ∧ F ≡ₚ seq 0 (length h).
Proof.
  destruct (g_top _ _ Hg) as (rt & Hl & Hhd & Htl & Hn).
  apply last_Some in Hl as [g' E].
  assert (g !! length g' = Some rt) as Hrt by (rewrite E; by apply list_lookup_middle).
  assert (length g = S (length g')) as Hlen by (rewrite E, length_app; simpl; lia).
  pose proof (rows_weight_ge_length g) as Hw. pose proof (g_two _ _ Hg) as Htwo.
  unfold SkipList_destructor. rewrite <- Hhd, <- Htl.
  destruct (delete_rows_spec (length g') rt [] (fuel s) Hrt) as (F1 & Hrun1 & Hp1).
  { intros i r a _ _ _ Hin. by apply elem_of_nil in Hin. }
  { rewrite (fuel_eq _ _ Hg). lia. }
  rewrite Hrun1, bind_Ok. rewrite <- Hlen, take_ge, app_nil_r in Hp1 by done.
  destruct (delete_sentinels_spec (length g') rt F1 (fuel s) Hrt) as (F2 & Hrun2 & Hp2).
  { intros i r a Hi _ Ha Hin. rewrite Hp1 in Hin.
    apply elem_of_concat_rows in Hin as (i' & r' & Hi' & Ha').
    assert (i = i') as <-.
    { eapply (grid_rows_disjoint _ _ Hg _ _ r r' a);
        [done|done|by apply row_ends_rall|by apply rnodes_rall]. }
    rewrite Hi in Hi'. injection Hi' as <-.
    by apply (row_ends_not_nodes r a (grid_row_NoDup _ _ Hg _ _ Hi)). }
  { rewrite (fuel_eq _ _ Hg). lia. }
  exists F2. split; [done|].
  rewrite <- Hlen, take_ge in Hp2 by done.
  by rewrite Hp2, Hp1, <- rall_ends_nodes, (g_perm _ _ Hg).
Qed.
End destructor_proof.

(** ** The height of a column *)

Lemma column_bound (s : SkipList) (g : list Row) (kb : Z) (n : nat) :
  grid_ok s g →
  (∀ j r, g !! j = Some r → kb ∈ row_keys (heap s) r ↔ (j < n)%nat) →
  (S n ≤ length g)%nat.
Proof.
  intros Hg Hcol. destruct (g_top _ _ Hg) as (rt & Hl & _ & _ & Hn).
  apply last_Some in Hl as [g' E].
  assert (g !! length g' = Some rt) as Hrt by (rewrite E; by apply list_lookup_middle).
  assert (length g = S (length g')) as Hlen by (rewrite E, length_app; simpl; lia).
  pose proof (Hcol _ _ Hrt) as Htop. unfold row_keys in Htop. rewrite Hn in Htop.
  cbn [fmap list_fmap] in Htop. rewrite elem_of_nil in Htop.
  destruct (decide (length g' < n)%nat) as [Hlt|Hge]; [tauto|lia].
Qed.

Lemma column_height_spec (s : SkipList) (g : list Row) (kb : Z) (n : nat) :
  grid_ok s g →
  (∀ j r, g !! j = Some r → kb ∈ row_keys (heap s) r ↔ (j < n)%nat) →
  ∀ (gas j : nat) (r : Row) (b : addr),
    g !! j = Some r → b ∈ rnodes r → nkey (heap s) b = kb → (n - j ≤ gas)%nat →
    column_height gas s (Some b) = Ok (Z.of_nat (n - j)).
Proof.
  intros Hg Hcol. pose proof (column_bound s g kb n Hg Hcol) as Hn.
  induction gas as [|gas IH]; intros j r b Hj Hb Hkb Hgas.
  all: assert (j < n)%nat as Hjn
         by (apply (Hcol j r Hj); rewrite <- Hkb; by apply list_elem_of_fmap_2).
  { lia. }
  cbn [column_height].
  rewrite rd_ok, bind_Ok by by eapply (grid_valid _ _ Hg _ _ _ Hj), rnodes_rall.
  destruct (lookup_lt_is_Some_2 g (S j)) as [hi Hhi]; [lia|].
  pose proof (g_vert _ _ Hg _ _ _ Hj Hhi) as Hv.
  destruct (decide (S j < n)%nat) as [Hlt|Hge].
  - apply (Hcol _ _ Hhi) in Hlt. apply list_elem_of_fmap in Hlt as (a & Hka & Ha).
    destruct (v_down _ _ _ Hv a Ha) as (b' & _ & Hb' & Hkb' & Hup).
    assert (b' = b) as ->.
    { eapply (sorted_key_inj (nkey (heap s)) (rnodes r)); [|done|done|congruence].
      apply (row_sorted _ _ (grid_row_ok _ _ Hg _ _ Hj)). }
    rewrite Hup. rewrite (IH (S j) hi a Hhi Ha); [|done|lia].
    rewrite bind_Ok. f_equal. lia.
  - destruct (up (node (heap s) b)) as [a|] eqn:Hup.
    + destruct (v_up _ _ _ Hv b a Hb Hup) as [Ha Hka]. exfalso. apply Hge.
      apply (Hcol _ _ Hhi). rewrite <- Hkb, <- Hka. by apply list_elem_of_fmap_2.
    + f_equal. lia.
Qed.

Lemma present_height (s : SkipList) (g : list Row) (r0 : Row) (b : addr) :
  wf s g r0 → heights_ok (heap s) g → b ∈ rnodes r0 →
  ∃ h, heightOf (nkey (heap s) b) s = Ok h ∧
       column_height (fuel s) s (Some b) = Ok h ∧ 1 ≤ h ≤ sl_layers s - 1.
Proof.
  intros Hwf Hh Hb. pose proof (wf_grid _ _ _ Hwf) as Hg.
  pose proof (wf_bottom _ _ _ Hwf) as H0.
  destruct (Hh r0 b H0 Hb) as (n & Hn1 & Hn2).
  pose proof (column_bound s g _ n Hg Hn2) as Hn.
  assert (0 < n)%nat as Hpos.
  { apply (Hn2 _ _ H0). by apply list_elem_of_fmap_2. }
  exists (Z.of_nat n). split_and!.
  - destruct (present_queries s g r0 b Hwf Hb) as (_ & _ & ->). by rewrite Hn1.
  - rewrite (column_height_spec s g _ n Hg Hn2 (fuel s) 0 r0 b H0 Hb eq_refl).
    + f_equal. lia.
    + rewrite (fuel_eq _ _ Hg). lia.
  - lia.
  - rewrite (g_layers _ _ Hg). lia.
Qed.

(** ** The extremal keys and the neighbours *)

Lemma last_cons_fmap (f : nat → Z) (l : list nat) :
  ∀ a d, List.last (a :: l) d ∈ a :: l ∧
         f (List.last (a :: l) d) = List.last (f <$> l) (f a).
Proof.
  induction l as [|c l IH]; intros a d.
  - cbn [List.last fmap list_fmap]. split; [by left|done].
  - destruct (IH c a) as [Hin Heq]. rewrite last_cons_default. split; [by right|].
    by rewrite fmap_cons, (last_cons_default (f c) (f a)).
Qed.

Lemma last_app_cons {A : Type} (l1 l2 : list A) (a d : A) :
  List.last (l1 ++ a :: l2) d = List.last l2 a.
Proof.
  revert d. induction l1 as [|c l1 IH]; intros d; cbn [app].
  - apply last_cons_default.
  - rewrite last_cons_default. apply IH.
Qed.

Lemma extremal_queries (s : SkipList) (kmin : Z) (ks : list Z) :
  reachable s → allKeysInOrder s = Ok (kmin :: ks) →
  ∀ k, isSmallestKey k s = Ok (k =? kmin) ∧
       isLargestKey k s = Ok (k =? List.last ks kmin).
Proof.
  intros Hs Hks k. destruct (reachable_Inv s Hs) as (g & r0 & Hwf).
  pose proof (wf_grid _ _ _ Hwf) as Hg. pose proof (wf_bottom _ _ _ Hwf) as H0.
  pose proof (grid_row_ok _ _ Hg _ _ H0) as Hr.
  rewrite (observe_keys _ _ _ Hwf) in Hks. injection Hks as Hks.
  destruct (rnodes r0) as [|a l] eqn:E; [done|].
  rewrite fmap_cons in Hks. injection Hks as <- <-.
  assert (∀ c, c ∈ rnodes r0 → (c < length (heap s))%nat ∧
                                 key (node (heap s) c) = Some (nkey (heap s) c)) as Hd.
  { intros c Hc. split; [by eapply (grid_valid _ _ Hg _ _ _ H0), rnodes_rall|].
    pose proof (row_data _ _ Hr) as Hall. rewrite Forall_forall in Hall.
    by destruct (Hall c Hc). }
  split.
  - unfold isSmallestKey. rewrite (bottom_l_eq _ _ Hg _ H0).
    rewrite rd_ok, bind_Ok by (eapply (grid_valid _ _ Hg _ _ _ H0), rhead_rall).
    rewrite (row_head_next _ _ Hr), E. cbn [List.hd].
    destruct (Hd a) as [Hv Hk]; [rewrite E; by left|].
    rewrite (rdi_ok _ _ _ (nkey (heap s) a)), bind_Ok by done.
    by destruct (k =? nkey (heap s) a).
  - unfold isLargestKey. rewrite (bottom_tail_eq _ _ Hg _ H0).
    rewrite rd_ok, bind_Ok by (eapply (grid_valid _ _ Hg _ _ _ H0), rtail_rall).
    rewrite (row_tail_prev _ _ Hr), E.
    assert (List.last (a :: l) (rhead r0) ∈ rnodes r0 ∧
            nkey (heap s) (List.last (a :: l) (rhead r0))
            = List.last (nkey (heap s) <$> l) (nkey (heap s) a)) as [Hin Hlast].
    { rewrite E. apply last_cons_fmap. }
    destruct (Hd _ Hin) as [Hv Hk].
    rewrite (rdi_ok _ _ _ _ Hv Hk), bind_Ok. rewrite Hlast.
    by destruct (k =? _).
Qed.

(** * Further properties of the container *)

(** X1.  After any run of insertions of keys of type [unsigned] into a new
    container, [find k] returns the value of the first insertion of [k] in
    the run and throws when the run never inserted [k]; [allKeysInOrder]
    returns the keys of the run, each once, in increasing order, and [size]
    is their number. *)
Theorem find_after_inserts (kvs : list (Z * Z)) :
  Forall key_in_range kvs.*1 →
  ∃ s ks, insert_list kvs SkipList_new = Ok s ∧
    (∀ k, find k s = find_result (first_value k kvs)) ∧
    allKeysInOrder s = Ok ks ∧ StronglySorted Z.lt ks ∧
    (∀ k, k ∈ ks ↔ k ∈ kvs.*1) ∧
    size s = Z.of_nat (length ks).
Proof.
  intros Hr. destruct (find_after_inserts_run kvs Hr) as (s & Hrun & Hs & Hfind).
  pose proof (reachable_Inv s Hs) as HI.
  destruct (Inv_keys s HI) as (ks & Hks & Hsorted & _ & Hsz).
  exists s, ks. split_and!; try done.
  intros k. split.
  - intros Hin. destruct (decide (k ∈ kvs.*1)) as [|Hnin]; [done|].
    apply first_value_None in Hnin. exfalso.
    apply (find_present s k ks HI Hks Hin (mkRuntimeException "find failed.")).
    by rewrite Hfind, Hnin.
  - intros Hin. destruct (decide (k ∈ ks)) as [|Hnin]; [done|].
    pose proof (find_absent s k ks HI Hks Hnin) as Hthrow. rewrite Hfind in Hthrow.
    destruct (first_value k kvs) eqn:Ef; [done|]. by apply first_value_None in Ef.
Qed.

Lemma find_after_inserts_witness :
  Forall key_in_range [(5, 50); (3, 30); (5, 51); (9, 90)].*1 ∧
  ∃ s ks, insert_list [(5, 50); (3, 30); (5, 51); (9, 90)] SkipList_new = Ok s ∧
    (∀ k, find k s = find_result (first_value k [(5, 50); (3, 30); (5, 51); (9, 90)])) ∧
    allKeysInOrder s = Ok ks ∧ StronglySorted Z.lt ks ∧
    (∀ k, k ∈ ks ↔ k ∈ [(5, 50); (3, 30); (5, 51); (9, 90)].*1) ∧
    size s = Z.of_nat (length ks).
Proof.
  assert (Forall key_in_range [(5, 50); (3, 30); (5, 51); (9, 90)].*1) as Hr.
  { repeat constructor; unfold key_in_range; simpl; lia. }
  split; [exact Hr|].
  exact (find_after_inserts [(5, 50); (3, 30); (5, 51); (9, 90)] Hr).
Defined.

(** X2.  An insertion into a reachable container changes nothing for the
    other keys: for every key but the inserted one [find] and [height]
    return, or throw, as they did before. *)
Theorem insert_keeps_other_keys (s s' : SkipList) (k v k' : Z) (b : bool) :
  reachable s → key_in_range k → insert k v s = Ok (b, s') → k' ≠ k →
  find k' s' = find k' s ∧ heightOf k' s' = heightOf k' s.
Proof.
  intros Hs Hk Hrun Hne.
  by apply (insert_other_keys s s' k v k' b (reachable_Inv s Hs)).
Qed.

Lemma insert_keeps_other_keys_witness :
  reachable sl_1_3 ∧ key_in_range 2 ∧ insert 2 20 sl_1_3 = Ok (true, sl_1_2_3) ∧ 3 ≠ 2 ∧
  find 3 sl_1_2_3 = find 3 sl_1_3 ∧ heightOf 3 sl_1_2_3 = heightOf 3 sl_1_3.
Proof.
  assert (key_in_range 2) as Hk by (unfold key_in_range; lia).
  assert (insert 2 20 sl_1_3 = Ok (true, sl_1_2_3)) as Hrun by (vm_compute; reflexivity).
  assert (3 ≠ 2) as Hne by lia.
  split_and!; [exact reachable_sl_1_3|exact Hk|exact Hrun|exact Hne|..];
    apply (insert_keeps_other_keys sl_1_3 sl_1_2_3 2 20 3 true reachable_sl_1_3 Hk Hrun Hne).
Defined.

(** X3.  What one insertion does to the keys: a key the container holds is
    refused and the container stays as it is; a key it does not hold goes
    between the keys below it and the keys above it, and [size] grows by
    one exactly when the insertion returns [true]. *)
Theorem insert_step (s s' : SkipList) (k v : Z) (b : bool) (ks : list Z) :
  reachable s → key_in_range k → allKeysInOrder s = Ok ks →
  insert k v s = Ok (b, s') →
  (k ∈ ks → b = false ∧ s' = s) ∧
  (k ∉ ks → b = true ∧ ∃ ks1 ks2, ks = ks1 ++ ks2 ∧
     Forall (λ x, x < k) ks1 ∧ Forall (λ x, k < x) ks2 ∧
     allKeysInOrder s' = Ok (ks1 ++ k :: ks2)) ∧
  size s' = size s + Z.b2z b ∧ isEmpty s' = bool_decide (ks = []) && negb b.
Proof.
  intros Hs Hk Hks Hrun. pose proof (reachable_Inv s Hs) as HI.
  destruct (Inv_keys s HI) as (ks' & Hks' & _ & _ & Hsz).
  rewrite Hks in Hks'. injection Hks' as <-.
  assert (isEmpty s = bool_decide (ks = [])) as Hemp.
  { unfold isEmpty. unfold size in Hsz. rewrite Hsz. destruct ks; [done|].
    rewrite bool_decide_false by done. apply Z.eqb_neq. cbn [length]. lia. }
  destruct (decide (k ∈ ks)) as [Hin|Hnin].
  - rewrite (insert_present s k v ks HI Hk Hks Hin) in Hrun. injection Hrun as <- <-.
    split_and!; [done|done|cbn; lia|by rewrite andb_true_r].
  - destruct (insert_absent s k v ks HI Hk Hks Hnin)
      as (s1 & ks1 & ks2 & Hrun' & _ & E & Hl1 & Hl2 & Hks1 & _ & _ & Hsz' & _).
    rewrite Hrun in Hrun'. injection Hrun' as -> ->.
    split_and!; [done| |done|].
    + intros _. split; [done|]. by exists ks1, ks2.
    + rewrite andb_false_r. unfold isEmpty. unfold size in Hsz, Hsz'.
      apply Z.eqb_neq. lia.
Qed.

Lemma insert_step_witness :
  reachable sl_1_3 ∧ key_in_range 2 ∧ allKeysInOrder sl_1_3 = Ok [1; 3] ∧
  insert 2 20 sl_1_3 = Ok (true, sl_1_2_3) ∧
  (2 ∈ [1; 3] → true = false ∧ sl_1_2_3 = sl_1_3) ∧
  (2 ∉ [1; 3] → true = true ∧ ∃ ks1 ks2, [1; 3] = ks1 ++ ks2 ∧
     Forall (λ x, x < 2) ks1 ∧ Forall (λ x, 2 < x) ks2 ∧
     allKeysInOrder sl_1_2_3 = Ok (ks1 ++ 2 :: ks2)) ∧
  size sl_1_2_3 = size sl_1_3 + Z.b2z true ∧
  isEmpty sl_1_2_3 = bool_decide ([1; 3] = []) && negb true.
Proof.
  assert (key_in_range 2) as Hk by (unfold key_in_range; lia).
  assert (allKeysInOrder sl_1_3 = Ok [1; 3]) as Hks by (vm_compute; reflexivity).
  assert (insert 2 20 sl_1_3 = Ok (true, sl_1_2_3)) as Hrun by (vm_compute; reflexivity).
  split_and!; [exact reachable_sl_1_3|exact Hk|exact Hks|exact Hrun|..];
    apply (insert_step sl_1_3 sl_1_2_3 2 20 true [1; 3] reachable_sl_1_3 Hk Hks Hrun).
Defined.

(** X4.  In every reachable container [size] is the number of keys
    [allKeysInOrder] returns, at most [2^32], and [isEmpty] says whether
    there is none; the keys are strictly increasing values of type
    [unsigned]. *)
Theorem size_counts_keys (s : SkipList) :
  reachable s →
  ∃ ks, allKeysInOrder s = Ok ks ∧ StronglySorted Z.lt ks ∧ Forall key_in_range ks ∧
        size s = Z.of_nat (length ks) ∧ 0 ≤ size s ≤ 2 ^ 32 ∧
        isEmpty s = bool_decide (ks = []).
Proof.
  intros Hs. pose proof (reachable_Inv s Hs) as HI.
  destruct (Inv_keys s HI) as (ks & Hks & Hsorted & Hr & Hsz).
  exists ks. split_and!; try done.
  - lia.
  - destruct HI as (g & r0 & Hwf). apply (wf_size_bound _ _ _ Hwf).
  - unfold isEmpty. unfold size in Hsz. rewrite Hsz. destruct ks; [done|].
    rewrite bool_decide_false by done. apply Z.eqb_neq. cbn [length]. lia.
Qed.

Lemma size_counts_keys_witness :
  reachable sl_1_3 ∧
  ∃ ks, allKeysInOrder sl_1_3 = Ok ks ∧ StronglySorted Z.lt ks ∧ Forall key_in_range ks ∧
        size sl_1_3 = Z.of_nat (length ks) ∧ 0 ≤ size sl_1_3 ≤ 2 ^ 32 ∧
        isEmpty sl_1_3 = bool_decide (ks = []).
Proof.
  split; [exact reachable_sl_1_3|]. exact (size_counts_keys sl_1_3 reachable_sl_1_3).
Defined.

(** X5.  [nextKey] and [previousKey] follow the order [allKeysInOrder]
    returns: for two keys next to each other, [nextKey] of the first is the
    second and [previousKey] of the second is the first; [nextKey] of the
    last key and [previousKey] of the first key throw. *)
Theorem neighbours_in_order (s : SkipList) (ks : list Z) :
  reachable s → allKeysInOrder s = Ok ks →
  (∀ ks1 k1 k2 ks2, ks = ks1 ++ k1 :: k2 :: ks2 →
     nextKey k1 s = Ok k2 ∧ previousKey k2 s = Ok k1) ∧
  (∀ k, head ks = Some k →
     previousKey k s = Throw (mkRuntimeException "No previous key")) ∧
  (∀ k, last ks = Some k →
     nextKey k s = Throw (mkRuntimeException "failed to get next key.")).
Proof.
  intros Hs Hks. split_and!.
  - intros ks1 k1 k2 ks2 ->. split.
    + by destruct (neighbour_queries s k1 ks1 (k2 :: ks2) Hs Hks) as [-> _].
    + destruct (neighbour_queries s k2 (ks1 ++ [k1]) ks2 Hs) as [_ ->].
      * by rewrite <- app_assoc.
      * by rewrite last_snoc.
  - intros k Hk. destruct ks as [|k' ks]; [done|]. injection Hk as ->.
    by destruct (neighbour_queries s k [] ks Hs Hks) as [_ ->].
  - intros k Hk. apply last_Some in Hk as [ks' ->].
    by destruct (neighbour_queries s k ks' [] Hs Hks) as [-> _].
Qed.

Lemma neighbours_in_order_witness :
  reachable sl_1_3 ∧ allKeysInOrder sl_1_3 = Ok [1; 3] ∧
  (∀ ks1 k1 k2 ks2, [1; 3] = ks1 ++ k1 :: k2 :: ks2 →
     nextKey k1 sl_1_3 = Ok k2 ∧ previousKey k2 sl_1_3 = Ok k1) ∧
  (∀ k, head [1; 3] = Some k →
     previousKey k sl_1_3 = Throw (mkRuntimeException "No previous key")) ∧
  (∀ k, last [1; 3] = Some k →
     nextKey k sl_1_3 = Throw (mkRuntimeException "failed to get next key.")).
Proof.
  assert (allKeysInOrder sl_1_3 = Ok [1; 3]) as Hks by (vm_compute; reflexivity).
  split_and!; [exact reachable_sl_1_3|exact Hks|..];
    apply (neighbours_in_order sl_1_3 [1; 3] reachable_sl_1_3 Hks).
Defined.

(** X6.  For a key a reachable container does not hold, [height] throws
    ["No key."], [find] throws ["find failed."] and [previousKey] throws
    ["No previous key"]. *)
Theorem absent_key_outcomes (s : SkipList) (k : Z) (ks : list Z) :
  reachable s → allKeysInOrder s = Ok ks → k ∉ ks →
  heightOf k s = Throw (mkRuntimeException "No key.") ∧
  find k s = Throw (mkRuntimeException "find failed.") ∧
  previousKey k s = Throw (mkRuntimeException "No previous key").
Proof.
  intros Hs Hks Hnin.
  destruct (absent_key_queries s k ks Hs Hks Hnin) as (Hh & Hp & Hf & Hn).
  by split_and!.
Qed.

Lemma absent_key_outcomes_witness :
  reachable sl_1_3 ∧ allKeysInOrder sl_1_3 = Ok [1; 3] ∧ (7 ∉ [1; 3]) ∧
  heightOf 7 sl_1_3 = Throw (mkRuntimeException "No key.") ∧
  find 7 sl_1_3 = Throw (mkRuntimeException "find failed.") ∧
  previousKey 7 sl_1_3 = Throw (mkRuntimeException "No previous key").
Proof.
  assert (allKeysInOrder sl_1_3 = Ok [1; 3]) as Hks by (vm_compute; reflexivity).
  assert (7 ∉ [1; 3]) as Hnin.
  { intros Hin. apply elem_of_cons in Hin as [Hin|Hin]; [lia|].
    apply elem_of_cons in Hin as [Hin|Hin]; [lia|]. by apply elem_of_nil in Hin. }
  split_and!; [exact reachable_sl_1_3|exact Hks|exact Hnin|..];
    apply (absent_key_outcomes sl_1_3 7 [1; 3] reachable_sl_1_3 Hks Hnin).
Defined.

Lemma reachable_empty (s : SkipList) :
  reachable s → sl_size s = 0 → s = SkipList_new.
Proof.
  induction 1 as [|s s' k v b Hs IH Hk Hrun]; intros Hz; [done|].
  pose proof (reachable_Inv s Hs) as HI.
  destruct (Inv_keys s HI) as (ks & Hks & _ & _ & Hsz).
  destruct (decide (k ∈ ks)) as [Hin|Hnin].
  - rewrite (insert_present s k v ks HI Hk Hks Hin) in Hrun. injection Hrun as _ <-.
    by apply IH.
  - destruct (insert_absent s k v ks HI Hk Hks Hnin)
      as (s1 & ks1 & ks2 & Hrun' & _ & _ & _ & _ & _ & _ & _ & Hsz' & _).
    rewrite Hrun in Hrun'. injection Hrun' as _ ->. unfold size in *. lia.
Qed.

(** X7.  The only reachable container without a key is the one the
    constructor makes.  On it [allKeysInOrder] returns the empty vector,
    and [isSmallestKey] and [isLargestKey] compare their argument with the
    [key] of a sentinel, which no constructor has set. *)
Theorem queries_on_empty (s : SkipList) :
  reachable s → isEmpty s = true →
  s = SkipList_new ∧ allKeysInOrder s = Ok [] ∧
  ∀ k, isSmallestKey k s = Undefined UninitialisedRead ∧
       isLargestKey k s = Undefined UninitialisedRead.
Proof.
  intros Hs Hz. apply Z.eqb_eq in Hz. rewrite (reachable_empty s Hs Hz).
  split_and!; done.
Qed.

Lemma queries_on_empty_witness :
  reachable SkipList_new ∧ isEmpty SkipList_new = true ∧
  SkipList_new = SkipList_new ∧ allKeysInOrder SkipList_new = Ok [] ∧
  ∀ k, isSmallestKey k SkipList_new = Undefined UninitialisedRead ∧
       isLargestKey k SkipList_new = Undefined UninitialisedRead.
Proof.
  assert (isEmpty SkipList_new = true) as Hz by reflexivity.
  split_and!; [exact reachable_new|exact Hz|..];
    apply (queries_on_empty SkipList_new reachable_new Hz).
Defined.

(** X8.  In every reachable container the [height] of a key counts the
    nodes of its column: as many nodes as [height] says are linked by [up]
    from the node of the bottom layer [search] finds.  The height is at
    least 1 and below [numLayers], which is within the bound [max] of
    [insert] for the current size. *)
Theorem height_counts_column (s : SkipList) (k : Z) (ks : list Z) :
  reachable s → allKeysInOrder s = Ok ks → k ∈ ks →
  ∃ b h, search k s = Ok (true, Some b) ∧ heightOf k s = Ok h ∧
         column_height (fuel s) s (Some b) = Ok h ∧
         1 ≤ h ≤ numLayers s - 1 ∧ numLayers s ≤ insert_max (size s).
Proof.
  intros Hs Hks Hin. destruct (reachable_Inv_full s Hs) as (g & r0 & Hwf & _ & Hh).
  rewrite (observe_keys _ _ _ Hwf) in Hks. injection Hks as <-.
  apply list_elem_of_fmap in Hin as (b & -> & Hb).
  destruct (present_height s g r0 b Hwf Hh Hb) as (h & Hq & Hc & Hbound).
  destruct (present_queries s g r0 b Hwf Hb) as (Hsearch & _).
  exists b, h. unfold numLayers, size. split_and!; try done; try lia.
  apply (wf_layers _ _ _ Hwf).
Qed.

Lemma height_counts_column_witness :
  reachable sl_1_3 ∧ allKeysInOrder sl_1_3 = Ok [1; 3] ∧ 3 ∈ [1; 3] ∧
  ∃ b h, search 3 sl_1_3 = Ok (true, Some b) ∧ heightOf 3 sl_1_3 = Ok h ∧
         column_height (fuel sl_1_3) sl_1_3 (Some b) = Ok h ∧
         1 ≤ h ≤ numLayers sl_1_3 - 1 ∧ numLayers sl_1_3 ≤ insert_max (size sl_1_3).
Proof.
  assert (allKeysInOrder sl_1_3 = Ok [1; 3]) as Hks by (vm_compute; reflexivity).
  assert (3 ∈ [1; 3]) as Hin by (right; left).
  split_and!; [exact reachable_sl_1_3|exact Hks|exact Hin|].
  exact (height_counts_column sl_1_3 3 [1; 3] reachable_sl_1_3 Hks Hin).
Defined.

(** X9.  How high [insert] puts a key the container does not hold: the key
    is promoted [t] times, the coin showing heads at the flips 0 to [t-1],
    and the promotion ends at the first tails or when the number of layers
    has reached the bound [max] of the size on entry.  The height is then
    [t + 1], and the number of layers is the former one or [t + 2],
    whichever is greater. *)
Theorem insert_height (s : SkipList) (k v : Z) (ks : list Z) :
  reachable s → key_in_range k → allKeysInOrder s = Ok ks → k ∉ ks →
  ∃ s' (t : nat), insert k v s = Ok (true, s') ∧
    heightOf k s' = Ok (Z.of_nat t + 1) ∧
    numLayers s' = Z.max (numLayers s) (Z.of_nat t + 2) ∧
    (∀ c, 0 ≤ c < Z.of_nat t → flipCoin k c = true) ∧
    (flipCoin k (Z.of_nat t) = false ∨ insert_max (size s) ≤ numLayers s').
Proof.
  intros Hs Hk Hks Hnin.
  destruct (insert_absent_full s k v ks (reachable_Inv_full s Hs) Hk Hks Hnin)
    as (s' & t & Hrun & _ & Hh & HL & Hflips & Hstop).
  by exists s', t.
Qed.

Lemma insert_height_witness :
  reachable sl_1_3 ∧ key_in_range 2 ∧ allKeysInOrder sl_1_3 = Ok [1; 3] ∧ (2 ∉ [1; 3]) ∧
  ∃ s' (t : nat), insert 2 20 sl_1_3 = Ok (true, s') ∧
    heightOf 2 s' = Ok (Z.of_nat t + 1) ∧
    numLayers s' = Z.max (numLayers sl_1_3) (Z.of_nat t + 2) ∧
    (∀ c, 0 ≤ c < Z.of_nat t → flipCoin 2 c = true) ∧
    (flipCoin 2 (Z.of_nat t) = false ∨ insert_max (size sl_1_3) ≤ numLayers s').
Proof.
  assert (key_in_range 2) as Hk by (unfold key_in_range; lia).
  assert (allKeysInOrder sl_1_3 = Ok [1; 3]) as Hks by (vm_compute; reflexivity).
  split_and!; [exact reachable_sl_1_3|exact Hk|exact Hks|exact not_elem_1_3|].
  exact (insert_height sl_1_3 2 20 [1; 3] reachable_sl_1_3 Hk Hks not_elem_1_3).
Defined.

(** X10.  The destructor of a reachable container runs to its end without
    reading a deleted node or a null pointer, and deletes every node the
    constructor and the insertions have allocated exactly once. *)
Theorem destructor_deletes_all (s : SkipList) :
  reachable s →
  ∃ freed, SkipList_destructor s = Ok freed ∧ freed ≡ₚ seq 0 (length (heap s)).
Proof.
  intros Hs. destruct (reachable_Inv_full s Hs) as (g & r0 & Hwf & Ht & _).
  apply (destructor_spec s g (wf_grid _ _ _ Hwf) Ht).
Qed.

Lemma destructor_deletes_all_witness :
  reachable sl_1_3 ∧
  ∃ freed, SkipList_destructor sl_1_3 = Ok freed ∧
           freed ≡ₚ seq 0 (length (heap sl_1_3)).
Proof.
  split; [exact reachable_sl_1_3|]. exact (destructor_deletes_all sl_1_3 reachable_sl_1_3).
Defined.

(** X11.  For a key a reachable container holds, [isSmallestKey] returns
    [true] exactly when [previousKey] throws, and [isLargestKey] returns
    [true] exactly when [nextKey] throws; otherwise they return [false]
    and the neighbour exists. *)
Theorem extremal_iff_no_neighbour (s : SkipList) (k : Z) (ks : list Z) :
  reachable s → allKeysInOrder s = Ok ks → k ∈ ks →
  (isSmallestKey k s = Ok true ∧
     previousKey k s = Throw (mkRuntimeException "No previous key") ∨
   isSmallestKey k s = Ok false ∧ ∃ k', previousKey k s = Ok k' ∧ k' < k) ∧
  (isLargestKey k s = Ok true ∧
     nextKey k s = Throw (mkRuntimeException "failed to get next key.") ∨
   isLargestKey k s = Ok false ∧ ∃ k', nextKey k s = Ok k' ∧ k < k').
Proof.
  intros Hs Hks Hin. pose proof (reachable_Inv s Hs) as HI.
  destruct (Inv_keys s HI) as (ks' & Hks' & Hsorted & _).
  rewrite Hks in Hks'. injection Hks' as <-.
  apply list_elem_of_split in Hin as (ks1 & ks2 & ->).
  destruct (neighbour_queries s k ks1 ks2 Hs Hks) as [Hnext Hprev].
  assert (Forall (λ x, x < k) ks1 ∧ Forall (λ x, k < x) ks2) as [Hlo Hhi].
  { clear Hks Hnext Hprev. induction ks1 as [|a ks1 IH]; cbn [app] in Hsorted.
    - apply StronglySorted_inv in Hsorted as [_ Hall]. split; [constructor|done].
    - apply StronglySorted_inv in Hsorted as [Hs' Hall]. destruct (IH Hs') as [H1 H2].
      split; [|done]. constructor; [|done].
      rewrite Forall_forall in Hall. apply Hall. apply elem_of_app. right. by left. }
  destruct (ks1 ++ k :: ks2) as [|kmin ks'] eqn:E; [by destruct ks1|].
  destruct (extremal_queries s kmin ks' Hs Hks k) as [Hsmall Hlarge].
  split.
  - destruct ks1 as [|a ks1 _] using rev_ind.
    + cbn [app] in E. injection E as <- <-. left. rewrite Hsmall, Z.eqb_refl.
      split; [done|]. by rewrite Hprev.
    + right. rewrite last_snoc in Hprev.
      assert (a < k) as Hak.
      { rewrite Forall_forall in Hlo. apply Hlo. apply elem_of_app. right. by left. }
      assert (kmin < k) as Hmin.
      { rewrite Forall_forall in Hlo. apply Hlo.
        destruct ks1 as [|c ks1]; cbn [app] in E; injection E as <- _;
          [apply elem_of_app; right; by left|by left]. }
      split; [|by exists a]. rewrite Hsmall. f_equal. apply Z.eqb_neq. lia.
  - assert (List.last ks' kmin = List.last ks2 k) as Hl.
    { rewrite <- (last_cons_default kmin 0 ks'), <- E. apply last_app_cons. }
    rewrite Hl in Hlarge. destruct ks2 as [|a ks2].
    + left. cbn [List.last] in Hlarge. rewrite Hlarge, Z.eqb_refl.
      split; [done|]. by rewrite Hnext.
    + right. assert (k < a) as Hka.
      { apply Forall_cons in Hhi as [Hka _]. done. }
      assert (k < List.last (a :: ks2) k) as Hmax.
      { rewrite Forall_forall in Hhi. apply Hhi.
        rewrite last_cons_default. apply last_in. }
      split; [|by exists a]. rewrite Hlarge. f_equal. apply Z.eqb_neq. lia.
Qed.

Lemma extremal_iff_no_neighbour_witness :
  reachable sl_1_3 ∧ allKeysInOrder sl_1_3 = Ok [1; 3] ∧ 1 ∈ [1; 3] ∧
  (isSmallestKey 1 sl_1_3 = Ok true ∧
     previousKey 1 sl_1_3 = Throw (mkRuntimeException "No previous key") ∨
   isSmallestKey 1 sl_1_3 = Ok false ∧ ∃ k', previousKey 1 sl_1_3 = Ok k' ∧ k' < 1) ∧
  (isLargestKey 1 sl_1_3 = Ok true ∧
     nextKey 1 sl_1_3 = Throw (mkRuntimeException "failed to get next key.") ∨
   isLargestKey 1 sl_1_3 = Ok false ∧ ∃ k', nextKey 1 sl_1_3 = Ok k' ∧ 1 < k').
Proof.
  assert (allKeysInOrder sl_1_3 = Ok [1; 3]) as Hks by (vm_compute; reflexivity).
  assert (1 ∈ [1; 3]) as Hin by left.
  split_and!; [exact reachable_sl_1_3|exact Hks|exact Hin|..];
    apply (extremal_iff_no_neighbour sl_1_3 1 [1; 3] reachable_sl_1_3 Hks Hin).
Defined.

Lemma highest_key (s : SkipList) :
  reachable s → ∀ ks, allKeysInOrder s = Ok ks → ks ≠ [] →
  ∃ k, k ∈ ks ∧ heightOf k s = Ok (numLayers s - 1).
Proof.
  induction 1 as [|s s' k v b Hs IH Hk Hrun]; intros ks Hks Hne.
  { exfalso. apply Hne. assert (allKeysInOrder SkipList_new = Ok []) as E by by vm_compute.
    rewrite E in Hks. by injection Hks as <-. }
  pose proof (reachable_Inv s Hs) as HI.
  destruct (Inv_keys s HI) as (ks0 & Hks0 & _ & _ & Hsz).
  destruct (decide (k ∈ ks0)) as [Hin|Hnin].
  { rewrite (insert_present s k v ks0 HI Hk Hks0 Hin) in Hrun. injection Hrun as _ <-.
    by apply IH. }
  destruct (insert_absent_full s k v ks0 (reachable_Inv_full s Hs) Hk Hks0 Hnin)
    as (s1 & t & Hrun1 & _ & Hh & HL & _).
  rewrite Hrun in Hrun1. injection Hrun1 as -> <-.
  destruct (insert_absent s k v ks0 HI Hk Hks0 Hnin)
    as (s2 & ks1 & ks2 & Hrun2 & _ & E & _ & _ & Hks' & _).
  rewrite Hrun in Hrun2. injection Hrun2 as <-.
  rewrite Hks in Hks'. injection Hks' as ->.
  destruct (decide (Z.of_nat t + 2 ≤ numLayers s)) as [Hle|Hgt].
  - rewrite Z.max_l in HL by done. destruct ks0 as [|k0 ks0'] eqn:E0.
    + assert (numLayers s = 2) as H2.
      { apply (reachable_empty_layers s Hs). unfold size in Hsz. by rewrite Hsz. }
      exists k. split; [apply elem_of_app; right; by left|].
      rewrite Hh, HL. f_equal. lia.
    + destruct (IH (k0 :: ks0') Hks0 ltac:(done)) as (k1 & Hk1 & Hh1).
      exists k1. split.
      * rewrite E, elem_of_app in Hk1. rewrite elem_of_app, elem_of_cons. tauto.
      * destruct (insert_other_keys s s' k v k1 true HI Hk Hrun) as [_ ->].
        { intros ->. by apply Hnin. }
        by rewrite Hh1, HL.
  - rewrite Z.max_r in HL by lia. exists k. split; [apply elem_of_app; right; by left|].
    rewrite Hh, HL. f_equal. lia.
Qed.

(** X12.  In every reachable container the number of layers is one more
    than the greatest height of a key: every key has a height below
    [numLayers], some key has the height [numLayers - 1], and a container
    without a key has two layers. *)
Theorem layers_fit_highest_key (s : SkipList) (ks : list Z) :
  reachable s → allKeysInOrder s = Ok ks →
  (∀ k, k ∈ ks → ∃ h, heightOf k s = Ok h ∧ 1 ≤ h ≤ numLayers s - 1) ∧
  (ks ≠ [] → ∃ k, k ∈ ks ∧ heightOf k s = Ok (numLayers s - 1)) ∧
  (ks = [] → numLayers s = 2).
Proof.
  intros Hs Hks. split_and!.
  - intros k Hin. destruct (reachable_Inv_full s Hs) as (g & r0 & Hwf & _ & Hh).
    rewrite (observe_keys _ _ _ Hwf) in Hks. injection Hks as <-.
    apply list_elem_of_fmap in Hin as (b & -> & Hb).
    destruct (present_height s g r0 b Hwf Hh Hb) as (h & Hq & _ & Hbound).
    by exists h.
  - by apply highest_key.
  - intros ->. apply (reachable_empty_layers s Hs).
    destruct (Inv_keys s (reachable_Inv s Hs)) as (ks' & Hks' & _ & _ & Hsz).
    rewrite Hks in Hks'. injection Hks' as <-. unfold size in Hsz. by rewrite Hsz.
Qed.

Lemma layers_fit_highest_key_witness :
  reachable sl_1_3 ∧ allKeysInOrder sl_1_3 = Ok [1; 3] ∧
  (∀ k, k ∈ [1; 3] → ∃ h, heightOf k sl_1_3 = Ok h ∧ 1 ≤ h ≤ numLayers sl_1_3 - 1) ∧
  ([1; 3] ≠ [] → ∃ k, k ∈ [1; 3] ∧ heightOf k sl_1_3 = Ok (numLayers sl_1_3 - 1)) ∧
  ([1; 3] = [] → numLayers sl_1_3 = 2).
Proof.
  assert (allKeysInOrder sl_1_3 = Ok [1; 3]) as Hks by (vm_compute; reflexivity).
  split_and!; [exact reachable_sl_1_3|exact Hks|..];
    apply (layers_fit_highest_key sl_1_3 [1; 3] reachable_sl_1_3 Hks).
Defined.

(** * The growth of the layers *)

(** What an insertion does to the number of layers. *)
Lemma insert_layers (s : SkipList) (k v : Z) :
  reachable s → key_in_range k →
  ∃ b s', insert k v s = Ok (b, s') ∧
    (b = false → s' = s) ∧
    (b = true → ∃ h, heightOf k s' = Ok h ∧ 1 ≤ h ∧
                     numLayers s' = Z.max (numLayers s) (h + 1)).
Proof.
  intros Hs Hk. pose proof (reachable_Inv s Hs) as HI.
  destruct (Inv_keys s HI) as (ks & Hks & _).
  destruct (decide (k ∈ ks)) as [Hin|Hnin].
  - exists false, s. split; [by apply (insert_present s k v ks)|]. by split.
  - destruct (insert_absent_full s k v ks (reachable_Inv_full s Hs) Hk Hks Hnin)
      as (s' & t & Hrun & _ & Hh & HL & _).
    exists true, s'. split_and!; [done|done|]. intros _.
    exists (Z.of_nat t + 1). split_and!; [done|lia|]. rewrite HL. f_equal. lia.
Qed.

(** C8, as amended.  In every reachable container [numLayers] is at least 2
    and is 2 when the container holds no key, and the top layer holds no
    node but its two sentinels: [top_l] is a sentinel, its [next] is
    [top_tail], and [top_tail] is a sentinel.  An insertion that finds its
    key changes nothing; one that puts a new key at the height [h] leaves
    [numLayers] or [h + 1] layers, whichever is greater: layers are grown
    only when the key rises into the former top layer, and then as many as
    leave one layer without a key above it. *)
Theorem layers_invariant (s : SkipList) :
  reachable s →
  2 ≤ numLayers s ∧
  (isEmpty s = true → numLayers s = 2) ∧
  rd s (Some (top_l s)) sentinel = Ok true ∧
  rd s (Some (top_l s)) next = Ok (Some (top_tail s)) ∧
  rd s (Some (top_tail s)) sentinel = Ok true ∧
  ∀ k v, key_in_range k →
    ∃ b s', insert k v s = Ok (b, s') ∧
      (b = false → s' = s) ∧
      (b = true → ∃ h, heightOf k s' = Ok h ∧ 1 ≤ h ∧
                       numLayers s' = Z.max (numLayers s) (h + 1)).
Proof.
  intros Hs. destruct (top_layer_sentinels s Hs) as (H2 & He & Hl & Hn & Ht).
  split_and!; try done. intros k v Hk. by apply insert_layers.
Qed.

Lemma layers_invariant_witness :
  reachable sl_1_3 ∧
  2 ≤ numLayers sl_1_3 ∧
  (isEmpty sl_1_3 = true → numLayers sl_1_3 = 2) ∧
  rd sl_1_3 (Some (top_l sl_1_3)) sentinel = Ok true ∧
  rd sl_1_3 (Some (top_l sl_1_3)) next = Ok (Some (top_tail sl_1_3)) ∧
  rd sl_1_3 (Some (top_tail sl_1_3)) sentinel = Ok true ∧
  ∀ k v, key_in_range k →
    ∃ b s', insert k v sl_1_3 = Ok (b, s') ∧
      (b = false → s' = sl_1_3) ∧
      (b = true → ∃ h, heightOf k s' = Ok h ∧ 1 ≤ h ∧
                       numLayers s' = Z.max (numLayers sl_1_3) (h + 1)).
Proof.
  split; [exact reachable_sl_1_3|].
  exact (layers_invariant sl_1_3 reachable_sl_1_3).
Defined.

(** C8, as the claim states it, fails twice.  After [insert(0, 0)] into a
    new container the key 0 is never promoted, so the container holds a key
    and still has 2 layers.  And after [insert(7, 7)] the container has 5
    layers, [insert(23, 23)] promotes the key 23 three times, into the
    layers 1, 2 and 3, the last of them the second from the top, and grows
    no layer: the height of 23 is 4, the layers are 5 as before, and the 4
    nodes allocated are those of the key. *)
Lemma two_layers_counterexample :
  (insert 0 0 SkipList_new ≫= λ '(b, s), Ok (b, numLayers s, isEmpty s))
  = Ok (true, 2, false) ∧
  (insert 7 7 SkipList_new ≫= λ '(_, s),
   insert 23 23 s ≫= λ '(b, s'),
   heightOf 23 s' ≫= λ h,
   Ok (numLayers s, b, h, numLayers s', length (heap s), length (heap s')))
  = Ok (5, true, 4, 5, 14%nat, 18%nat).
Proof. split; vm_compute; reflexivity. Qed.
